(** * CallBrain: the audio normalisation pipeline and the analysis orchestrator

    A shallow embedding of the service module of CallBrain-AI
    ([writeWavHeader], [audioBufferToWav], [convertMp4ToWav],
    [fileToGenerativePart], [getMimeType], [cleanAndParseJSON] and
    [analyzeAudio]) together with the parts of the JavaScript runtime these
    functions rely on ([DataView], [Math.min]/[Math.max], [String.prototype]
    helpers, regular-expression matching and [JSON.parse]).

    Conventions.
    - Integers that the source stores in header fields are [Z]; the
      wrap-around of [setUint16]/[setUint32]/[setInt16] is written out.
    - Bytes are [Z] values in [0, 256); an [ArrayBuffer] is a [list Z].
    - Audio samples are elements of a [Float32Array].  Every finite
      float32 is a dyadic rational with a 24-bit significand, so the
      products [clamped * 0x8000] and [clamped * 0x7FFF] (at most 39
      significant bits) are exact in binary64: the arithmetic on finite
      samples is modelled by exact rationals [Q], with the three special
      values of IEEE 754 kept apart.
    - Strings are sequences of code units below 256 (Latin-1), as
      [String.string]. *)

From Stdlib Require Import ZArith QArith Qround Qminmax List String Ascii Bool Lia Lqa Arith.
From Stdlib Require Import DecimalString.
Import ListNotations.

Local Open Scope Z_scope.

(** ** Option as the exception monad of the pure helpers *)

Definition obind {A B} (m : option A) (f : A -> option B) : option B :=
  match m with
  | Some a => f a
  | None => None
  end.

Notation "x <-? m ; k" := (obind m (fun x => k))
  (at level 61, m at next level, right associativity).

(** [for (let i = 0; i < n; i++) body(i)] over a state that may throw. *)
Fixpoint forFrom {S} (i : nat) (n : nat) (body : nat -> S -> option S) (s : S)
  : option S :=
  match n with
  | O => Some s
  | Datatypes.S n' => s' <-? body i s ; forFrom (Datatypes.S i) n' body s'
  end.

Definition forLoop {S} (n : nat) (body : nat -> S -> option S) (s : S) : option S :=
  forFrom 0 n body s.

(** ** JavaScript numbers as they occur on the sample path *)

Module Num.

Inductive t : Type :=
| Fin (q : Q)
| PInf
| NInf
| NaN.

Definition of_Z (z : Z) : t := Fin (inject_Z z).

(** [Math.min(a, b)]: NaN is contagious. *)
Definition min (a b : t) : t :=
  match a, b with
  | NaN, _ | _, NaN => NaN
  | NInf, _ | _, NInf => NInf
  | PInf, x | x, PInf => x
  | Fin p, Fin q => if Qle_bool p q then Fin p else Fin q
  end.

(** [Math.max(a, b)]. *)
Definition max (a b : t) : t :=
  match a, b with
  | NaN, _ | _, NaN => NaN
  | PInf, _ | _, PInf => PInf
  | NInf, x | x, NInf => x
  | Fin p, Fin q => if Qle_bool p q then Fin q else Fin p
  end.

(** [a < 0]; a comparison with NaN is false. *)
Definition ltb0 (a : t) : bool :=
  match a with
  | Fin q => Qnum q <? 0
  | NInf => true
  | PInf | NaN => false
  end.

(** [a * k] for a positive integer constant [k]. *)
Definition mulpos (a : t) (k : Z) : t :=
  match a with
  | Fin q => Fin (q * inject_Z k)
  | other => other
  end.

(** The integer part used by [ToInt16]/[ToUint16]/[ToUint32]: NaN and the
    infinities give 0, a finite value is truncated toward zero. *)
Definition truncate (a : t) : Z :=
  match a with
  | Fin q => Z.quot (Qnum q) (Z.pos (Qden q))
  | _ => 0
  end.

End Num.

(** ** DataView over an ArrayBuffer *)

Module DataView.

Definition t := list Z.

(** [new ArrayBuffer(n)]: [n] zero bytes. *)
Definition alloc (n : Z) : t := repeat 0 (Z.to_nat n).

Definition byteLength (v : t) : Z := Z.of_nat (List.length v).

(** Little-endian bytes of [x], [n] of them. *)
Fixpoint le_bytes (n : nat) (x : Z) : list Z :=
  match n with
  | O => []
  | S n' => (x mod 256) :: le_bytes n' (x / 256)
  end.

Fixpoint le_value (bs : list Z) : Z :=
  match bs with
  | [] => 0
  | b :: bs' => b + 256 * le_value bs'
  end.

Definition order (littleEndian : bool) (bs : list Z) : list Z :=
  if littleEndian then bs else rev bs.

(** SetViewValue: a RangeError ([None]) when the element does not fit. *)
Definition store (off : Z) (bs : list Z) (v : t) : option t :=
  if (0 <=? off) && (off + Z.of_nat (List.length bs) <=? byteLength v) then
    Some (firstn (Z.to_nat off) v ++ bs
            ++ skipn (Z.to_nat off + List.length bs) v)
  else None.

(** GetViewValue. *)
Definition load (off : Z) (n : nat) (v : t) : option (list Z) :=
  if (0 <=? off) && (off + Z.of_nat n <=? byteLength v) then
    Some (firstn n (skipn (Z.to_nat off) v))
  else None.

Definition setUint32 (off : Z) (value : Z) (littleEndian : bool) (v : t) : option t :=
  store off (order littleEndian (le_bytes 4 (value mod 2 ^ 32))) v.

Definition setUint16 (off : Z) (value : Z) (littleEndian : bool) (v : t) : option t :=
  store off (order littleEndian (le_bytes 2 (value mod 2 ^ 16))) v.

(** [ToInt16] of a number: truncate, reduce modulo 2^16, read as signed. *)
Definition ToInt16 (x : Num.t) : Z :=
  let m := Num.truncate x mod 2 ^ 16 in
  if m <? 2 ^ 15 then m else m - 2 ^ 16.

Definition setInt16 (off : Z) (value : Num.t) (littleEndian : bool) (v : t) : option t :=
  store off (order littleEndian (le_bytes 2 (ToInt16 value mod 2 ^ 16))) v.

Definition getUint32 (off : Z) (littleEndian : bool) (v : t) : option Z :=
  bs <-? load off 4 v ; Some (le_value (order littleEndian bs)).

Definition getUint16 (off : Z) (littleEndian : bool) (v : t) : option Z :=
  bs <-? load off 2 v ; Some (le_value (order littleEndian bs)).

Definition getInt16 (off : Z) (littleEndian : bool) (v : t) : option Z :=
  bs <-? load off 2 v ;
  let u := le_value (order littleEndian bs) in
  Some (if u <? 2 ^ 15 then u else u - 2 ^ 16).

End DataView.

(** ** The WAV encoder *)

(** The part of a Web Audio [AudioBuffer] the encoder reads. *)
Record AudioBuffer : Type := mkAudioBuffer {
  sampleRate : Z;
  frames : nat;                       (* buffer.length *)
  channelData : list (list Num.t)     (* one Float32Array per channel *)
}.

Definition numberOfChannels (b : AudioBuffer) : nat := List.length (channelData b).

(** [buffer.getChannelData(channel)[i]]; reading past the end of a typed
    array gives [undefined], which [Math.min] converts to NaN. *)
Definition getChannelData (b : AudioBuffer) (channel i : nat) : Num.t :=
  nth i (nth channel (channelData b) []) Num.NaN.

(** The invariant of the data model: all channels hold [frames] samples. *)
Definition valid_clip (b : AudioBuffer) : Prop :=
  Forall (fun ch => List.length ch = frames b) (channelData b).

Definition writeWavHeader (view : DataView.t) (sampleRate numChannels dataLength : Z)
  : option DataView.t :=
  let fileLength := dataLength + 36 in
  v <-? DataView.setUint32 0 0x52494646 false view ;
  v <-? DataView.setUint32 4 fileLength true v ;
  v <-? DataView.setUint32 8 0x57415645 false v ;
  v <-? DataView.setUint32 12 0x666d7420 false v ;
  v <-? DataView.setUint32 16 16 true v ;
  v <-? DataView.setUint16 20 1 true v ;
  v <-? DataView.setUint16 22 numChannels true v ;
  v <-? DataView.setUint32 24 sampleRate true v ;
  v <-? DataView.setUint32 28 (sampleRate * numChannels * 2) true v ;
  v <-? DataView.setUint16 32 (numChannels * 2) true v ;
  v <-? DataView.setUint16 34 16 true v ;
  v <-? DataView.setUint32 36 0x64617461 false v ;
  DataView.setUint32 40 dataLength true v.

(** The thirteen header fields of section 4.1, as they can be read back
    from a view; the integer fields hold their value reduced modulo the
    width of the field. *)
Definition headerFields (v : DataView.t) (sampleRate numChannels dataLength : Z) : Prop :=
  DataView.load 0 4 v = Some [82; 73; 70; 70]
  /\ DataView.getUint32 4 true v = Some ((dataLength + 36) mod 2 ^ 32)
  /\ DataView.load 8 4 v = Some [87; 65; 86; 69]
  /\ DataView.load 12 4 v = Some [102; 109; 116; 32]
  /\ DataView.getUint32 16 true v = Some 16
  /\ DataView.getUint16 20 true v = Some 1
  /\ DataView.getUint16 22 true v = Some (numChannels mod 2 ^ 16)
  /\ DataView.getUint32 24 true v = Some (sampleRate mod 2 ^ 32)
  /\ DataView.getUint32 28 true v = Some ((sampleRate * numChannels * 2) mod 2 ^ 32)
  /\ DataView.getUint16 32 true v = Some ((numChannels * 2) mod 2 ^ 16)
  /\ DataView.getUint16 34 true v = Some 16
  /\ DataView.load 36 4 v = Some [100; 97; 116; 97]
  /\ DataView.getUint32 40 true v = Some (dataLength mod 2 ^ 32).

(** The number handed to [setInt16] for one sample (lines 56-62). *)
Definition scaleSample (sample : Num.t) : Num.t :=
  let clamped := Num.max (Num.of_Z (-1)) (Num.min (Num.of_Z 1) sample) in
  if Num.ltb0 clamped then Num.mulpos clamped 0x8000 else Num.mulpos clamped 0x7FFF.

(** The body of the inner loop: the state is [(offset, view)]. *)
Definition writeSample (b : AudioBuffer) (i channel : nat) (st : Z * DataView.t)
  : option (Z * DataView.t) :=
  let '(offset, view) := st in
  let sample := getChannelData b channel i in
  let int16 := scaleSample sample in
  v <-? DataView.setInt16 offset int16 true view ;
  Some (offset + 2, v).

(** The bytes of the Blob returned by [audioBufferToWav]. *)
Definition audioBufferToWav (buffer : AudioBuffer) : option (list Z) :=
  let numChannels := numberOfChannels buffer in
  let length := Z.of_nat (frames buffer) * Z.of_nat numChannels * 2 in
  let view := DataView.alloc (44 + length) in
  view <-? writeWavHeader view (sampleRate buffer) (Z.of_nat numChannels) length ;
  st <-? forLoop (frames buffer)
           (fun i => forLoop numChannels (fun channel => writeSample buffer i channel))
           (44, view) ;
  Some (snd st).

(** Where the sample of frame [i] and channel [channel] is stored:
    channel-fastest interleaving after the 44-byte header. *)
Definition sampleOffset (b : AudioBuffer) (i channel : nat) : Z :=
  44 + 2 * (Z.of_nat i * Z.of_nat (numberOfChannels b) + Z.of_nat channel).

(** [frameCount * channelCount * 2] *)
Definition dataLengthOf (b : AudioBuffer) : Z :=
  Z.of_nat (frames b) * Z.of_nat (numberOfChannels b) * 2.

(** The invariant of the two loops after [k] samples, for a view that was
    [v0] when the loops started: the offset, the length, the untouched
    header and the samples already in place. *)
Definition written (b : AudioBuffer) (v0 : DataView.t) (k : nat) (st : Z * DataView.t)
  : Prop :=
  fst st = 44 + 2 * Z.of_nat k
  /\ List.length (snd st) = List.length v0
  /\ (forall off n, 0 <= off -> off + Z.of_nat n <= 44 ->
                    DataView.load off n (snd st) = DataView.load off n v0)
  /\ (forall i c, (c < numberOfChannels b)%nat -> (i * numberOfChannels b + c < k)%nat ->
        DataView.getInt16 (sampleOffset b i c) true (snd st)
        = Some (DataView.ToInt16 (scaleSample (getChannelData b c i)))).

(** The claim's description of one stored sample: clamp to [-1, 1], scale
    negative values by 32768 and the others by 32767, truncate toward zero
    (the ceiling of a negative product, the floor of a non-negative one). *)
Definition pcm16 (q : Q) : Z :=
  let c := Qmax (-1 # 1) (Qmin 1 q) in
  if Qlt_le_dec c 0 then Qceiling (c * 32768) else Qfloor (c * 32767).

(** ** String.prototype helpers *)

Module Str.

Local Open Scope string_scope.
Local Open Scope char_scope.

(** [s.startsWith(p)]. *)
Fixpoint startsWith (p s : string) : bool :=
  match p, s with
  | EmptyString, _ => true
  | String _ _, EmptyString => false
  | String c p', String d s' => Ascii.eqb c d && startsWith p' s'
  end.

(** [hay.includes(needle)]. *)
Fixpoint includes (needle hay : string) : bool :=
  if startsWith needle hay then true
  else match hay with
       | EmptyString => false
       | String _ rest => includes needle rest
       end.

(** [s.endsWith(suffix)]. *)
Fixpoint endsWith (suffix s : string) : bool :=
  if String.eqb s suffix then true
  else match s with
       | EmptyString => false
       | String _ rest => endsWith suffix rest
       end.

(** Lower-casing of one Latin-1 code unit: A-Z and the accented capitals
    U+00C0-U+00DE (except the multiplication sign U+00D7) move up by 32. *)
Definition lower (c : ascii) : ascii :=
  let n := nat_of_ascii c in
  if ((65 <=? n) && (n <=? 90))%nat
     || ((192 <=? n) && (n <=? 222) && negb (n =? 215))%nat
  then ascii_of_nat (n + 32) else c.

Fixpoint toLowerCase (s : string) : string :=
  match s with
  | EmptyString => EmptyString
  | String c rest => String (lower c) (toLowerCase rest)
  end.

(** [s.split(sep)] for a one-character separator (never an empty array). *)
Fixpoint split (sep : ascii) (s : string) : list string :=
  match s with
  | EmptyString => [EmptyString]
  | String c rest =>
      if Ascii.eqb c sep then EmptyString :: split sep rest
      else match split sep rest with
           | [] => [String c EmptyString]
           | piece :: pieces => String c piece :: pieces
           end
  end.

(** [array.pop()] on a fresh array: its last element. *)
Definition pop (l : list string) : option string :=
  match rev l with
  | [] => None
  | x :: _ => Some x
  end.

(** Decimal digits of a non-negative integer. *)
Definition of_Z (z : Z) : string := NilZero.string_of_uint (N.to_uint (Z.to_N z)).

(** [(size / (1024 * 1024)).toFixed(1)] for a non-negative integer [size]
    below 2^53: the quotient is an exact binary64 value and [toFixed]
    picks the integer [n] with [n / 10] nearest to it, the larger one on a
    tie. *)
Definition toFixed1_MiB (size : Z) : string :=
  let n := (20 * size + 2 ^ 20) / 2 ^ 21 in
  (of_Z (n / 10) ++ "." ++ of_Z (n mod 10))%string.

End Str.

(** ** Regular expressions: the backtracking matcher of ECMAScript

    Only what [codeBlockRegex] needs: character atoms, sequencing, the
    greedy [?], the greedy and the lazy star over one character class, and one
    capturing group.  A matcher takes the rest of the input, the capture
    and a continuation, as in the language definition; alternatives are
    tried in priority order. *)

Module RegExp.

Inductive cls : Type :=
| Chr (c : ascii)      (* a literal character *)
| Space                (* \s *)
| AnyChar.             (* [\s\S] *)

Inductive re : Type :=
| Eps                  (* the empty pattern *)
| Atom (c : cls)
| Seq (a b : re)
| Opt (a : re)         (* a? , greedy *)
| Star (c : cls)       (* c* , greedy *)
| StarLazy (c : cls)   (* c*? *)
| Group (a : re).      (* ( a ), capture 1 *)

(** White space and line terminators among the Latin-1 code units. *)
Definition isSpace (c : ascii) : bool :=
  let n := nat_of_ascii c in
  (((9 <=? n) && (n <=? 13)) || (n =? 32) || (n =? 160))%nat.

Definition accepts (k : cls) (c : ascii) : bool :=
  match k with
  | Chr d => Ascii.eqb c d
  | Space => isSpace c
  | AnyChar => true
  end.

Section Matcher.
Context {R : Type}.

Fixpoint star (k : cls) (s : string) (cont : string -> option R) : option R :=
  match s with
  | String c rest =>
      if accepts k c then
        match star k rest cont with
        | Some r => Some r
        | None => cont s
        end
      else cont s
  | EmptyString => cont s
  end.

Fixpoint starLazy (k : cls) (s : string) (cont : string -> option R) : option R :=
  match cont s with
  | Some r => Some r
  | None =>
      match s with
      | String c rest => if accepts k c then starLazy k rest cont else None
      | EmptyString => None
      end
  end.

Fixpoint run (r : re) (s : string) (cap : option string)
         (cont : string -> option string -> option R) : option R :=
  match r with
  | Eps => cont s cap
  | Atom k =>
      match s with
      | String c rest => if accepts k c then cont rest cap else None
      | EmptyString => None
      end
  | Seq a b => run a s cap (fun s' cap' => run b s' cap' cont)
  | Opt a =>
      match run a s cap cont with
      | Some r => Some r
      | None => cont s cap
      end
  | Star k => star k s (fun s' => cont s' cap)
  | StarLazy k => starLazy k s (fun s' => cont s' cap)
  | Group a =>
      run a s cap
        (fun s' _ =>
           cont s' (Some (substring 0 (String.length s - String.length s') s)))
  end.
End Matcher.

(** The literal characters of [w] in sequence. *)
Fixpoint lit (w : string) : re :=
  match w with
  | EmptyString => Eps
  | String c rest => Seq (Atom (Chr c)) (lit rest)
  end.

(** [text.match(r)] for a pattern without the g flag: the leftmost start
    position at which the pattern matches; the result is capture 1. *)
Fixpoint exec (r : re) (s : string) : option (option string) :=
  match run r s None (fun _ cap => Some cap) with
  | Some cap => Some cap
  | None =>
      match s with
      | String _ rest => exec r rest
      | EmptyString => None
      end
  end.

End RegExp.

(** ** JSON.parse *)

Module JSON.

#[local] Set Warnings "-register-all".

Local Open Scope string_scope.
Local Open Scope char_scope.

(** A parsed value.  Numbers keep their lexeme and objects their members
    in source order: two texts with equal values here give equal
    JavaScript values. *)
Inductive value : Type :=
| JNull
| JBool (b : bool)
| JNumber (lexeme : string)
| JString (units : list N)
| JArray (items : list value)
| JObject (members : list (list N * value)).

Definition isWs (c : ascii) : bool :=
  let n := nat_of_ascii c in ((n =? 32) || (n =? 9) || (n =? 10) || (n =? 13))%nat.

Fixpoint ws (s : string) : string :=
  match s with
  | String c rest => if isWs c then ws rest else s
  | EmptyString => s
  end.

Definition isDigit (c : ascii) : bool :=
  let n := nat_of_ascii c in ((48 <=? n) && (n <=? 57))%nat.

Definition hexval (c : ascii) : option N :=
  let n := N_of_ascii c in
  if ((48 <=? n) && (n <=? 57))%N then Some (n - 48)%N
  else if ((65 <=? n) && (n <=? 70))%N then Some (n - 55)%N
  else if ((97 <=? n) && (n <=? 102))%N then Some (n - 87)%N
  else None.

(** The characters of a string literal after its opening quote. *)
Fixpoint chars (s : string) : option (list N * string) :=
  match s with
  | EmptyString => None
  | String "034" rest => Some ([], rest)
  | String "\" (String "u" (String a (String b (String c (String d rest))))) =>
      ha <-? hexval a ; hb <-? hexval b ; hc <-? hexval c ; hd <-? hexval d ;
      r <-? chars rest ;
      Some ((((ha * 16 + hb) * 16 + hc) * 16 + hd)%N :: fst r, snd r)
  | String "\" (String e rest) =>
      u <-? (match e with
             | "034" => Some 34 | "\" => Some 92 | "/" => Some 47
             | "b" => Some 8 | "f" => Some 12 | "n" => Some 10
             | "r" => Some 13 | "t" => Some 9
             | _ => None
             end)%N ;
      r <-? chars rest ;
      Some (u :: fst r, snd r)
  | String "\" EmptyString => None
  | String c rest =>
      if (N_of_ascii c <? 32)%N then None
      else r <-? chars rest ; Some (N_of_ascii c :: fst r, snd r)
  end.

(** The longest prefix of digits and what follows it. *)
Fixpoint digits (s : string) : string * string :=
  match s with
  | String c rest =>
      if isDigit c then let '(d, r) := digits rest in (String c d, r)
      else (EmptyString, s)
  | EmptyString => (EmptyString, s)
  end.

Definition nonempty (s : string) : bool :=
  match s with EmptyString => false | _ => true end.

(** A number token: an optional minus sign, an integer part without a
    leading zero, an optional fraction and an optional exponent. *)
Definition number (s : string) : option (string * string) :=
  let '(sign, s1) := match s with
                     | String "-" r => ("-"%string, r)
                     | _ => (EmptyString, s)
                     end in
  let '(int, s2) := digits s1 in
  let int_ok := match int with
                | EmptyString => false
                | String "0" more => negb (nonempty more)
                | _ => true
                end in
  if negb int_ok then None else
  frac <-? (match s2 with
            | String "." r =>
                let '(d, r') := digits r in
                if nonempty d then Some (String "." d, r') else None
            | _ => Some (EmptyString, s2)
            end) ;
  let '(fr, s3) := frac in
  ex <-? (match s3 with
          | String e r =>
              if Ascii.eqb e "e" || Ascii.eqb e "E" then
                let '(sg, r1) := match r with
                                 | String "+" r' => ("+"%string, r')
                                 | String "-" r' => ("-"%string, r')
                                 | _ => (EmptyString, r)
                                 end in
                let '(d, r2) := digits r1 in
                if nonempty d then Some ((String e sg ++ d)%string, r2) else None
              else Some (EmptyString, s3)
          | EmptyString => Some (EmptyString, s3)
          end) ;
  let '(e, s4) := ex in
  Some ((sign ++ int ++ fr ++ e)%string, s4).

Definition literal (w : string) (v : value) (s : string) : option (value * string) :=
  if Str.startsWith w s
  then Some (v, substring (String.length w) (String.length s - String.length w) s)
  else None.

Fixpoint element (fuel : nat) (s : string) : option (value * string) :=
  match fuel with
  | O => None
  | S fuel' =>
      match ws s with
      | String "{" r =>
          match ws r with
          | String "}" r' => Some (JObject [], r')
          | r1 => members fuel' r1 []
          end
      | String "[" r =>
          match ws r with
          | String "]" r' => Some (JArray [], r')
          | r1 => elements fuel' r1 []
          end
      | String "034" r => x <-? chars r ; Some (JString (fst x), snd x)
      | String "t" _ as s1 => literal "true" (JBool true) s1
      | String "f" _ as s1 => literal "false" (JBool false) s1
      | String "n" _ as s1 => literal "null" JNull s1
      | s1 => x <-? number s1 ; Some (JNumber (fst x), snd x)
      end
  end
with elements (fuel : nat) (s : string) (acc : list value) : option (value * string) :=
  match fuel with
  | O => None
  | S fuel' =>
      x <-? element fuel' s ;
      match ws (snd x) with
      | String "," r => elements fuel' r (fst x :: acc)
      | String "]" r => Some (JArray (rev (fst x :: acc)), r)
      | _ => None
      end
  end
with members (fuel : nat) (s : string) (acc : list (list N * value))
     : option (value * string) :=
  match fuel with
  | O => None
  | S fuel' =>
      match ws s with
      | String "034" r =>
          k <-? chars r ;
          match ws (snd k) with
          | String ":" r1 =>
              x <-? element fuel' r1 ;
              match ws (snd x) with
              | String "," r2 => members fuel' r2 ((fst k, fst x) :: acc)
              | String "}" r2 => Some (JObject (rev ((fst k, fst x) :: acc)), r2)
              | _ => None
              end
          | _ => None
          end
      | _ => None
      end
  end.

(** [JSON.parse(text)]; [None] is the SyntaxError.  Between two nested
    calls at least one character is consumed at every second call, so
    twice the length of the text is enough fuel. *)
Definition parse (text : string) : option value :=
  match element (2 * String.length text + 2) text with
  | Some (v, rest) =>
      match ws rest with
      | EmptyString => Some v
      | _ => None
      end
  | None => None
  end.

End JSON.

(** ** Response parsing *)

Local Open Scope string_scope.
Local Open Scope Z_scope.

(** The double quote, the line feed and a quoted word, to spell out JSON
    texts. *)
Definition dq : string := String "034" EmptyString.
Definition nl : string := String "010" EmptyString.
Definition quoted (s : string) : string := dq ++ s ++ dq.

(** [/```(?:json)?\s*([\s\S]*?)\s*```/] *)
Definition codeBlockRegex : RegExp.re :=
  RegExp.Seq (RegExp.lit "```")
    (RegExp.Seq (RegExp.Opt (RegExp.lit "json"))
       (RegExp.Seq (RegExp.Star RegExp.Space)
          (RegExp.Seq (RegExp.Group (RegExp.StarLazy RegExp.AnyChar))
             (RegExp.Seq (RegExp.Star RegExp.Space) (RegExp.lit "```"))))).

Definition cleanText (text : string) : option string :=
  match RegExp.exec codeBlockRegex text with
  | Some cap => cap            (* match[1] *)
  | None => Some text
  end.

(** [JSON.parse(undefined)] is a SyntaxError as well. *)
Definition cleanAndParseJSON (text : string) : option JSON.value :=
  cleanText <-? cleanText text ; JSON.parse cleanText.

(** Concrete clips: a stereo clip of three frames, and three valid clips
    past the width of a header field: a mono clip at 16 kHz of 2^31 frames
    of silence (about 37 hours), whose sample data fills 2^32 bytes; an
    empty clip of 2^16 channels; an empty mono clip with a sample rate of
    2^32 + 16000. *)
Definition stereoClip : AudioBuffer :=
  mkAudioBuffer 16000 3
    [[Num.Fin 1; Num.Fin (-1); Num.Fin (1 # 2)];
     [Num.Fin (-3 # 4); Num.Fin 5; Num.Fin 0]].

Definition longClip : AudioBuffer :=
  mkAudioBuffer 16000 (Z.to_nat (2 ^ 31)) [repeat (Num.Fin 0) (Z.to_nat (2 ^ 31))].

Definition wideClip : AudioBuffer :=
  mkAudioBuffer 16000 0 (repeat [] (Z.to_nat (2 ^ 16))).

Definition fastClip : AudioBuffer := mkAudioBuffer (2 ^ 32 + 16000) 0 [[]].

(** *** The words of the specification about strings *)

(** [s] contains [sub]. *)
Definition contains (sub s : string) : Prop := exists a b, s = a ++ sub ++ b.

(** [s] ends in [suffix]. *)
Definition endsIn (suffix s : string) : Prop := exists a, s = a ++ suffix.

(** The spellings of the two extensions, whatever the case of the letters. *)
Definition mp4Endings : list string := [".mp4"; ".mP4"; ".Mp4"; ".MP4"].
Definition m4aEndings : list string := [".m4a"; ".m4A"; ".M4a"; ".M4A"].

(** [s] ends in one of the [endings]. *)
Definition endsInOneOf (endings : list string) (s : string) : Prop :=
  exists e, In e endings /\ endsIn e s.

(** *** The shape of a fenced response *)

(** Every character of [s] is white space for the pattern's [\s]. *)
Fixpoint allSpace (s : string) : bool :=
  match s with
  | EmptyString => true
  | String c rest => RegExp.isSpace c && allSpace rest
  end.

(** [s] without its leading white space. *)
Fixpoint dropSpaces (s : string) : string :=
  match s with
  | String c rest => if RegExp.isSpace c then dropSpaces rest else s
  | EmptyString => s
  end.

(** The text of an object: whatever stands between its two braces. *)
Definition objectText (body : string) : string := "{" ++ body ++ "}".

(** A response made of some prose, an opening fence with its optional tag,
    the object surrounded by white space, the closing fence and more
    prose. *)
Definition fenced (pre tag ws1 body ws2 post : string) : string :=
  pre ++ "```" ++ tag ++ ws1 ++ objectText body ++ ws2 ++ "```" ++ post.

(** An object whose only member is a string of three backticks. *)
Definition backtickObject : string :=
  objectText (quoted "a" ++ ":" ++ quoted "```").

(** ** Blobs, files and errors *)

(** What a [Blob] holds: a file of the user (only the platform reads it)
    or the bytes of an [ArrayBuffer] the program built. *)
Inductive BlobParts : Type :=
| UserFile (handle : nat)
| ArrayBufferPart (bytes : list Z).

Record Blob : Type := mkBlob {
  size : Z;
  type : string;
  parts : BlobParts
}.

(** A [File] is a [Blob] with a name. *)
Record File : Type := mkFile {
  name : string;
  blob : Blob
}.

(** The two properties of a thrown value that the catch clause inspects. *)
Record JsError : Type := mkJsError {
  message : option string;
  status : option Z
}.

(** [new Error(msg)] *)
Definition Error (msg : string) : JsError :=
  {| message := Some msg; status := None |}.

Inductive Result (A : Type) : Type :=
| Ok (a : A)
| Throw (e : JsError).
Arguments Ok {A} a.
Arguments Throw {A} e.

(** ** The platform and the remote service *)

Record Request : Type := mkRequest {
  req_mimeType : string;
  req_data : option string;     (* [undefined] when the data URL has no comma *)
}.

Record Response : Type := mkResponse {
  text : option string          (* [response.text]: a string or [undefined] *)
}.

Record Platform : Type := mkPlatform {
  (** [process.env.API_KEY] *)
  API_KEY : option string;
  (** [file.arrayBuffer()] followed by [audioContext.decodeAudioData] *)
  decodeAudioData : File -> Result AudioBuffer;
  (** rendering of the source through an [OfflineAudioContext] with the
      given channel count and sample rate *)
  startRendering : AudioBuffer -> Z -> Z -> Result AudioBuffer;
  (** [FileReader.readAsDataURL]: the data URL, or the error event *)
  readAsDataURL : Blob -> Result string;
  (** the outcome of the n-th call of [ai.models.generateContent] *)
  generateContent : nat -> Request -> Result Response
}.

(** What an orchestration call does to the outside, in order. *)
Inductive Event : Type :=
| EvConvert (f : File)
| EvRead (b : Blob)
| EvRequest (r : Request)
| EvWait (ms : Z).

Record World : Type := mkWorld {
  requests : nat;          (* remote calls issued so far *)
  log : list Event
}.

Definition initial : World := {| requests := 0; log := [] |}.

(** ** The monad of asynchronous code: state, exceptions and fuel *)

Definition M (A : Type) : Type := World -> option (World * Result A).

Definition ret {A} (a : A) : M A := fun w => Some (w, Ok a).

Definition throw {A} (e : JsError) : M A := fun w => Some (w, Throw e).

Definition bind {A B} (m : M A) (f : A -> M B) : M B :=
  fun w =>
    match m w with
    | Some (w', Ok a) => f a w'
    | Some (w', Throw e) => Some (w', Throw e)
    | None => None
    end.

(** [try { m } catch (e) { h e }] *)
Definition tryCatch {A} (m : M A) (h : JsError -> M A) : M A :=
  fun w =>
    match m w with
    | Some (w', Throw e) => h e w'
    | other => other
    end.

Definition emit (ev : Event) : M unit :=
  fun w => Some ({| requests := requests w; log := (log w ++ [ev])%list |}, Ok tt).

(** [await p] for a platform promise that has settled with [r]. *)
Definition await {A} (r : Result A) : M A := fun w => Some (w, r).

(** The model's fuel ran out. *)
Definition stuck {A} : M A := fun _ => None.

Notation "x <- m ;; k" := (bind m (fun x => k))
  (at level 61, m at next level, right associativity).
Notation "m ;; k" := (bind m (fun _ => k))
  (at level 61, right associativity).

(** A helper of the pure code that throws ([None]) raises [e]. *)
Definition orThrow {A} (o : option A) (e : JsError) : M A :=
  match o with
  | Some a => ret a
  | None => throw e
  end.

(** ** The service functions *)

(** The RangeError of an out-of-range [DataView] write. *)
Definition RangeError : JsError := Error "Offset is outside the bounds of the DataView".

Definition convertMp4ToWav (P : Platform) (file : File) : M Blob :=
  audioBuffer <- await (decodeAudioData P file) ;;
  let targetSampleRate := 16000 in
  let targetChannels := 1 in
  resampledBuffer <- await (startRendering P audioBuffer targetChannels targetSampleRate) ;;
  bytes <- orThrow (audioBufferToWav resampledBuffer) RangeError ;;
  ret {| size := Z.of_nat (List.length bytes);
         type := "audio/wav";
         parts := ArrayBufferPart bytes |}.

Definition fileToGenerativePart (P : Platform) (file : Blob) : M (option string) :=
  emit (EvRead file) ;;
  base64String <- await (readAsDataURL P file) ;;
  ret (nth_error (Str.split "," base64String) 1).

Definition getMimeType (file : Blob) (originalName : string) : string :=
  if String.eqb (type file) "audio/wav" then "audio/wav"
  else
    let fallback := if String.eqb (type file) EmptyString then "audio/mp3" else type file in
    if String.eqb originalName EmptyString then fallback
    else
      match Str.pop (Str.split "." originalName) with
      | Some last =>
          let ext := Str.toLowerCase last in
          if String.eqb ext "mp3" then "audio/mpeg"
          else if String.eqb ext "wav" then "audio/wav"
          else if String.eqb ext "m4a" then "audio/mp4"
          else fallback
      | None => fallback
      end.

Definition maxRetries : Z := 3.

(** [error.message?.includes(s)]: false when there is no message. *)
Definition messageIncludes (s : string) (error : JsError) : bool :=
  match message error with
  | Some m => Str.includes s m
  | None => false
  end.

Definition statusIs (n : Z) (error : JsError) : bool :=
  match status error with
  | Some k => k =? n
  | None => false
  end.

Definition isRetryable (error : JsError) : bool :=
  messageIncludes "500" error || messageIncludes "503" error
  || statusIs 500 error || statusIs 503 error.

(** The prompt is a constant of the source; its text plays no part here. *)
Definition sendRequest (P : Platform) (mimeType : string) (base64Data : option string)
  : M Response :=
  let request := {| req_mimeType := mimeType; req_data := base64Data |} in
  fun w =>
    Some ({| requests := S (requests w); log := (log w ++ [EvRequest request])%list |},
          generateContent P (requests w) request).

(** The body of the [try] block of one iteration (lines 193-217). *)
Definition attemptOnce (P : Platform) (mimeType : string) (base64Data : option string)
  : M JSON.value :=
  response <- sendRequest P mimeType base64Data ;;
  match text response with
  | Some t =>
      if String.eqb t EmptyString then throw (Error "Empty response from Gemini")
      else orThrow (cleanAndParseJSON t) (Error "Failed to parse AI response.")
  | None => throw (Error "Empty response from Gemini")
  end.

(** The [while] loop (lines 191-234) followed by line 236.  A [return]
    inside the [try] block ends the call; the catch clause either waits and
    continues with the next attempt, or throws. *)
Fixpoint retryLoop (fuel : nat) (P : Platform) (mimeType : string)
         (base64Data : option string) (attempt : Z) : M JSON.value :=
  match fuel with
  | O => stuck
  | S fuel' =>
      if attempt <? maxRetries then
        tryCatch (attemptOnce P mimeType base64Data)
          (fun error =>
             if isRetryable error && (attempt <? maxRetries - 1) then
               let attempt := attempt + 1 in
               emit (EvWait (2000 * 2 ^ attempt)) ;;
               retryLoop fuel' P mimeType base64Data attempt
             else if messageIncludes "400" error then
               throw (Error "Invalid request. The file format might not be supported.")
             else throw error)
      else throw (Error "Analysis failed after multiple attempts.")
  end.

Definition needsConversion (input : File) : bool :=
  Str.includes "mp4" (type (blob input))
  || Str.endsWith ".mp4" (Str.toLowerCase (name input))
  || Str.endsWith ".m4a" (Str.toLowerCase (name input)).

(** Lines 140-159: the blob and the MIME type the rest of the call uses. *)
Definition conversionStage (P : Platform) (input : File) : M (Blob * string) :=
  if needsConversion input then
    tryCatch
      (emit (EvConvert input) ;;
       finalBlob <- convertMp4ToWav P input ;;
       ret (finalBlob, "audio/wav"))
      (fun e =>
         throw (Error "Failed to convert audio file. The file might be corrupted or incompatible."))
  else ret (blob input, type (blob input)).

Definition sizeLimit : Z := 10 * 1024 * 1024.

Definition sizeLimitMessage (sz : Z) : string :=
  "Processed file size (" ++ Str.toFixed1_MiB sz
    ++ "MB) exceeds the 10MB limit. Please upload a shorter recording.".

Definition truthy (s : option string) : bool :=
  match s with
  | Some t => negb (String.eqb t EmptyString)
  | None => false
  end.

(** Lines 161-170: the size check, the base64 payload and the MIME type of
    the request. *)
Definition encodingStage (P : Platform) (input : File) (converted : Blob * string)
  : M (string * option string) :=
  let '(finalBlob, finalMimeType) := converted in
  if size finalBlob >? sizeLimit then
    throw (Error (sizeLimitMessage (size finalBlob)))
  else
    base64Data <- fileToGenerativePart P finalBlob ;;
    let mimeType := if String.eqb finalMimeType "audio/wav" then "audio/wav"
                    else getMimeType finalBlob (name input) in
    ret (mimeType, base64Data).

(** Everything before the request loop (lines 136-170). *)
Definition prepare (P : Platform) (input : File) : M (string * option string) :=
  if negb (truthy (API_KEY P)) then
    throw (Error "API Key is missing. Please check your environment configuration.")
  else
    converted <- conversionStage P input ;;
    encodingStage P input converted.

Definition analyzeAudio (P : Platform) (input : File) : M JSON.value :=
  payload <- prepare P input ;;
  let '(mimeType, base64Data) := payload in
  let attempt := 0 in
  retryLoop (Z.to_nat maxRetries + 1) P mimeType base64Data attempt.

(** *** The error kinds of the specification, by their messages *)

Definition ExhaustedRetriesError : JsError :=
  Error "Analysis failed after multiple attempts.".
Definition InvalidRequestError : JsError :=
  Error "Invalid request. The file format might not be supported.".
Definition EmptyResponseError : JsError := Error "Empty response from Gemini".
Definition ParseError : JsError := Error "Failed to parse AI response.".
Definition SizeLimitError (measured : Z) : JsError := Error (sizeLimitMessage measured).
Definition ConversionError : JsError :=
  Error "Failed to convert audio file. The file might be corrupted or incompatible.".

(** *** Reading a run *)

Fixpoint requestCount (l : list Event) : nat :=
  match l with
  | [] => O
  | EvRequest _ :: l' => S (requestCount l')
  | _ :: l' => requestCount l'
  end.

Fixpoint waits (l : list Event) : list Z :=
  match l with
  | [] => []
  | EvWait ms :: l' => ms :: waits l'
  | _ :: l' => waits l'
  end.

Fixpoint reads (l : list Event) : list Blob :=
  match l with
  | [] => []
  | EvRead b :: l' => b :: reads l'
  | _ :: l' => reads l'
  end.

Fixpoint conversions (l : list Event) : list File :=
  match l with
  | [] => []
  | EvConvert f :: l' => f :: conversions l'
  | _ :: l' => conversions l'
  end.

(** The world after one more remote call. *)
Definition afterRequest (w : World) (request : Request) : World :=
  {| requests := S (requests w); log := (log w ++ [EvRequest request])%list |}.

(** What the [try] block of one iteration yields once the remote call has
    settled with [r]. *)
Definition attemptOutcome (r : Result Response) : Result JSON.value :=
  match r with
  | Throw e => Throw e
  | Ok response =>
      if truthy (text response) then
        match cleanAndParseJSON (match text response with Some t => t | None => EmptyString end) with
        | Some v => Ok v
        | None => Throw ParseError
        end
      else Throw EmptyResponseError
  end.

(** What the catch clause throws for an error it does not retry. *)
Definition rethrown (error : JsError) : JsError :=
  if messageIncludes "400" error then InvalidRequestError else error.

(** The events of [n] failed attempts that are retried, the first of them
    being attempt number [attempt] (counted from 0): a request, then the
    backoff wait. *)
Fixpoint retriesFrom (request : Request) (attempt : Z) (n : nat) : list Event :=
  match n with
  | O => []
  | S n' =>
      EvRequest request :: EvWait (2000 * 2 ^ (attempt + 1))
        :: retriesFrom request (attempt + 1) n'
  end.

Definition afterRetries (w : World) (request : Request) (attempt : Z) (n : nat) : World :=
  {| requests := requests w + n; log := (log w ++ retriesFrom request attempt n)%list |}.

(** A remote service that answers the n-th call with the n-th element of
    [script] (and with an empty response past its end), on a platform with
    a key and a reader that encodes every blob as the same data URL. *)
Definition scripted (script : list (Result Response)) : Platform :=
  {| API_KEY := Some "key";
     decodeAudioData := fun _ => Ok (mkAudioBuffer 44100 0 [[]; []]);
     startRendering := fun _ _ rate => Ok (mkAudioBuffer rate 0 [[]]);
     readAsDataURL := fun _ => Ok "data:audio/mpeg;base64,AAAA";
     generateContent := fun n _ => nth n script (Ok (mkResponse None)) |}.

(** *** Concrete inputs *)

Definition mp3File : File := mkFile "call.mp3" (mkBlob 1000 "audio/mpeg" (UserFile 0)).

(** A WAV file of 10 MiB + 1 byte. *)
Definition bigWavFile : File :=
  mkFile "call.wav" (mkBlob 10485761 "audio/wav" (UserFile 1)).

(** A WAV file of exactly 10 MiB. *)
Definition tenMiBWavFile : File :=
  mkFile "call.wav" (mkBlob 10485760 "audio/wav" (UserFile 2)).

Definition serviceUnavailable : JsError := mkJsError (Some "Service Unavailable") (Some 503).

Definition badRequest : JsError := mkJsError (Some "Bad Request") (Some 400).

(** The response text of the specification's example, without a fence. *)
Definition sampleObject : string :=
  "{" ++ quoted "transcript" ++ ":" ++ quoted "hi" ++ ","
      ++ quoted "summary" ++ ":" ++ quoted "s" ++ ","
      ++ quoted "sentiment" ++ ":" ++ quoted "Neutral" ++ ","
      ++ quoted "actionItems" ++ ":[],"
      ++ quoted "keyInsights" ++ ":[]}".

(** ** More of the service, the uploader and the application shell *)

(** The blob built from the bytes of the encoder (line 68). *)
Definition wavBlob (bytes : list Z) : Blob :=
  {| size := Z.of_nat (List.length bytes);
     type := "audio/wav";
     parts := ArrayBufferPart bytes |}.

(** The extension table of [getMimeType] (lines 121-123). *)
Definition extensionTable : list (string * string) :=
  [("mp3", "audio/mpeg"); ("wav", "audio/wav"); ("m4a", "audio/mp4")].

Fixpoint lookupExtension (ext : string) (table : list (string * string)) : option string :=
  match table with
  | [] => None
  | (e, m) :: rest => if String.eqb ext e then Some m else lookupExtension ext rest
  end.

(** More concrete inputs: a file named in capitals, a platform whose
    decoder rejects every file, and one whose reader fails. *)
Definition m4aFile : File := mkFile "CALL.M4A" (mkBlob 1000 "audio/x-m4a" (UserFile 3)).

Definition brokenDecoder : Platform :=
  {| API_KEY := Some "key";
     decodeAudioData := fun _ => Throw (Error "Unable to decode audio data");
     startRendering := fun _ _ rate => Ok (mkAudioBuffer rate 0 [[]]);
     readAsDataURL := fun _ => Ok "data:audio/mpeg;base64,AAAA";
     generateContent := fun _ _ => Ok (mkResponse None) |}.

Definition brokenReader : Platform :=
  {| API_KEY := Some "key";
     decodeAudioData := fun _ => Ok (mkAudioBuffer 44100 0 [[]; []]);
     startRendering := fun _ _ rate => Ok (mkAudioBuffer rate 0 [[]]);
     readAsDataURL := fun _ => Throw (mkJsError None None);
     generateContent := fun _ _ => Ok (mkResponse None) |}.

Definition noKey : Platform :=
  {| API_KEY := None;
     decodeAudioData := fun _ => Ok (mkAudioBuffer 44100 0 [[]; []]);
     startRendering := fun _ _ rate => Ok (mkAudioBuffer rate 0 [[]]);
     readAsDataURL := fun _ => Ok "data:audio/mpeg;base64,AAAA";
     generateContent := fun _ _ => Ok (mkResponse None) |}.

(** *** The record types *)

Module Types.

Inductive Status : Type := processing | completed | failed.

(** [analysis] is the value [analyzeAudio] returned, as parsed: the cast to
    [CallAnalysis] checks nothing.  [None] is an absent property. *)
Record CallRecord : Type := mkCallRecord {
  id : string;
  fileName : string;
  timestamp : Z;
  duration : option string;
  status : Status;
  analysis : option JSON.value;
  error : option string
}.

Inductive ViewState : Type := dashboard | upload | details.

End Types.

(** [n.toString()] for an integer. *)
Definition numberToString (n : Z) : string :=
  if n <? 0 then "-" ++ Str.of_Z (- n) else Str.of_Z n.

(** The digits [toFixed(1)] prints for [n] tenths. *)
Definition tenths (n : Z) : string := Str.of_Z (n / 10) ++ "." ++ Str.of_Z (n mod 10).

(** *** The uploader component *)

Module Uploader.

Record State : Type := mkState {
  isDragging : bool;
  file : option File;
  isProcessing : bool;
  error : option string
}.

Definition initialState : State :=
  {| isDragging := false; file := None; isProcessing := false; error := None |}.

Definition handleDragOver (st : State) : State :=
  {| isDragging := true; file := file st;
     isProcessing := isProcessing st; error := error st |}.

Definition handleDragLeave (st : State) : State :=
  {| isDragging := false; file := file st;
     isProcessing := isProcessing st; error := error st |}.

Definition isValidType (f : File) : bool :=
  Str.startsWith "audio/" (type (blob f))
  || Str.startsWith "video/mp4" (type (blob f))
  || Str.endsWith ".mp4" (Str.toLowerCase (name f))
  || Str.endsWith ".m4a" (Str.toLowerCase (name f)).

Definition validateAndSetFile (f : File) (st : State) : State :=
  if size (blob f) >? 100 * 1024 * 1024 then
    {| isDragging := isDragging st; file := None; isProcessing := isProcessing st;
       error := Some "File is too large. Please upload a file smaller than 100MB." |}
  else if isValidType f then
    {| isDragging := isDragging st; file := Some f; isProcessing := isProcessing st;
       error := None |}
  else
    {| isDragging := isDragging st; file := file st; isProcessing := isProcessing st;
       error := Some "Please upload a valid audio file (MP3, WAV, M4A, MP4)." |}.

(** [files] is the FileList of the event; only its first file counts. *)
Definition handleDrop (files : list File) (st : State) : State :=
  let st := handleDragLeave st in
  match files with
  | f :: _ => validateAndSetFile f st
  | [] => st
  end.

Definition handleFileChange (files : list File) (st : State) : State :=
  match files with
  | f :: _ => validateAndSetFile f st
  | [] => st
  end.

(** The message shown for a caught error (lines 88-94). *)
Definition errorMessage (err : JsError) : string :=
  match message err with
  | Some m =>
      if String.eqb m EmptyString then "Analysis failed. Please try again."
      else if Str.includes "API Key" m then "API Key is missing or invalid."
      else if Str.includes "File size" m then m
      else if Str.includes "500" m || Str.includes "Internal" m
           then "Server error. Please try a shorter audio clip."
      else "Analysis failed. Please try again."
  | None => "Analysis failed. Please try again."
  end.

(** [handleProcess]: the new state, the record handed to
    [onAnalysisComplete] if any, and what the call did to the outside.
    [now k] is the value of the k-th [Date.now()]. *)
Definition handleProcess (P : Platform) (now : nat -> Z) (st : State)
  : option (State * option Types.CallRecord * list Event) :=
  match file st with
  | None => Some (st, None, [])
  | Some f =>
      let newRecord :=
        {| Types.id := numberToString (now 0%nat);
           Types.fileName := name f;
           Types.timestamp := now 1%nat;
           Types.duration := None;
           Types.status := Types.processing;
           Types.analysis := None;
           Types.error := None |} in
      match analyzeAudio P f initial with
      | Some (w, Ok analysis) =>
          let completedRecord :=
            {| Types.id := Types.id newRecord;
               Types.fileName := Types.fileName newRecord;
               Types.timestamp := Types.timestamp newRecord;
               Types.duration := Types.duration newRecord;
               Types.status := Types.completed;
               Types.analysis := Some analysis;
               Types.error := Types.error newRecord |} in
          Some ({| isDragging := isDragging st; file := file st;
                   isProcessing := true; error := None |},
                Some completedRecord, log w)
      | Some (w, Throw err) =>
          Some ({| isDragging := isDragging st; file := file st;
                   isProcessing := false; error := Some (errorMessage err) |},
                None, log w)
      | None => None
      end
  end.

(** What the user does to the drop zone and the file input. *)
Inductive Gesture : Type :=
| DragOver
| DragLeave
| Drop (files : list File)
| Choose (files : list File).

Definition handle (g : Gesture) (st : State) : State :=
  match g with
  | DragOver => handleDragOver st
  | DragLeave => handleDragLeave st
  | Drop files => handleDrop files st
  | Choose files => handleFileChange files st
  end.

(** The states of a mounted uploader: it starts in [initialState], and
    moves by gestures and by runs of [handleProcess]. *)
Inductive Reachable : State -> Prop :=
| reach_initial : Reachable initialState
| reach_gesture st g : Reachable st -> Reachable (handle g st)
| reach_process st P now st' out events :
    Reachable st ->
    handleProcess P now st = Some (st', out, events) ->
    Reachable st'.

End Uploader.

(** The files the uploader is meant to let through: at most 100 MiB, and
    a declared type that starts with audio/ or video/mp4, or a name that
    ends in .mp4 or .m4a in any letter case. *)
Definition acceptable (f : File) : Prop :=
  size (blob f) <= 100 * 1024 * 1024
  /\ ((exists rest, type (blob f) = "audio/" ++ rest)
      \/ (exists rest, type (blob f) = "video/mp4" ++ rest)
      \/ endsInOneOf mp4Endings (name f)
      \/ endsInOneOf m4aEndings (name f)).

(** *** The application shell *)

Module App.

Record State : Type := mkState {
  view : Types.ViewState;
  selectedCall : option Types.CallRecord;
  calls : list Types.CallRecord
}.

Definition initialState : State :=
  {| view := Types.dashboard; selectedCall := None; calls := [] |}.

Definition setView (v : Types.ViewState) (st : State) : State :=
  {| view := v; selectedCall := selectedCall st; calls := calls st |}.

Definition handleAnalysisComplete (newCall : Types.CallRecord) (st : State) : State :=
  {| view := Types.details; selectedCall := Some newCall; calls := newCall :: calls st |}.

(** The [onViewDetails] callback handed to the dashboard. *)
Definition onViewDetails (call : Types.CallRecord) (st : State) : State :=
  {| view := Types.details; selectedCall := Some call; calls := calls st |}.

(** The [onBack] callback handed to the detail page. *)
Definition onBack (st : State) : State :=
  {| view := Types.dashboard; selectedCall := None; calls := calls st |}.

(** What [renderContent] returns: the component it asks for, with the data
    it hands to it.  What the component then draws is not modelled. *)
Inductive Element : Type :=
| DashboardElement (calls : list Types.CallRecord)
| CallUploaderElement
| CallDetailElement (call : Types.CallRecord).

Definition renderContent (st : State) : Element :=
  match view st with
  | Types.dashboard => DashboardElement (calls st)
  | Types.upload => CallUploaderElement
  | Types.details =>
      match selectedCall st with
      | Some call => CallDetailElement call
      | None => DashboardElement (calls st)
      end
  end.

(** What can happen to the shell. *)
Inductive Action : Type :=
| ClickDashboard
| ClickNewAnalysis
| ClickViewReport (call : Types.CallRecord)
| ClickBack
| ClickCancel
| AnalysisDone (record : Types.CallRecord).

(** One step.  The relation allows every call of a handler that the page
    can make, and more: the navigation buttons of the side bar and of the
    mobile header call [setView] in every state; [onViewDetails] is handed
    to the dashboard only, which calls it on a completed row of its list
    (Dashboard.tsx, lines 178-185); [onBack] is handed to the detail page
    only and [onCancel] to the uploader only; an analysis completes,
    whatever the view by then, with a record that a run of a mounted
    uploader handed over.  A component that draws nothing, or fails while
    drawing, offers fewer calls than these, never others: what holds in
    every state reached here holds in every state of the page. *)
Inductive Step : State -> Action -> State -> Prop :=
| step_dashboard st :
    Step st ClickDashboard (setView Types.dashboard st)
| step_new st :
    Step st ClickNewAnalysis (setView Types.upload st)
| step_view st cs call :
    renderContent st = DashboardElement cs ->
    In call cs ->
    Types.status call = Types.completed ->
    Step st (ClickViewReport call) (onViewDetails call st)
| step_back st call :
    renderContent st = CallDetailElement call ->
    Step st ClickBack (onBack st)
| step_cancel st :
    renderContent st = CallUploaderElement ->
    Step st ClickCancel (setView Types.dashboard st)
| step_done st P now ust ust' record events :
    Uploader.Reachable ust ->
    Uploader.handleProcess P now ust = Some (ust', Some record, events) ->
    Step st (AnalysisDone record) (handleAnalysisComplete record st).

(** The states the shell reaches through a sequence of actions. *)
Inductive Run : State -> list Action -> State -> Prop :=
| run_nil st : Run st [] st
| run_cons st a st' actions st'' :
    Step st a st' -> Run st' actions st'' -> Run st (a :: actions) st''.

(** The records of the completed analyses of a sequence of actions. *)
Fixpoint delivered (actions : list Action) : list Types.CallRecord :=
  match actions with
  | [] => []
  | AnalysisDone record :: rest => record :: delivered rest
  | _ :: rest => delivered rest
  end.

End App.

(** *** More concrete inputs *)

(** A text file, of an acceptable size. *)
Definition textFile : File := mkFile "notes.txt" (mkBlob 12 "text/plain" (UserFile 5)).

Definition internalError : JsError :=
  mkJsError (Some "500 Internal Server Error") (Some 500).

(** A clock that reads 1700000000000, then one millisecond more at each
    further reading. *)
Definition clock (k : nat) : Z := 1700000000000 + Z.of_nat k.

(** The uploader once [f] has been dropped on it. *)
Definition holding (f : File) : Uploader.State :=
  Uploader.handle (Uploader.Drop [f]) Uploader.initialState.

(** The size messages of all the sizes that print as [lo] to [lo + count - 1]
    tenths of a MiB are shown as the general failure message. *)
Definition shownAsGeneralFailure (lo count : nat) : bool :=
  forallb
    (fun n =>
       String.eqb
         (Uploader.errorMessage
            (Error ("Processed file size (" ++ tenths (Z.of_nat n)
                      ++ "MB) exceeds the 10MB limit. Please upload a shorter recording.")))
         "Analysis failed. Please try again.")
    (seq lo count).

(** What every record of the shell's list turns out to be: completed, with
    the value of its analysis and no error or duration, and named after a
    file the uploader lets through. *)
Definition completedRecord (c : Types.CallRecord) : Prop :=
  Types.status c = Types.completed
  /\ (exists v, Types.analysis c = Some v)
  /\ Types.error c = None
  /\ Types.duration c = None
  /\ exists f, acceptable f /\ Types.fileName c = name f.

(** The record of [mp3File], analysed at the readings of [clock] with
    [sampleObject] as the answer of the service. *)
Definition sampleRecord : Types.CallRecord :=
  {| Types.id := "1700000000000";
     Types.fileName := "call.mp3";
     Types.timestamp := 1700000000001;
     Types.duration := None;
     Types.status := Types.completed;
     Types.analysis := cleanAndParseJSON sampleObject;
     Types.error := None |}.

(** A session: open the uploader, complete an analysis, go back. *)
Definition sampleSession : list App.Action :=
  [App.ClickNewAnalysis; App.AnalysisDone sampleRecord; App.ClickBack].

Definition afterSampleSession : App.State :=
  {| App.view := Types.dashboard; App.selectedCall := None; App.calls := [sampleRecord] |}.

(** * Properties *)

(** ** Bytes and views *)

Lemma le_bytes_length (n : nat) (x : Z) : List.length (DataView.le_bytes n x) = n.
Proof.
  revert x; induction n as [|n IH]; intros x; simpl; [reflexivity|].
  now rewrite IH.
Qed.

Lemma le_value_le_bytes (n : nat) (x : Z) :
  DataView.le_value (DataView.le_bytes n x) = x mod 256 ^ Z.of_nat n.
Proof.
  revert x; induction n as [|n IH]; intros x.
  - simpl. now rewrite Z.mod_1_r.
  - cbn [DataView.le_bytes DataView.le_value].
    rewrite IH, Nat2Z.inj_succ, Z.pow_succ_r by lia.
    rewrite Z.rem_mul_r by lia. reflexivity.
Qed.

Lemma store_splits (off : Z) (bs : list Z) (v : DataView.t) :
  0 <= off -> off + Z.of_nat (List.length bs) <= DataView.byteLength v ->
  exists a old c,
    v = (a ++ old ++ c)%list /\ List.length a = Z.to_nat off
    /\ List.length old = List.length bs
    /\ DataView.store off bs v = Some (a ++ bs ++ c)%list.
Proof.
  intros Hoff Hfit. unfold DataView.byteLength in Hfit.
  exists (firstn (Z.to_nat off) v),
    (firstn (List.length bs) (skipn (Z.to_nat off) v)),
    (skipn (Z.to_nat off + List.length bs) v).
  repeat split.
  - rewrite <- (firstn_skipn (Z.to_nat off) v) at 1. f_equal.
    rewrite <- (firstn_skipn (List.length bs) (skipn (Z.to_nat off) v)) at 1.
    f_equal. rewrite skipn_skipn. f_equal. lia.
  - rewrite length_firstn. lia.
  - rewrite length_firstn, length_skipn. lia.
  - unfold DataView.store, DataView.byteLength.
    replace (0 <=? off) with true by (symmetry; apply Z.leb_le; lia).
    replace (off + Z.of_nat (List.length bs) <=? Z.of_nat (List.length v)) with true
      by (symmetry; apply Z.leb_le; lia).
    reflexivity.
Qed.

Lemma load_app_inside (a m c : list Z) (off : Z) (n : nat) :
  off = Z.of_nat (List.length a) -> n = List.length m ->
  DataView.load off n (a ++ m ++ c)%list = Some m.
Proof.
  intros -> ->. unfold DataView.load, DataView.byteLength.
  rewrite !length_app.
  replace (0 <=? Z.of_nat (List.length a)) with true by (symmetry; apply Z.leb_le; lia).
  replace (_ <=? _) with true by (symmetry; apply Z.leb_le; lia).
  simpl. rewrite Nat2Z.id, skipn_app, skipn_all, Nat.sub_diag.
  simpl. rewrite firstn_app, firstn_all, Nat.sub_diag. simpl.
  now rewrite app_nil_r.
Qed.

Lemma load_frame (a old new c : list Z) (off : Z) (n : nat) :
  List.length old = List.length new -> 0 <= off ->
  off + Z.of_nat n <= Z.of_nat (List.length a)
  \/ Z.of_nat (List.length a + List.length new) <= off ->
  DataView.load off n (a ++ new ++ c)%list = DataView.load off n (a ++ old ++ c)%list.
Proof.
  intros Hlen Hoff Hdisj. unfold DataView.load, DataView.byteLength.
  rewrite !length_app, Hlen.
  destruct ((0 <=? off) && _) eqn:Hin; [|reflexivity].
  f_equal. destruct Hdisj as [Hbefore | Hafter].
  - rewrite !skipn_app, !firstn_app.
    replace (n - List.length (skipn (Z.to_nat off) a))%nat with 0%nat
      by (rewrite length_skipn; lia).
    reflexivity.
  - rewrite !app_assoc.
    rewrite (skipn_app (Z.to_nat off) (a ++ new)%list).
    rewrite (skipn_app (Z.to_nat off) (a ++ old)%list).
    rewrite (skipn_all2 (a ++ new)%list) by (rewrite length_app; lia).
    rewrite (skipn_all2 (a ++ old)%list) by (rewrite length_app; lia).
    rewrite !length_app, Hlen. reflexivity.
Qed.

(** A write that fits succeeds, keeps the length, can be read back, and
    leaves every disjoint range as it was. *)
Lemma store_ok (off : Z) (bs : list Z) (v : DataView.t) :
  0 <= off -> off + Z.of_nat (List.length bs) <= DataView.byteLength v ->
  exists v',
    DataView.store off bs v = Some v'
    /\ List.length v' = List.length v
    /\ DataView.load off (List.length bs) v' = Some bs
    /\ (forall off' n, 0 <= off' ->
          off' + Z.of_nat n <= off \/ off + Z.of_nat (List.length bs) <= off' ->
          DataView.load off' n v' = DataView.load off' n v).
Proof.
  intros Hoff Hfit.
  destruct (store_splits off bs v Hoff Hfit) as (a & old & c & -> & Ha & Hold & Hst).
  exists (a ++ bs ++ c)%list. repeat split.
  - exact Hst.
  - rewrite !length_app. lia.
  - apply load_app_inside; [lia | reflexivity].
  - intros off' n Hoff' Hdisj. apply load_frame; [exact Hold | exact Hoff' | lia].
Qed.

Lemma order_length (le : bool) (bs : list Z) :
  List.length (DataView.order le bs) = List.length bs.
Proof. destruct le; simpl; [reflexivity | apply length_rev]. Qed.

(** [store_ok] for a write of [n] bytes. *)
Lemma store_n (n : nat) (off : Z) (bs : list Z) (v : DataView.t) :
  List.length bs = n ->
  0 <= off -> off + Z.of_nat n <= Z.of_nat (List.length v) ->
  exists v',
    DataView.store off bs v = Some v'
    /\ List.length v' = List.length v
    /\ DataView.load off n v' = Some bs
    /\ (forall off' k, 0 <= off' ->
          off' + Z.of_nat k <= off \/ off + Z.of_nat n <= off' ->
          DataView.load off' k v' = DataView.load off' k v).
Proof.
  intros <- Hoff Hfit. apply store_ok; [exact Hoff | exact Hfit].
Qed.

Lemma getUint32_le (off : Z) (v : DataView.t) (x : Z) :
  DataView.load off 4 v = Some (DataView.order true (DataView.le_bytes 4 (x mod 2 ^ 32))) ->
  DataView.getUint32 off true v = Some (x mod 2 ^ 32).
Proof.
  intros H. unfold DataView.getUint32. rewrite H. cbn [obind DataView.order].
  rewrite le_value_le_bytes. f_equal.
  change (256 ^ Z.of_nat 4) with (2 ^ 32). now rewrite Z.mod_mod.
Qed.

Lemma getUint16_le (off : Z) (v : DataView.t) (x : Z) :
  DataView.load off 2 v = Some (DataView.order true (DataView.le_bytes 2 (x mod 2 ^ 16))) ->
  DataView.getUint16 off true v = Some (x mod 2 ^ 16).
Proof.
  intros H. unfold DataView.getUint16. rewrite H. cbn [obind DataView.order].
  rewrite le_value_le_bytes. f_equal.
  change (256 ^ Z.of_nat 2) with (2 ^ 16). now rewrite Z.mod_mod.
Qed.

(** One header write: run it, record what it stored and what it kept. *)
Ltac header_write n :=
  match goal with
  | |- context [DataView.store ?off ?bs ?v] =>
      let v' := fresh "v" in
      let Hst := fresh "Hst" in
      let Hlen := fresh "Hlen" in
      let Hsame := fresh "Hsame" in
      let Hkeep := fresh "Hkeep" in
      destruct (store_n n off bs v) as (v' & Hst & Hlen & Hsame & Hkeep);
      [ rewrite order_length; apply le_bytes_length
      | lia
      | lia
      | rewrite Hst; cbn [obind] ]
  end.

(** Carry a read of the final view back to the write that produced it. *)
Ltac read_back :=
  repeat match goal with
         | Hkeep : forall off' k, 0 <= off' -> _ -> DataView.load off' k ?v = _
           |- DataView.load _ _ ?v = _ => rewrite Hkeep by lia
         end.

Lemma writeWavHeader_ok (view : DataView.t) (rate channels dataLength : Z) :
  44 <= Z.of_nat (List.length view) ->
  exists v',
    writeWavHeader view rate channels dataLength = Some v'
    /\ List.length v' = List.length view
    /\ headerFields v' rate channels dataLength
    /\ (forall off k, 44 <= off -> DataView.load off k v' = DataView.load off k view).
Proof.
  intros Hview.
  unfold writeWavHeader, DataView.setUint32, DataView.setUint16.
  header_write 4%nat. header_write 4%nat. header_write 4%nat. header_write 4%nat.
  header_write 4%nat. header_write 2%nat. header_write 2%nat. header_write 4%nat.
  header_write 4%nat. header_write 2%nat. header_write 2%nat. header_write 4%nat.
  header_write 4%nat.
  eexists; split; [reflexivity|]. split; [lia|]. split.
  - unfold headerFields. repeat split.
    + read_back. exact Hsame.
    + apply getUint32_le. read_back. exact Hsame0.
    + read_back. exact Hsame1.
    + read_back. exact Hsame2.
    + apply (getUint32_le 16 _ 16). read_back. exact Hsame3.
    + apply (getUint16_le 20 _ 1). read_back. exact Hsame4.
    + apply getUint16_le. read_back. exact Hsame5.
    + apply getUint32_le. read_back. exact Hsame6.
    + apply getUint32_le. read_back. exact Hsame7.
    + apply getUint16_le. read_back. exact Hsame8.
    + apply (getUint16_le 34 _ 16). read_back. exact Hsame9.
    + read_back. exact Hsame10.
    + apply getUint32_le. read_back. exact Hsame11.
  - intros off k Hoff. read_back. reflexivity.
Qed.

(** ** The sample loop *)

Lemma forFrom_invariant {S : Type} (I : nat -> S -> Prop) (body : nat -> S -> option S) :
  forall (n i : nat) (s : S),
    I i s ->
    (forall j st, (i <= j < i + n)%nat -> I j st ->
                  exists st', body j st = Some st' /\ I (Datatypes.S j) st') ->
    exists s', forFrom i n body s = Some s' /\ I (i + n)%nat s'.
Proof.
  induction n as [|n IH]; intros i s Hi Hstep.
  - exists s. rewrite Nat.add_0_r. split; [reflexivity | exact Hi].
  - destruct (Hstep i s) as (s1 & Hb & H1); [lia | exact Hi |].
    destruct (IH (Datatypes.S i) s1 H1) as (s2 & Hf & H2).
    { intros j st Hj. apply Hstep. lia. }
    exists s2. cbn [forFrom]. rewrite Hb. cbn [obind]. split; [exact Hf|].
    now replace (i + Datatypes.S n)%nat with (Datatypes.S i + n)%nat by lia.
Qed.

Lemma ToInt16_range (x : Num.t) : - 2 ^ 15 <= DataView.ToInt16 x < 2 ^ 15.
Proof.
  unfold DataView.ToInt16.
  pose proof (Z.mod_pos_bound (Num.truncate x) (2 ^ 16) ltac:(lia)) as Hm.
  destruct (_ <? _) eqn:Hlt; [apply Z.ltb_lt in Hlt | apply Z.ltb_ge in Hlt]; lia.
Qed.

Lemma getInt16_le (off : Z) (v : DataView.t) (x : Z) :
  DataView.load off 2 v = Some (DataView.order true (DataView.le_bytes 2 (x mod 2 ^ 16))) ->
  - 2 ^ 15 <= x < 2 ^ 15 ->
  DataView.getInt16 off true v = Some x.
Proof.
  intros H Hx. unfold DataView.getInt16. rewrite H. cbn [obind DataView.order].
  rewrite le_value_le_bytes. f_equal.
  change (256 ^ Z.of_nat 2) with (2 ^ 16). rewrite Z.mod_mod by lia.
  destruct (Z_lt_le_dec x 0) as [Hneg | Hpos].
  - replace (x mod 2 ^ 16) with (x + 2 ^ 16)
      by (apply Z.mod_unique with (-1); lia).
    destruct (_ <? _) eqn:Hlt; [apply Z.ltb_lt in Hlt | apply Z.ltb_ge in Hlt]; lia.
  - rewrite Z.mod_small by lia.
    destruct (_ <? _) eqn:Hlt; [apply Z.ltb_lt in Hlt | apply Z.ltb_ge in Hlt]; lia.
Qed.

Section SampleLoop.

Variable b : AudioBuffer.
Variable v0 : DataView.t.

Let nc : nat := numberOfChannels b.

Hypothesis Hroom : Z.of_nat (List.length v0) = 44 + dataLengthOf b.

Lemma writeSample_step (i c : nat) (st : Z * DataView.t) :
  (i < frames b)%nat -> (c < nc)%nat ->
  written b v0 (i * nc + c) st ->
  exists st', writeSample b i c st = Some st' /\ written b v0 (i * nc + Datatypes.S c) st'.
Proof.
  intros Hi Hc (Hoff & Hlen & Hhead & Hdone). fold nc in Hdone.
  destruct st as [offset view]. cbn [fst snd] in *.
  unfold writeSample, DataView.setInt16.
  assert (Hfit : Z.of_nat (i * nc + c) + 1 <= Z.of_nat (frames b) * Z.of_nat nc).
  { assert ((i * nc + c + 1 <= frames b * nc)%nat) by nia. lia. }
  unfold dataLengthOf in Hroom. fold nc in Hroom.
  destruct (store_n 2 offset
              (DataView.order true
                 (DataView.le_bytes 2
                    (DataView.ToInt16 (scaleSample (getChannelData b c i)) mod 2 ^ 16)))
              view)
    as (v' & Hst & Hlen' & Hsame & Hkeep).
  { rewrite order_length. apply le_bytes_length. }
  { lia. }
  { lia. }
  rewrite Hst. cbn [obind]. eexists; split; [reflexivity|].
  unfold written; cbn [fst snd]. fold nc. repeat split.
  - lia.
  - congruence.
  - intros off n Ho Hn. rewrite Hkeep by lia. now apply Hhead.
  - intros i' c' Hc' Hlt.
    destruct (Nat.eq_dec (i' * nc + c') (i * nc + c)) as [Heq | Hne].
    + assert (i' = i /\ c' = c) as [-> ->]
        by (apply (Nat.div_mod_unique nc); lia).
      apply getInt16_le; [|apply ToInt16_range].
      unfold sampleOffset. fold nc.
      replace (44 + 2 * (Z.of_nat i * Z.of_nat nc + Z.of_nat c)) with offset by lia.
      exact Hsame.
    + assert (Hold : (i' * nc + c' < i * nc + c)%nat) by lia.
      specialize (Hdone i' c' Hc' Hold).
      unfold DataView.getInt16 in *.
      rewrite Hkeep; [exact Hdone | unfold sampleOffset; lia |].
      left. unfold sampleOffset. fold nc. lia.
Qed.

Lemma sampleLoop_ok (st : Z * DataView.t) :
  written b v0 0 st ->
  exists st',
    forLoop (frames b)
      (fun i => forLoop nc (fun channel => writeSample b i channel)) st = Some st'
    /\ written b v0 (frames b * nc) st'.
Proof.
  intros H0. unfold forLoop at 1.
  destruct (forFrom_invariant (fun i => written b v0 (i * nc))
              (fun i => forLoop nc (fun channel => writeSample b i channel))
              (frames b) 0 st H0) as (st' & Hrun & Hinv).
  - intros i s [_ Hi] Hw. cbn [Nat.add] in Hi. unfold forLoop.
    destruct (forFrom_invariant (fun c => written b v0 (i * nc + c))
                (fun channel => writeSample b i channel) nc 0 s) as (s' & Hrun & Hinv).
    + now rewrite Nat.add_0_r.
    + intros c sc [_ Hc] Hsc. cbn [Nat.add] in Hc.
      now apply writeSample_step.
    + exists s'. split; [exact Hrun|].
      now replace (Datatypes.S i * nc)%nat with (i * nc + (0 + nc))%nat by lia.
  - exists st'. split; [exact Hrun | exact Hinv].
Qed.

End SampleLoop.

(** The encoder never throws; its output has the header of section 4.1 and
    holds every sample, converted, at its interleaved position. *)
Lemma audioBufferToWav_ok (b : AudioBuffer) :
  exists bytes,
    audioBufferToWav b = Some bytes
    /\ Z.of_nat (List.length bytes) = 44 + dataLengthOf b
    /\ headerFields bytes (sampleRate b) (Z.of_nat (numberOfChannels b)) (dataLengthOf b)
    /\ (forall i c, (i < frames b)%nat -> (c < numberOfChannels b)%nat ->
          DataView.getInt16 (sampleOffset b i c) true bytes
          = Some (DataView.ToInt16 (scaleSample (getChannelData b c i)))).
Proof.
  unfold audioBufferToWav. fold (dataLengthOf b).
  assert (Hpos : 0 <= dataLengthOf b) by (unfold dataLengthOf; lia).
  set (v0 := DataView.alloc (44 + dataLengthOf b)).
  assert (Hv0 : Z.of_nat (List.length v0) = 44 + dataLengthOf b).
  { unfold v0, DataView.alloc. rewrite repeat_length. lia. }
  destruct (writeWavHeader_ok v0 (sampleRate b) (Z.of_nat (numberOfChannels b))
              (dataLengthOf b)) as (v1 & Hhdr & Hlen1 & Hfields & _); [lia|].
  rewrite Hhdr. cbn [obind].
  destruct (sampleLoop_ok b v1 ltac:(lia) (44, v1)) as (st' & Hrun & Hw).
  { unfold written; cbn [fst snd]. repeat split; try reflexivity. intros; lia. }
  rewrite Hrun. cbn [obind]. exists (snd st'). split; [reflexivity|].
  destruct Hw as (_ & Hlen & Hhead & Hdone). split; [|split].
  - lia.
  - unfold headerFields, DataView.getUint32, DataView.getUint16 in *.
    rewrite !Hhead by (cbn; lia). exact Hfields.
  - intros i c Hi Hc. apply Hdone; [exact Hc | nia].
Qed.

(** ** Conversion of one sample *)

Lemma truncate_nonneg (x : Q) :
  (0 <= x)%Q -> Num.truncate (Num.Fin x) = Qfloor x.
Proof.
  destruct x as [n d]. unfold Qle; cbn. intros Hn.
  apply Z.quot_div_nonneg; lia.
Qed.

Lemma truncate_nonpos (x : Q) :
  (x <= 0)%Q -> Num.truncate (Num.Fin x) = Qceiling x.
Proof.
  destruct x as [n d]. unfold Qle, Qceiling; cbn. intros Hn.
  rewrite <- (Z.opp_involutive n) at 1.
  rewrite Z.quot_opp_l by lia. f_equal.
  apply Z.quot_div_nonneg; lia.
Qed.

Lemma clamp_Fin (q : Q) :
  exists c,
    Num.max (Num.of_Z (-1)) (Num.min (Num.of_Z 1) (Num.Fin q)) = Num.Fin c
    /\ (c == Qmax (-1 # 1) (Qmin 1 q))%Q.
Proof.
  unfold Num.of_Z, Num.min, inject_Z.
  destruct (Qle_bool (1 # 1) q) eqn:H1.
  - apply Qle_bool_iff in H1. cbn [Num.max].
    exists 1%Q. split; [reflexivity|].
    rewrite (Q.min_l 1 q H1). rewrite Q.max_r; [reflexivity | discriminate].
  - assert (Hq : (q < 1)%Q).
    { apply Qnot_le_lt. intros Hc. apply Qle_bool_iff in Hc.
      change (Qle_bool (1 # 1) q = true) in Hc. congruence. }
    assert (Hmin : (Qmin 1 q == q)%Q) by (apply Q.min_r, Qlt_le_weak; exact Hq).
    cbn [Num.max].
    destruct (Qle_bool (-1 # 1) q) eqn:H2.
    + apply Qle_bool_iff in H2. exists q. split; [reflexivity|].
      rewrite Hmin. now rewrite Q.max_r.
    + assert (Hq' : (q < -1 # 1)%Q).
      { apply Qnot_le_lt. intros Hc. apply Qle_bool_iff in Hc. congruence. }
      exists (-1 # 1)%Q. split; [reflexivity|].
      rewrite Hmin. rewrite Q.max_l; [reflexivity | apply Qlt_le_weak; exact Hq'].
Qed.

Lemma Qnum_neg (c : Q) : (Qnum c <? 0) = true <-> (c < 0)%Q.
Proof.
  destruct c as [n d]. unfold Qlt; cbn. rewrite Z.ltb_lt. lia.
Qed.

(** The number handed to [setInt16] for a finite sample truncates to the
    value of the claim's description. *)
Lemma scaleSample_Fin (q : Q) : Num.truncate (scaleSample (Num.Fin q)) = pcm16 q.
Proof.
  unfold scaleSample, pcm16.
  destruct (clamp_Fin q) as (c & -> & Hc).
  set (m := Qmax (-1 # 1) (Qmin 1 q)) in *.
  cbn [Num.ltb0]. destruct (Qnum c <? 0) eqn:Hneg.
  - apply Qnum_neg in Hneg. cbn [Num.mulpos].
    destruct (Qlt_le_dec m 0) as [Hm | Hm]; [|rewrite Hc in Hneg; lra].
    rewrite truncate_nonpos by (unfold inject_Z; lra).
    apply Qceiling_comp. unfold inject_Z. now rewrite Hc.
  - assert (Hpos : (0 <= c)%Q).
    { apply Qnot_lt_le. intros Hlt. apply Qnum_neg in Hlt. congruence. }
    cbn [Num.mulpos].
    destruct (Qlt_le_dec m 0) as [Hm | Hm]; [rewrite Hc in Hpos; lra|].
    rewrite truncate_nonneg by (unfold inject_Z; lra).
    apply Qfloor_comp. unfold inject_Z. now rewrite Hc.
Qed.

Lemma pcm16_range (q : Q) : -32768 <= pcm16 q <= 32767.
Proof.
  unfold pcm16. set (m := Qmax (-1 # 1) (Qmin 1 q)).
  assert (Hlo : (-1 # 1 <= m)%Q) by apply Q.le_max_l.
  assert (Hhi : (m <= 1)%Q).
  { apply Q.max_lub; [discriminate | apply Q.le_min_l]. }
  destruct (Qlt_le_dec m 0) as [Hm | Hm].
  - split.
    + transitivity (Qceiling (inject_Z (-32768))); [now rewrite Qceiling_Z|].
      apply Qceiling_resp_le. unfold inject_Z. lra.
    + transitivity (Qceiling (inject_Z 32767)); [|now rewrite Qceiling_Z].
      apply Qceiling_resp_le. unfold inject_Z. lra.
  - split.
    + transitivity (Qfloor (inject_Z (-32768))); [now rewrite Qfloor_Z|].
      apply Qfloor_resp_le. unfold inject_Z. lra.
    + transitivity (Qfloor (inject_Z 32767)); [|now rewrite Qfloor_Z].
      apply Qfloor_resp_le. unfold inject_Z. lra.
Qed.

(** Whatever the sample (finite, infinite or NaN), the scaled number
    truncates into the 16-bit signed range. *)
Lemma scaleSample_range (s : Num.t) :
  -32768 <= Num.truncate (scaleSample s) <= 32767.
Proof.
  destruct s as [q | | |].
  - rewrite scaleSample_Fin. apply pcm16_range.
  - vm_compute. split; discriminate.
  - vm_compute. split; discriminate.
  - vm_compute. split; discriminate.
Qed.

Lemma ToInt16_exact (x : Num.t) :
  -32768 <= Num.truncate x <= 32767 -> DataView.ToInt16 x = Num.truncate x.
Proof.
  intros Hx. unfold DataView.ToInt16.
  destruct (Z_lt_le_dec (Num.truncate x) 0) as [Hneg | Hpos].
  - replace (Num.truncate x mod 2 ^ 16) with (Num.truncate x + 2 ^ 16)
      by (apply Z.mod_unique with (-1); lia).
    destruct (_ <? _) eqn:Hlt; [apply Z.ltb_lt in Hlt | apply Z.ltb_ge in Hlt]; lia.
  - rewrite Z.mod_small by lia.
    destruct (_ <? _) eqn:Hlt; [apply Z.ltb_lt in Hlt | apply Z.ltb_ge in Hlt]; lia.
Qed.

(** ** The WAV encoder: claims C6, C7 and C10 *)

(** C6, as amended.  For every valid clip the output has byte length
    44 + frameCount * channelCount * 2, with no other condition; and reading
    the header back at the fixed offsets (little-endian) gives each input
    value that fits its field: the channel count at 22 when it is below
    2^16, the sample rate at 24 when it is below 2^32, the data length at 40
    when it is below 2^32, and the data length plus 36 at 4 when that is
    below 2^32. *)
Theorem wav_header_roundtrip (b : AudioBuffer) :
  valid_clip b ->
  exists bytes,
    audioBufferToWav b = Some bytes
    /\ Z.of_nat (List.length bytes)
       = 44 + Z.of_nat (frames b) * Z.of_nat (numberOfChannels b) * 2
    /\ (Z.of_nat (numberOfChannels b) < 2 ^ 16 ->
        DataView.getUint16 22 true bytes = Some (Z.of_nat (numberOfChannels b)))
    /\ (0 <= sampleRate b < 2 ^ 32 ->
        DataView.getUint32 24 true bytes = Some (sampleRate b))
    /\ (dataLengthOf b < 2 ^ 32 ->
        DataView.getUint32 40 true bytes = Some (dataLengthOf b))
    /\ (dataLengthOf b + 36 < 2 ^ 32 ->
        DataView.getUint32 4 true bytes = Some (dataLengthOf b + 36)).
Proof.
  intros _.
  assert (Hpos : 0 <= dataLengthOf b) by (unfold dataLengthOf; lia).
  destruct (audioBufferToWav_ok b) as (bytes & Hrun & Hsize & Hfields & _).
  destruct Hfields as (_ & Hchunk & _ & _ & _ & _ & Hch & Hsr & _ & _ & _ & _ & Hdata).
  exists bytes. split; [exact Hrun|]. split; [exact Hsize|].
  split; [|split; [|split]].
  - intros Hnc. rewrite Z.mod_small in Hch by lia. exact Hch.
  - intros Hrate. rewrite Z.mod_small in Hsr by lia. exact Hsr.
  - intros Hlen. rewrite Z.mod_small in Hdata by lia. exact Hdata.
  - intros Hlen. rewrite Z.mod_small in Hchunk by lia. exact Hchunk.
Qed.

Lemma wav_header_roundtrip_witness :
  exists bytes,
    audioBufferToWav stereoClip = Some bytes
    /\ Z.of_nat (List.length bytes) = 44 + 3 * 2 * 2
    /\ DataView.getUint16 22 true bytes = Some 2
    /\ DataView.getUint32 24 true bytes = Some 16000
    /\ DataView.getUint32 40 true bytes = Some 12
    /\ DataView.getUint32 4 true bytes = Some 48.
Proof.
  destruct (wav_header_roundtrip stereoClip) as (bytes & Hrun & Hsize & Hch & Hsr & Hdata & Hchunk).
  - repeat constructor.
  - exists bytes. split; [exact Hrun|]. split; [exact Hsize|].
    split; [|split; [|split]].
    + apply Hch. vm_compute; reflexivity.
    + apply Hsr. split; vm_compute; [discriminate | reflexivity].
    + apply Hdata. vm_compute; reflexivity.
    + apply Hchunk. vm_compute; reflexivity.
Defined.

(** C6 fails as stated.  The mono clip of 2^31 frames at 16 kHz (about 37
    hours of sound) is valid, its data length is 2^32, and the data-length
    field read back at offset 40 is 0, not the data length. *)
Lemma wav_header_wraps :
  valid_clip longClip
  /\ dataLengthOf longClip = 4294967296
  /\ exists bytes,
       audioBufferToWav longClip = Some bytes
       /\ Z.of_nat (List.length bytes) = 44 + dataLengthOf longClip
       /\ DataView.getUint32 40 true bytes = Some 0
       /\ DataView.getUint32 40 true bytes <> Some (dataLengthOf longClip).
Proof.
  assert (Hlen : dataLengthOf longClip = 4294967296).
  { unfold dataLengthOf, longClip, numberOfChannels.
    cbn [frames channelData List.length]. rewrite Z2Nat.id by lia. reflexivity. }
  split; [|split; [exact Hlen|]].
  - unfold valid_clip, longClip. cbn [frames channelData].
    constructor; [apply repeat_length | constructor].
  - destruct (audioBufferToWav_ok longClip) as (bytes & Hrun & Hsize & Hfields & _).
    destruct Hfields as (_ & _ & _ & _ & _ & _ & _ & _ & _ & _ & _ & _ & Hdata).
    rewrite Hlen in Hdata. change (4294967296 mod 2 ^ 32) with 0 in Hdata.
    exists bytes. split; [exact Hrun|]. split; [exact Hsize|]. split; [exact Hdata|].
    rewrite Hdata, Hlen. discriminate.
Qed.

(** The two other fields are as narrow in the model, whose channel counts
    and sample rates are unbounded integers: 2^16 channels read back as 0
    at offset 22, and the sample rate 2^32 + 16000 reads back as 16000 at
    offset 24.  The Web Audio interface builds no such clip; the bounds of
    the two fields in [wav_header_roundtrip] cost a real clip nothing. *)
Lemma wav_header_narrow_fields :
  (valid_clip wideClip
   /\ Z.of_nat (numberOfChannels wideClip) = 65536
   /\ exists bytes,
        audioBufferToWav wideClip = Some bytes
        /\ DataView.getUint16 22 true bytes = Some 0)
  /\ (valid_clip fastClip
      /\ exists bytes,
           audioBufferToWav fastClip = Some bytes
           /\ DataView.getUint32 24 true bytes = Some 16000).
Proof.
  split.
  - assert (Hnc : Z.of_nat (numberOfChannels wideClip) = 65536).
    { unfold numberOfChannels, wideClip. cbn [channelData].
      rewrite repeat_length, Z2Nat.id by lia. reflexivity. }
    split; [|split; [exact Hnc|]].
    + unfold valid_clip, wideClip. cbn [frames channelData].
      apply Forall_forall. intros ch Hch. apply repeat_spec in Hch. now subst ch.
    + destruct (audioBufferToWav_ok wideClip) as (bytes & Hrun & _ & Hfields & _).
      destruct Hfields as (_ & _ & _ & _ & _ & _ & Hch & _).
      rewrite Hnc in Hch. change (65536 mod 2 ^ 16) with 0 in Hch.
      exists bytes. split; [exact Hrun | exact Hch].
  - split; [repeat constructor|].
    eexists. split; [vm_compute; reflexivity | reflexivity].
Qed.

(** C7.  For every frame and channel of a valid clip, the 16-bit
    little-endian integer stored at offset 44 + 2 * (frame * channelCount +
    channel), that is channel-fastest, is the sample clamped to [-1, 1],
    scaled by 32768 when negative and by 32767 otherwise, and truncated
    toward zero; the samples +1.0 and -1.0 are emitted as 32767 and
    -32768. *)
Theorem wav_sample_conversion (b : AudioBuffer) (i c : nat) (q : Q) :
  valid_clip b ->
  (i < frames b)%nat -> (c < numberOfChannels b)%nat ->
  getChannelData b c i = Num.Fin q ->
  exists bytes,
    audioBufferToWav b = Some bytes
    /\ DataView.getInt16
         (44 + 2 * (Z.of_nat i * Z.of_nat (numberOfChannels b) + Z.of_nat c)) true bytes
       = Some (pcm16 q)
    /\ DataView.ToInt16 (scaleSample (Num.Fin 1)) = 32767
    /\ DataView.ToInt16 (scaleSample (Num.Fin (-1))) = -32768.
Proof.
  intros _ Hi Hc Hq.
  destruct (audioBufferToWav_ok b) as (bytes & Hrun & _ & _ & Hsamples).
  exists bytes. split; [exact Hrun|]. split; [|split; reflexivity].
  specialize (Hsamples i c Hi Hc). unfold sampleOffset in Hsamples.
  rewrite Hsamples, Hq. f_equal.
  rewrite ToInt16_exact by apply scaleSample_range.
  apply scaleSample_Fin.
Qed.

Lemma wav_sample_conversion_witness :
  exists bytes,
    audioBufferToWav stereoClip = Some bytes
    /\ DataView.getInt16 (44 + 2 * (2 * 2 + 0)) true bytes = Some 16383
    /\ DataView.ToInt16 (scaleSample (Num.Fin 1)) = 32767
    /\ DataView.ToInt16 (scaleSample (Num.Fin (-1))) = -32768.
Proof.
  apply (wav_sample_conversion stereoClip 2 0 (1 # 2)).
  - repeat constructor.
  - vm_compute; lia.
  - vm_compute; lia.
  - reflexivity.
Defined.

(** C10.  Whatever the value of a sample (finite or not, however far
    outside [-1, 1]), the integer stored for it is the truncation of the
    clamped and scaled sample itself, which lies in [-32768, 32767]: the
    reduction modulo 2^16 of the 16-bit write never changes it. *)
Theorem wav_sample_in_range (b : AudioBuffer) (i c : nat) :
  (i < frames b)%nat -> (c < numberOfChannels b)%nat ->
  exists bytes v,
    audioBufferToWav b = Some bytes
    /\ DataView.getInt16 (sampleOffset b i c) true bytes = Some v
    /\ v = Num.truncate (scaleSample (getChannelData b c i))
    /\ -32768 <= v <= 32767.
Proof.
  intros Hi Hc.
  destruct (audioBufferToWav_ok b) as (bytes & Hrun & _ & _ & Hsamples).
  exists bytes, (Num.truncate (scaleSample (getChannelData b c i))).
  split; [exact Hrun|]. split; [|split; [reflexivity | apply scaleSample_range]].
  rewrite (Hsamples i c Hi Hc). f_equal.
  apply ToInt16_exact, scaleSample_range.
Qed.

Lemma wav_sample_in_range_witness :
  exists bytes v,
    audioBufferToWav stereoClip = Some bytes
    /\ DataView.getInt16 (sampleOffset stereoClip 1 1) true bytes = Some v
    /\ v = Num.truncate (scaleSample (getChannelData stereoClip 1 1))
    /\ -32768 <= v <= 32767.
Proof.
  apply (wav_sample_in_range stereoClip 1 1); vm_compute; lia.
Defined.

(** ** Strings *)

Lemma sapp_nil_r (s : string) : s ++ EmptyString = s.
Proof. induction s as [|c s IH]; simpl; [reflexivity | now rewrite IH]. Qed.

Lemma sapp_assoc (a b c : string) : (a ++ b) ++ c = a ++ b ++ c.
Proof. induction a as [|x a IH]; simpl; [reflexivity | now rewrite IH]. Qed.

Lemma sapp_length (a b : string) :
  String.length (a ++ b) = (String.length a + String.length b)%nat.
Proof. induction a as [|x a IH]; simpl; [reflexivity | now rewrite IH]. Qed.

Lemma startsWith_spec (p s : string) :
  Str.startsWith p s = true <-> exists b, s = p ++ b.
Proof.
  revert s; induction p as [|c p IH]; intros s; cbn [Str.startsWith].
  - split; [intros _; now exists s | reflexivity].
  - destruct s as [|d s].
    + split; [discriminate | intros [b Hb]; discriminate].
    + rewrite andb_true_iff, Ascii.eqb_eq, IH. split.
      * intros [-> [b ->]]. now exists b.
      * intros [b Hb]. injection Hb as -> ->. split; [reflexivity | now exists b].
Qed.

Lemma includes_spec (sub s : string) :
  Str.includes sub s = true <-> contains sub s.
Proof.
  unfold contains. induction s as [|c s IH]; cbn [Str.includes].
  - destruct (Str.startsWith sub EmptyString) eqn:Hp.
    + apply startsWith_spec in Hp. destruct Hp as [b Hb].
      split; [intros _; exists EmptyString, b; exact Hb | reflexivity].
    + split; [discriminate|]. intros (a & b & Hab).
      destruct a; [|discriminate]. simpl in Hab.
      assert (Str.startsWith sub EmptyString = true)
        by (apply startsWith_spec; now exists b).
      congruence.
  - destruct (Str.startsWith sub (String c s)) eqn:Hp.
    + apply startsWith_spec in Hp. destruct Hp as [b Hb].
      split; [intros _; exists EmptyString, b; exact Hb | reflexivity].
    + rewrite IH. split.
      * intros (a & b & ->). now exists (String c a), b.
      * intros (a & b & Hab). destruct a as [|x a].
        -- simpl in Hab.
           assert (Str.startsWith sub (String c s) = true)
             by (apply startsWith_spec; now exists b).
           congruence.
        -- injection Hab as _ ->. now exists a, b.
Qed.

Lemma endsWith_spec (suffix s : string) :
  Str.endsWith suffix s = true <-> endsIn suffix s.
Proof.
  unfold endsIn. induction s as [|c s IH]; cbn [Str.endsWith].
  - destruct (String.eqb_spec EmptyString suffix) as [<- | Hne].
    + split; [intros _; now exists EmptyString | reflexivity].
    + split; [discriminate|]. intros [a Ha].
      destruct a; [simpl in Ha; congruence | discriminate].
  - destruct (String.eqb_spec (String c s) suffix) as [<- | Hne].
    + split; [intros _; now exists EmptyString | reflexivity].
    + rewrite IH. split.
      * intros [a ->]. now exists (String c a).
      * intros [a Ha]. destruct a as [|x a]; [simpl in Ha; congruence|].
        injection Ha as _ ->. now exists a.
Qed.

Lemma toLowerCase_app (a b : string) :
  Str.toLowerCase (a ++ b) = Str.toLowerCase a ++ Str.toLowerCase b.
Proof. induction a as [|c a IH]; simpl; [reflexivity | now rewrite IH]. Qed.

Lemma toLowerCase_app_inv (s u v : string) :
  Str.toLowerCase s = u ++ v ->
  exists a x, s = a ++ x /\ Str.toLowerCase a = u /\ Str.toLowerCase x = v.
Proof.
  revert s; induction u as [|c u IH]; intros s H.
  - exists EmptyString, s. auto.
  - destruct s as [|d s]; [discriminate|].
    simpl in H. injection H as Hc Hs.
    destruct (IH s Hs) as (a & x & -> & Ha & Hx).
    exists (String d a), x. simpl. now rewrite Hc, Ha.
Qed.

(** The letters that lower-case to the characters of the two extensions. *)
Ltac by_cases_on_char c :=
  destruct c as [[] [] [] [] [] [] [] []]; vm_compute; intros H;
  try discriminate H; auto.

Lemma lower_dot c : Str.lower c = "."%char -> c = "."%char.
Proof. by_cases_on_char c. Qed.

Lemma lower_4 c : Str.lower c = "4"%char -> c = "4"%char.
Proof. by_cases_on_char c. Qed.

Lemma lower_m c : Str.lower c = "m"%char -> c = "m"%char \/ c = "M"%char.
Proof. by_cases_on_char c. Qed.

Lemma lower_p c : Str.lower c = "p"%char -> c = "p"%char \/ c = "P"%char.
Proof. by_cases_on_char c. Qed.

Lemma lower_a c : Str.lower c = "a"%char -> c = "a"%char \/ c = "A"%char.
Proof. by_cases_on_char c. Qed.

Lemma lower_mp4 (x : string) : Str.toLowerCase x = ".mp4" <-> In x mp4Endings.
Proof.
  split.
  - destruct x as [|c1 [|c2 [|c3 [|c4 [|c5 x]]]]]; try discriminate.
    cbn [Str.toLowerCase]. intros H. injection H as H1 H2 H3 H4.
    apply lower_dot in H1. apply lower_4 in H4.
    apply lower_m in H2. apply lower_p in H3. subst c1 c4.
    destruct H2 as [-> | ->], H3 as [-> | ->]; simpl; auto.
  - intros H. repeat (destruct H as [<- | H]; [reflexivity|]). destruct H.
Qed.

Lemma lower_m4a (x : string) : Str.toLowerCase x = ".m4a" <-> In x m4aEndings.
Proof.
  split.
  - destruct x as [|c1 [|c2 [|c3 [|c4 [|c5 x]]]]]; try discriminate.
    cbn [Str.toLowerCase]. intros H. injection H as H1 H2 H3 H4.
    apply lower_dot in H1. apply lower_4 in H3.
    apply lower_m in H2. apply lower_a in H4. subst c1 c3.
    destruct H2 as [-> | ->], H4 as [-> | ->]; simpl; auto.
  - intros H. repeat (destruct H as [<- | H]; [reflexivity|]). destruct H.
Qed.

(** [name.toLowerCase().endsWith(ext)] in the words of the specification. *)
Lemma endsWith_lower (ext : string) (endings : list string) (name : string) :
  (forall x, Str.toLowerCase x = ext <-> In x endings) ->
  Str.endsWith ext (Str.toLowerCase name) = true <-> endsInOneOf endings name.
Proof.
  intros Hext. rewrite endsWith_spec. unfold endsInOneOf, endsIn. split.
  - intros [u Hu]. destruct (toLowerCase_app_inv _ _ _ Hu) as (a & x & -> & _ & Hx).
    exists x. split; [now apply Hext | now exists a].
  - intros (e & He & a & ->). exists (Str.toLowerCase a).
    rewrite toLowerCase_app. f_equal. now apply Hext.
Qed.

(** Two suffixes of one string of equal length are equal. *)
Lemma endsIn_same_length (e1 e2 s : string) :
  endsIn e1 s -> endsIn e2 s -> String.length e1 = String.length e2 -> e1 = e2.
Proof.
  intros [a1 H1] [a2 H2] Hlen. subst s.
  assert (Hla : String.length a1 = String.length a2).
  { apply (f_equal String.length) in H2. rewrite !sapp_length in H2. lia. }
  clear Hlen. revert a2 H2 Hla.
  induction a1 as [|c a1 IH]; intros [|d a2] H2 Hla; try discriminate.
  - exact H2.
  - injection H2 as _ H2. injection Hla as Hla. now apply (IH a2).
Qed.

(** ** One iteration of the request loop *)

Lemma attemptOnce_run (P : Platform) (mimeType : string) (data : option string) (w : World) :
  attemptOnce P mimeType data w
  = Some (afterRequest w (mkRequest mimeType data),
          attemptOutcome (generateContent P (requests w) (mkRequest mimeType data))).
Proof.
  unfold attemptOnce, bind, sendRequest, afterRequest, attemptOutcome.
  destruct (generateContent P (requests w) _) as [[[t|]] | e]; cbn; [|reflexivity..].
  destruct (String.eqb t EmptyString); cbn; [reflexivity|].
  destruct (cleanAndParseJSON t); reflexivity.
Qed.

(** The loop, unfolded once. *)
Lemma retryLoop_step (fuel : nat) (P : Platform) (mimeType : string)
      (data : option string) (attempt : Z) (w : World) :
  let request := mkRequest mimeType data in
  let w1 := afterRequest w request in
  retryLoop (S fuel) P mimeType data attempt w
  = if attempt <? maxRetries then
      match attemptOutcome (generateContent P (requests w) request) with
      | Ok v => Some (w1, Ok v)
      | Throw error =>
          if isRetryable error && (attempt <? maxRetries - 1) then
            retryLoop fuel P mimeType data (attempt + 1)
              {| requests := requests w1;
                 log := (log w1 ++ [EvWait (2000 * 2 ^ (attempt + 1))])%list |}
          else Some (w1, Throw (rethrown error))
      end
    else Some (w, Throw ExhaustedRetriesError).
Proof.
  cbn zeta. cbn [retryLoop].
  destruct (attempt <? maxRetries); [|reflexivity].
  unfold tryCatch. rewrite attemptOnce_run.
  destruct (attemptOutcome _) as [v | error]; [reflexivity|].
  destruct (isRetryable error && (attempt <? maxRetries - 1)).
  - reflexivity.
  - unfold rethrown. destruct (messageIncludes "400" error); reflexivity.
Qed.

(** [n] retryable failures in a row, none of them on the last allowed
    attempt, bring the loop to attempt [attempt + n]. *)
Lemma retryLoop_retries (P : Platform) (mimeType : string) (data : option string)
      (errors : list JsError) :
  forall (fuel : nat) (attempt : Z) (w : World),
    0 <= attempt ->
    attempt + Z.of_nat (List.length errors) < maxRetries ->
    (forall j e, nth_error errors j = Some e ->
                 generateContent P (requests w + j) (mkRequest mimeType data) = Throw e
                 /\ isRetryable e = true) ->
    retryLoop (List.length errors + fuel) P mimeType data attempt w
    = retryLoop fuel P mimeType data (attempt + Z.of_nat (List.length errors))
        (afterRetries w (mkRequest mimeType data) attempt (List.length errors)).
Proof.
  induction errors as [|e errors IH]; intros fuel attempt w Hpos Hlt Hfail.
  - cbn. rewrite Z.add_0_r. unfold afterRetries. cbn.
    rewrite Nat.add_0_r, app_nil_r. now destruct w.
  - cbn [List.length Nat.add]. rewrite retryLoop_step. cbn zeta.
    cbn [List.length] in Hlt. unfold maxRetries in *.
    replace (attempt <? 3) with true by (symmetry; apply Z.ltb_lt; lia).
    destruct (Hfail 0%nat e eq_refl) as [Hgen Hretry].
    rewrite Nat.add_0_r in Hgen. rewrite Hgen. cbn [attemptOutcome].
    rewrite Hretry.
    replace (attempt <? 3 - 1) with true by (symmetry; apply Z.ltb_lt; lia).
    cbn [andb]. rewrite IH.
    + f_equal; [lia|]. unfold afterRetries, afterRequest. cbn.
      f_equal; [lia|]. now rewrite <- !app_assoc.
    + lia.
    + lia.
    + intros j e' Hj. cbn [requests afterRequest].
      replace (S (requests w) + j)%nat with (requests w + S j)%nat by lia.
      now apply Hfail.
Qed.

(** ** What the stages do to the log *)

Lemma conversions_app (l1 l2 : list Event) :
  conversions (l1 ++ l2) = (conversions l1 ++ conversions l2)%list.
Proof.
  induction l1 as [|[] l1 IH]; cbn; [reflexivity | now rewrite IH | exact IH..].
Qed.

Lemma reads_app (l1 l2 : list Event) : reads (l1 ++ l2) = (reads l1 ++ reads l2)%list.
Proof.
  induction l1 as [|[] l1 IH]; cbn; [reflexivity | exact IH | now rewrite IH | exact IH..].
Qed.

Lemma requestCount_app (l1 l2 : list Event) :
  requestCount (l1 ++ l2) = (requestCount l1 + requestCount l2)%nat.
Proof.
  induction l1 as [|[] l1 IH]; cbn; [reflexivity | exact IH.. | now rewrite IH | exact IH].
Qed.

Lemma waits_app (l1 l2 : list Event) : waits (l1 ++ l2) = (waits l1 ++ waits l2)%list.
Proof.
  induction l1 as [|[] l1 IH]; cbn; [reflexivity | exact IH.. | now rewrite IH].
Qed.

(** The conversion stage always settles; it issues no remote call, reads
    nothing, and logs the conversion exactly when it is needed. *)
Lemma conversionStage_runs (P : Platform) (input : File) (w : World) :
  exists r,
    conversionStage P input w
    = Some ({| requests := requests w;
               log := (log w ++ if needsConversion input then [EvConvert input] else [])%list |},
            r)
    /\ (needsConversion input = false -> r = Ok (blob input, type (blob input))).
Proof.
  unfold conversionStage. destruct (needsConversion input).
  - unfold tryCatch, bind, emit, convertMp4ToWav, bind, await, orThrow, ret, throw.
    cbn [requests log].
    destruct (decodeAudioData P input) as [ab | e].
    2: { eexists; split; [reflexivity | discriminate]. }
    destruct (startRendering P ab 1 16000) as [rb | e].
    2: { eexists; split; [reflexivity | discriminate]. }
    destruct (audioBufferToWav_ok rb) as (bytes & -> & _).
    eexists; split; [reflexivity | discriminate].
  - exists (Ok (blob input, type (blob input))). unfold ret.
    rewrite app_nil_r. destruct w. split; reflexivity.
Qed.

(** The encoding stage always settles and issues no remote call: it
    either rejects the size without reading the blob, or reads it once. *)
Lemma encodingStage_runs (P : Platform) (input : File) (finalBlob : Blob)
      (finalMimeType : string) (w : World) :
  exists r,
    encodingStage P input (finalBlob, finalMimeType) w
    = Some ({| requests := requests w;
               log := (log w ++ if size finalBlob >? sizeLimit then []
                                else [EvRead finalBlob])%list |}, r)
    /\ ((size finalBlob >? sizeLimit) = true -> r = Throw (SizeLimitError (size finalBlob))).
Proof.
  unfold encodingStage. destruct (size finalBlob >? sizeLimit).
  - exists (Throw (SizeLimitError (size finalBlob))). unfold throw.
    rewrite app_nil_r. destruct w. split; reflexivity.
  - unfold fileToGenerativePart, bind, emit, await, ret. cbn [requests log].
    destruct (readAsDataURL P finalBlob); eexists; split;
      try reflexivity; discriminate.
Qed.

(** With enough fuel the loop settles, and it logs only requests and
    waits. *)
Lemma retryLoop_runs (P : Platform) (mimeType : string) (data : option string) :
  forall (fuel : nat) (attempt : Z) (w : World),
    0 <= attempt ->
    (Z.to_nat (maxRetries - attempt) < fuel)%nat ->
    exists w' r evs,
      retryLoop fuel P mimeType data attempt w = Some (w', r)
      /\ log w' = (log w ++ evs)%list
      /\ conversions evs = [] /\ reads evs = [].
Proof.
  induction fuel as [|fuel IH]; intros attempt w Hpos Hfuel; [lia|].
  rewrite retryLoop_step. cbn zeta. unfold maxRetries in *.
  destruct (attempt <? 3) eqn:Hlt.
  2: { exists w, (Throw ExhaustedRetriesError), []. now rewrite app_nil_r. }
  apply Z.ltb_lt in Hlt.
  destruct (attemptOutcome _) as [v | error].
  { eexists _, _, [_]. repeat split; reflexivity. }
  destruct (isRetryable error && (attempt <? 3 - 1)) eqn:Hretry.
  2: { eexists _, _, [_]. repeat split; reflexivity. }
  apply andb_true_iff in Hretry. destruct Hretry as [_ Hlast]. apply Z.ltb_lt in Hlast.
  edestruct (IH (attempt + 1)) as (w' & r & evs & Hrun & Hlog & Hconv & Hreads);
    [lia | lia |].
  rewrite Hrun. exists w', r. eexists. split; [reflexivity|].
  rewrite Hlog. cbn [log afterRequest]. rewrite <- !app_assoc. split; [reflexivity|].
  rewrite !conversions_app, !reads_app, Hconv, Hreads. split; reflexivity.
Qed.

(** The call always settles: the model never runs out of fuel. *)
Lemma analyzeAudio_terminates (P : Platform) (input : File) (w : World) :
  exists w' r, analyzeAudio P input w = Some (w', r).
Proof.
  unfold analyzeAudio, prepare, bind.
  destruct (negb (truthy (API_KEY P))); [eexists _, _; reflexivity|].
  destruct (conversionStage_runs P input w) as (rc & -> & _).
  destruct rc as [[finalBlob finalMimeType] | e]; [|eexists _, _; reflexivity].
  destruct (encodingStage_runs P input finalBlob finalMimeType
              {| requests := requests w;
                 log := (log w ++ if needsConversion input then [EvConvert input] else [])%list |})
    as (re & -> & _).
  destruct re as [[mimeType data] | e]; [|eexists _, _; reflexivity].
  edestruct (retryLoop_runs P mimeType data (Z.to_nat maxRetries + 1) 0)
    as (w' & r & evs & -> & _); [lia | cbn; lia |].
  eexists _, _; reflexivity.
Qed.

(** The call from the first request on, once everything before the loop
    has succeeded. *)
Lemma analyzeAudio_requesting (P : Platform) (input : File) (w1 : World)
      (mimeType : string) (data : option string) :
  prepare P input initial = Some (w1, Ok (mimeType, data)) ->
  requests w1 = 0%nat
  /\ requestCount (log w1) = 0%nat /\ waits (log w1) = []
  /\ analyzeAudio P input initial
     = retryLoop (Z.to_nat maxRetries + 1) P mimeType data 0 w1.
Proof.
  intros Hprep. split; [|split; [|split]].
  4: { unfold analyzeAudio, bind. now rewrite Hprep. }
  all: revert Hprep; unfold prepare, bind;
    destruct (negb (truthy (API_KEY P))); [discriminate|];
    destruct (conversionStage_runs P input initial) as (rc & -> & _);
    destruct rc as [[finalBlob finalMimeType] | e]; [|discriminate];
    match goal with
    | |- context [encodingStage _ _ _ ?w] =>
        destruct (encodingStage_runs P input finalBlob finalMimeType w) as (re & -> & _)
    end;
    intros [= <- _]; cbn [requests log initial app];
    destruct (needsConversion input), (size finalBlob >? sizeLimit); reflexivity.
Qed.

(** ** The request loop: claims C1, C2, C3 and C9 *)

(** C2.  When the remote request fails with status 503 on the first two
    attempts and succeeds with non-empty parseable text on the third, the
    call returns the parsed result after exactly three requests, the two
    failures being followed by waits of 4000 ms and 8000 ms. *)
Theorem retry_twice_then_success (P : Platform) (input : File) (w1 : World)
        (mimeType : string) (data : option string) (e1 e2 : JsError)
        (t : string) (v : JSON.value) :
  prepare P input initial = Some (w1, Ok (mimeType, data)) ->
  generateContent P 0 (mkRequest mimeType data) = Throw e1 -> status e1 = Some 503 ->
  generateContent P 1 (mkRequest mimeType data) = Throw e2 -> status e2 = Some 503 ->
  generateContent P 2 (mkRequest mimeType data) = Ok (mkResponse (Some t)) ->
  t <> EmptyString ->
  cleanAndParseJSON t = Some v ->
  exists w',
    analyzeAudio P input initial = Some (w', Ok v)
    /\ log w' = (log w1 ++ [EvRequest (mkRequest mimeType data); EvWait (2000 * 2 ^ 1);
                            EvRequest (mkRequest mimeType data); EvWait (2000 * 2 ^ 2);
                            EvRequest (mkRequest mimeType data)])%list
    /\ requestCount (log w') = 3%nat
    /\ waits (log w') = [4000; 8000].
Proof.
  intros Hprep H0 Hs1 H1 Hs2 H2 Ht Hv.
  destruct (analyzeAudio_requesting _ _ _ _ _ Hprep) as (Hreq & Hcount & Hwaits & ->).
  assert (Hr : forall e, status e = Some 503 -> isRetryable e = true).
  { intros e He. unfold isRetryable, statusIs. rewrite He. cbn.
    now rewrite !orb_true_r. }
  change (Z.to_nat maxRetries + 1)%nat with (List.length [e1; e2] + 2)%nat.
  rewrite retryLoop_retries; [| lia | cbn; unfold maxRetries; lia |].
  2: { intros [|[|j]] e Hj; rewrite Hreq; cbn in Hj.
       - injection Hj as <-. split; [exact H0 | now apply Hr].
       - injection Hj as <-. split; [exact H1 | now apply Hr].
       - destruct j; discriminate. }
  rewrite retryLoop_step. cbn zeta.
  cbn [afterRetries requests List.length]. rewrite Hreq. cbn [Nat.add Z.add Z.of_nat].
  change (0 + Z.of_nat 2 <? maxRetries) with true. cbn iota.
  rewrite H2. unfold attemptOutcome. cbn [text truthy].
  destruct (String.eqb_spec t EmptyString) as [-> | _]; [contradiction|].
  cbn [negb]. rewrite Hv.
  eexists. split; [reflexivity|]. cbn [log afterRequest afterRetries retriesFrom].
  rewrite <- !app_assoc. split; [reflexivity|].
  rewrite requestCount_app, waits_app, Hcount, Hwaits. split; reflexivity.
Qed.

Lemma retry_twice_then_success_witness :
  exists w',
    analyzeAudio
      (scripted [Throw serviceUnavailable; Throw serviceUnavailable;
                 Ok (mkResponse (Some sampleObject))]) mp3File initial
    = Some (w', Ok (JSON.JObject
                      [([116; 114; 97; 110; 115; 99; 114; 105; 112; 116],
                        JSON.JString [104; 105]);
                       ([115; 117; 109; 109; 97; 114; 121], JSON.JString [115]);
                       ([115; 101; 110; 116; 105; 109; 101; 110; 116],
                        JSON.JString [78; 101; 117; 116; 114; 97; 108]);
                       ([97; 99; 116; 105; 111; 110; 73; 116; 101; 109; 115],
                        JSON.JArray []);
                       ([107; 101; 121; 73; 110; 115; 105; 103; 104; 116; 115],
                        JSON.JArray [])]%N))
    /\ log w'
       = ([EvRead (blob mp3File)]
            ++ [EvRequest (mkRequest "audio/mpeg" (Some "AAAA")); EvWait (2000 * 2 ^ 1);
                EvRequest (mkRequest "audio/mpeg" (Some "AAAA")); EvWait (2000 * 2 ^ 2);
                EvRequest (mkRequest "audio/mpeg" (Some "AAAA"))])%list
    /\ requestCount (log w') = 3%nat
    /\ waits (log w') = [4000; 8000].
Proof.
  apply (retry_twice_then_success
           (scripted [Throw serviceUnavailable; Throw serviceUnavailable;
                      Ok (mkResponse (Some sampleObject))])
           mp3File
           {| requests := 0; log := [EvRead (blob mp3File)] |}
           "audio/mpeg" (Some "AAAA") serviceUnavailable serviceUnavailable
           sampleObject).
  - vm_compute; reflexivity.
  - reflexivity.
  - reflexivity.
  - reflexivity.
  - reflexivity.
  - reflexivity.
  - vm_compute; discriminate.
  - vm_compute; reflexivity.
Defined.

(** C9.  When a remote request succeeds with empty (or absent) response
    text, after any number of retried failures, the call fails on that same
    attempt with the error "Empty response from Gemini": the catch clause
    does not classify it as retryable, and the request is the last event of
    the run, with no backoff wait and no further request after it. *)
Theorem empty_response_is_terminal (P : Platform) (input : File) (w1 : World)
        (mimeType : string) (data : option string)
        (errors : list JsError) (response : Response) :
  prepare P input initial = Some (w1, Ok (mimeType, data)) ->
  Z.of_nat (List.length errors) < maxRetries ->
  (forall j e, nth_error errors j = Some e ->
               generateContent P j (mkRequest mimeType data) = Throw e
               /\ isRetryable e = true) ->
  generateContent P (List.length errors) (mkRequest mimeType data) = Ok response ->
  truthy (text response) = false ->
  exists w',
    analyzeAudio P input initial = Some (w', Throw (Error "Empty response from Gemini"))
    /\ isRetryable (Error "Empty response from Gemini") = false
    /\ log w' = (log w1 ++ retriesFrom (mkRequest mimeType data) 0 (List.length errors)
                   ++ [EvRequest (mkRequest mimeType data)])%list
    /\ requestCount (log w') = S (List.length errors)
    /\ List.length (waits (log w')) = List.length errors.
Proof.
  intros Hprep Hlen Hfail Hresp Hempty.
  destruct (analyzeAudio_requesting _ _ _ _ _ Hprep) as (Hreq & Hcount & Hwaits & ->).
  unfold maxRetries in *.
  replace (Z.to_nat 3 + 1)%nat
    with (List.length errors + S (3 - List.length errors))%nat by lia.
  rewrite retryLoop_retries; [| lia | unfold maxRetries; lia |].
  2: { intros j e Hj. rewrite Hreq. now apply Hfail. }
  rewrite retryLoop_step. cbn zeta. unfold maxRetries.
  replace (0 + Z.of_nat (List.length errors) <? 3) with true
    by (symmetry; apply Z.ltb_lt; lia).
  cbn [afterRetries requests]. rewrite Hreq, Nat.add_0_l, Hresp.
  unfold attemptOutcome. rewrite Hempty.
  change (isRetryable EmptyResponseError) with false. cbn [andb].
  change (rethrown EmptyResponseError) with (Error "Empty response from Gemini").
  eexists. split; [reflexivity|]. split; [reflexivity|].
  cbn [log afterRequest afterRetries]. rewrite <- !app_assoc. split; [reflexivity|].
  rewrite !requestCount_app, !waits_app, !length_app, Hcount, Hwaits.
  cbn [requestCount waits List.length app Nat.add].
  clear. generalize 0. induction (List.length errors) as [|n IH]; intros a.
  - split; reflexivity.
  - cbn [retriesFrom requestCount waits List.length]. destruct (IH (a + 1)) as [H1 H2].
    split; lia.
Qed.

Lemma empty_response_is_terminal_witness :
  exists w',
    analyzeAudio (scripted [Throw serviceUnavailable; Ok (mkResponse (Some EmptyString))])
      mp3File initial
    = Some (w', Throw (Error "Empty response from Gemini"))
    /\ isRetryable (Error "Empty response from Gemini") = false
    /\ log w' = ([EvRead (blob mp3File)]
                   ++ retriesFrom (mkRequest "audio/mpeg" (Some "AAAA")) 0 1
                   ++ [EvRequest (mkRequest "audio/mpeg" (Some "AAAA"))])%list
    /\ requestCount (log w') = 2%nat
    /\ List.length (waits (log w')) = 1%nat.
Proof.
  apply (empty_response_is_terminal
           (scripted [Throw serviceUnavailable; Ok (mkResponse (Some EmptyString))])
           mp3File {| requests := 0; log := [EvRead (blob mp3File)] |}
           "audio/mpeg" (Some "AAAA") [serviceUnavailable]
           (mkResponse (Some EmptyString))).
  - vm_compute; reflexivity.
  - vm_compute; reflexivity.
  - intros [|[|j]] e Hj; cbn in Hj; try discriminate.
    injection Hj as <-. split; reflexivity.
  - reflexivity.
  - reflexivity.
Defined.

(** C1 fails as stated: three failures with status 503 consume the three
    allowed attempts, and the call fails with the error of the third
    request, not with "Analysis failed after multiple attempts.". *)
Lemma exhaustion_rethrows_last_error :
  exists w,
    analyzeAudio
      (scripted [Throw serviceUnavailable; Throw serviceUnavailable;
                 Throw serviceUnavailable]) mp3File initial
    = Some (w, Throw serviceUnavailable)
    /\ Z.of_nat (requestCount (log w)) = maxRetries
    /\ serviceUnavailable <> ExhaustedRetriesError.
Proof.
  eexists. split; [vm_compute; reflexivity|]. split; [reflexivity | discriminate].
Qed.

(** C1, as amended.  When each of the three allowed attempts fails with a
    retryable error (500 or 503), the call makes exactly three requests,
    with waits of 4000 ms and 8000 ms after the first two, and fails with
    the error of the third request as it is (with the invalid-request error
    when its message contains 400); this is never the error "Analysis
    failed after multiple attempts." of the line after the loop. *)
Theorem retries_exhausted (P : Platform) (input : File) (w1 : World)
        (mimeType : string) (data : option string) (e1 e2 e3 : JsError) :
  prepare P input initial = Some (w1, Ok (mimeType, data)) ->
  generateContent P 0 (mkRequest mimeType data) = Throw e1 -> isRetryable e1 = true ->
  generateContent P 1 (mkRequest mimeType data) = Throw e2 -> isRetryable e2 = true ->
  generateContent P 2 (mkRequest mimeType data) = Throw e3 -> isRetryable e3 = true ->
  exists w',
    analyzeAudio P input initial
    = Some (w', Throw (if messageIncludes "400" e3 then InvalidRequestError else e3))
    /\ (if messageIncludes "400" e3 then InvalidRequestError else e3)
       <> ExhaustedRetriesError
    /\ log w' = (log w1 ++ [EvRequest (mkRequest mimeType data); EvWait 4000;
                            EvRequest (mkRequest mimeType data); EvWait 8000;
                            EvRequest (mkRequest mimeType data)])%list
    /\ requestCount (log w') = 3%nat.
Proof.
  intros Hprep H0 Hr1 H1 Hr2 H2 Hr3.
  destruct (analyzeAudio_requesting _ _ _ _ _ Hprep) as (Hreq & Hcount & Hwaits & ->).
  change (Z.to_nat maxRetries + 1)%nat with (List.length [e1; e2] + 2)%nat.
  rewrite retryLoop_retries; [| lia | cbn; unfold maxRetries; lia |].
  2: { intros [|[|j]] e Hj; rewrite Hreq; cbn in Hj.
       - injection Hj as <-. split; [exact H0 | exact Hr1].
       - injection Hj as <-. split; [exact H1 | exact Hr2].
       - destruct j; discriminate. }
  rewrite retryLoop_step. cbn zeta.
  cbn [afterRetries requests List.length]. rewrite Hreq. cbn [Nat.add Z.add Z.of_nat].
  change (0 + Z.of_nat 2 <? maxRetries) with true. cbn iota.
  rewrite H2. cbn [attemptOutcome]. rewrite Hr3.
  change (0 + Z.of_nat 2 <? maxRetries - 1) with false. cbn [andb].
  eexists. split; [reflexivity|]. split.
  - destruct (messageIncludes "400" e3); [discriminate|].
    intros ->. discriminate Hr3.
  - cbn [log afterRequest afterRetries retriesFrom].
    rewrite <- !app_assoc. split; [reflexivity|].
    rewrite requestCount_app, Hcount. reflexivity.
Qed.

Lemma retries_exhausted_witness :
  exists w',
    analyzeAudio
      (scripted [Throw serviceUnavailable; Throw serviceUnavailable;
                 Throw serviceUnavailable]) mp3File initial
    = Some (w', Throw serviceUnavailable)
    /\ serviceUnavailable <> ExhaustedRetriesError
    /\ log w' = ([EvRead (blob mp3File)]
                   ++ [EvRequest (mkRequest "audio/mpeg" (Some "AAAA")); EvWait 4000;
                       EvRequest (mkRequest "audio/mpeg" (Some "AAAA")); EvWait 8000;
                       EvRequest (mkRequest "audio/mpeg" (Some "AAAA"))])%list
    /\ requestCount (log w') = 3%nat.
Proof.
  apply (retries_exhausted
           (scripted [Throw serviceUnavailable; Throw serviceUnavailable;
                      Throw serviceUnavailable])
           mp3File {| requests := 0; log := [EvRead (blob mp3File)] |}
           "audio/mpeg" (Some "AAAA")
           serviceUnavailable serviceUnavailable serviceUnavailable).
  - vm_compute; reflexivity.
  - reflexivity.
  - reflexivity.
  - reflexivity.
  - reflexivity.
  - reflexivity.
  - reflexivity.
Defined.

(** C3 at the failing input: a first request rejected with status 400 and
    the message "Bad Request" ends the call after one request, but with the
    error as it was thrown, not with the invalid-request error. *)
Lemma status_400_is_rethrown_unchanged :
  exists w,
    analyzeAudio (scripted [Throw badRequest]) mp3File initial
    = Some (w, Throw badRequest)
    /\ status badRequest = Some 400
    /\ requestCount (log w) = 1%nat
    /\ badRequest <> InvalidRequestError.
Proof.
  eexists. split; [vm_compute; reflexivity|].
  split; [reflexivity|]. split; [reflexivity | discriminate].
Qed.

(** What the catch clause does detect: an error that is not retryable and
    whose message contains 400 fails the call on the first attempt with the
    invalid-request error, after a single request. *)
Lemma invalid_request_by_message (P : Platform) (input : File) (w1 : World)
      (mimeType : string) (data : option string) (e : JsError) :
  prepare P input initial = Some (w1, Ok (mimeType, data)) ->
  generateContent P 0 (mkRequest mimeType data) = Throw e ->
  isRetryable e = false ->
  messageIncludes "400" e = true ->
  analyzeAudio P input initial
  = Some (afterRequest w1 (mkRequest mimeType data), Throw InvalidRequestError).
Proof.
  intros Hprep H0 Hr H400.
  destruct (analyzeAudio_requesting _ _ _ _ _ Hprep) as (Hreq & _ & _ & ->).
  change (Z.to_nat maxRetries + 1)%nat with 4%nat.
  rewrite retryLoop_step. cbn zeta. change (0 <? maxRetries) with true. cbn iota.
  rewrite Hreq, H0. cbn [attemptOutcome]. rewrite Hr. cbn [andb].
  unfold rethrown. now rewrite H400.
Qed.

(** ** The size check and the conversion decision: claims C4 and C5 *)

(** C4.  Once the conversion stage has produced the final blob, a size
    above 10 MiB (10 * 1024 * 1024 bytes) fails the call with the size-limit
    error, whose message carries the measured size in MiB to one decimal,
    and nothing is read or requested; any other size, 10 MiB itself
    included, passes the check and the blob is read for encoding. *)
Theorem size_limit_check (P : Platform) (input : File) (w1 : World)
        (finalBlob : Blob) (finalMimeType : string) :
  truthy (API_KEY P) = true ->
  conversionStage P input initial = Some (w1, Ok (finalBlob, finalMimeType)) ->
  exists w' r,
    analyzeAudio P input initial = Some (w', r)
    /\ if size finalBlob >? 10 * 1024 * 1024 then
         r = Throw (Error ("Processed file size (" ++ Str.toFixed1_MiB (size finalBlob)
                             ++ "MB) exceeds the 10MB limit. Please upload a shorter recording."))
         /\ w' = w1 /\ reads (log w') = [] /\ requestCount (log w') = 0%nat
       else reads (log w') = [finalBlob].
Proof.
  intros Hkey Hconv.
  assert (Hw1 : reads (log w1) = [] /\ requestCount (log w1) = 0%nat).
  { destruct (conversionStage_runs P input initial) as (rc & Hrun & _).
    rewrite Hrun in Hconv. injection Hconv as <- _. cbn [log initial app].
    destruct (needsConversion input); split; reflexivity. }
  destruct Hw1 as [Hreads Hcount].
  unfold analyzeAudio, prepare, bind. rewrite Hkey. cbn [negb]. rewrite Hconv.
  destruct (encodingStage_runs P input finalBlob finalMimeType w1) as (re & -> & Hre).
  change (10 * 1024 * 1024) with sizeLimit.
  destruct (size finalBlob >? sizeLimit).
  - rewrite (Hre eq_refl). eexists _, _. split; [reflexivity|].
    rewrite app_nil_r. destruct w1; cbn [log] in *. repeat split; assumption.
  - destruct re as [[mimeType data] | e].
    + edestruct (retryLoop_runs P mimeType data (Z.to_nat maxRetries + 1) 0)
        as (w' & r & evs & -> & Hlog & _ & Hr); [lia | cbn; lia |].
      exists w', r. split; [reflexivity|].
      rewrite Hlog. cbn [log]. rewrite !reads_app, Hreads, Hr. reflexivity.
    + eexists _, _. split; [reflexivity|].
      cbn [log]. rewrite reads_app, Hreads. reflexivity.
Qed.

Lemma size_limit_check_witness :
  exists w' r,
    analyzeAudio (scripted []) bigWavFile initial = Some (w', r)
    /\ r = Throw (Error ("Processed file size (" ++ Str.toFixed1_MiB 10485761
                           ++ "MB) exceeds the 10MB limit. Please upload a shorter recording."))
    /\ w' = initial /\ reads (log w') = [] /\ requestCount (log w') = 0%nat.
Proof.
  apply (size_limit_check (scripted []) bigWavFile initial (blob bigWavFile) "audio/wav").
  - reflexivity.
  - reflexivity.
Defined.

(** The boundary itself: a file of exactly 10 MiB is read and requested. *)
Lemma ten_MiB_is_accepted :
  exists w r,
    analyzeAudio (scripted []) tenMiBWavFile initial = Some (w, r)
    /\ size (blob tenMiBWavFile) = 10 * 1024 * 1024
    /\ log w = [EvRead (blob tenMiBWavFile);
                EvRequest (mkRequest "audio/wav" (Some "AAAA"))].
Proof.
  eexists _, _. split; [vm_compute; reflexivity|]. split; reflexivity.
Qed.

Lemma needsConversion_spec (input : File) :
  needsConversion input = true <->
  contains "mp4" (type (blob input))
  \/ endsInOneOf mp4Endings (name input)
  \/ endsInOneOf m4aEndings (name input).
Proof.
  unfold needsConversion. rewrite !orb_true_iff, includes_spec.
  rewrite (endsWith_lower ".mp4" mp4Endings) by apply lower_mp4.
  rewrite (endsWith_lower ".m4a" m4aEndings) by apply lower_m4a.
  tauto.
Qed.

(** C5.  The conversion path is taken exactly when the declared type
    contains mp4 or the file name ends in .mp4 or .m4a in any letter case;
    a name ending in .mp3 or .wav (in any case) with a declared type
    without mp4 never takes it; and when it is not taken, the stage hands
    over the original blob and its declared type, and logs nothing. *)
Theorem conversion_decision (P : Platform) (input : File) :
  truthy (API_KEY P) = true ->
  (needsConversion input = true <->
   contains "mp4" (type (blob input))
   \/ endsInOneOf mp4Endings (name input)
   \/ endsInOneOf m4aEndings (name input))
  /\ (endsIn ".mp3" (Str.toLowerCase (name input))
      \/ endsIn ".wav" (Str.toLowerCase (name input)) ->
      ~ contains "mp4" (type (blob input)) ->
      needsConversion input = false)
  /\ (exists w r,
         analyzeAudio P input initial = Some (w, r)
         /\ conversions (log w) = if needsConversion input then [input] else [])
  /\ (exists r,
         conversionStage P input initial
         = Some ({| requests := 0;
                    log := if needsConversion input then [EvConvert input] else [] |}, r)
         /\ if needsConversion input then True
            else r = Ok (blob input, type (blob input))).
Proof.
  intros Hkey. split; [apply needsConversion_spec|]. split; [|split].
  - intros Hext Htype. unfold needsConversion.
    apply not_true_is_false. rewrite !orb_true_iff, includes_spec, !endsWith_spec.
    intros [[Hc | H4] | H4]; [now apply Htype | |];
      destruct Hext as [H3 | H3];
      pose proof (endsIn_same_length _ _ _ H3 H4 eq_refl); discriminate.
  - unfold analyzeAudio, prepare, bind. rewrite Hkey. cbn [negb].
    destruct (conversionStage_runs P input initial) as (rc & -> & _).
    cbn [log initial app requests].
    assert (Hc : conversions (if needsConversion input then [EvConvert input] else [])
                 = if needsConversion input then [input] else [])
      by (destruct (needsConversion input); reflexivity).
    destruct rc as [[finalBlob finalMimeType] | e].
    2: { eexists _, _. split; [reflexivity | exact Hc]. }
    match goal with
    | |- context [encodingStage _ _ _ ?w] =>
        destruct (encodingStage_runs P input finalBlob finalMimeType w) as (re & -> & _)
    end.
    cbn [log requests].
    destruct re as [[mimeType data] | e].
    + match goal with
      | |- context [retryLoop ?f _ _ _ _ ?w] =>
          destruct (retryLoop_runs P mimeType data f 0 w)
            as (w' & r & evs & -> & Hlog & Hev & _); [lia | cbn; lia |]
      end.
      exists w', r. split; [reflexivity|].
      rewrite Hlog. cbn [log]. rewrite !conversions_app, Hev, Hc.
      destruct (needsConversion input), (size finalBlob >? sizeLimit); reflexivity.
    + eexists _, _. split; [reflexivity|].
      cbn [log]. rewrite conversions_app, Hc.
      destruct (needsConversion input), (size finalBlob >? sizeLimit); reflexivity.
  - destruct (conversionStage_runs P input initial) as (rc & Hrun & Hrc).
    exists rc. split; [exact Hrun|].
    destruct (needsConversion input); [exact I | now apply Hrc].
Qed.

Lemma conversion_decision_witness :
  (needsConversion mp3File = true <->
   contains "mp4" (type (blob mp3File))
   \/ endsInOneOf mp4Endings (name mp3File)
   \/ endsInOneOf m4aEndings (name mp3File))
  /\ (endsIn ".mp3" (Str.toLowerCase (name mp3File))
      \/ endsIn ".wav" (Str.toLowerCase (name mp3File)) ->
      ~ contains "mp4" (type (blob mp3File)) ->
      needsConversion mp3File = false)
  /\ (exists w r,
         analyzeAudio (scripted []) mp3File initial = Some (w, r)
         /\ conversions (log w) = [])
  /\ (exists r,
         conversionStage (scripted []) mp3File initial
         = Some ({| requests := 0; log := [] |}, r)
         /\ r = Ok (blob mp3File, type (blob mp3File))).
Proof.
  apply (conversion_decision (scripted []) mp3File).
  reflexivity.
Defined.

(** The other side of the decision, on a file named in capitals. *)
Lemma m4a_is_converted :
  needsConversion (mkFile "CALL.M4A" (mkBlob 1000 "audio/x-m4a" (UserFile 3))) = true
  /\ exists w r,
       analyzeAudio (scripted []) (mkFile "CALL.M4A" (mkBlob 1000 "audio/x-m4a" (UserFile 3)))
         initial = Some (w, r)
       /\ conversions (log w) = [mkFile "CALL.M4A" (mkBlob 1000 "audio/x-m4a" (UserFile 3))].
Proof.
  split; [reflexivity|]. eexists _, _. split; vm_compute; reflexivity.
Qed.


(** ** The fence pattern: claim C8 *)

Lemma startsWith_app (w s : string) : Str.startsWith w (w ++ s) = true.
Proof. apply startsWith_spec. now exists s. Qed.

(** Only the first [length w] characters matter. *)
Lemma startsWith_app_enough (w s y : string) :
  (String.length w <= String.length s)%nat ->
  Str.startsWith w (s ++ y) = Str.startsWith w s.
Proof.
  revert s; induction w as [|c w IH]; intros s Hlen; [reflexivity|].
  destruct s as [|d s]; [cbn in Hlen; lia|].
  cbn [Str.startsWith append]. f_equal. apply IH. cbn in Hlen. lia.
Qed.

Section Matching.

Context {R : Type}.

Lemma run_lit_app (w s : string) (cap : option string)
      (k : string -> option string -> option R) :
  RegExp.run (RegExp.lit w) (w ++ s) cap k = k s cap.
Proof.
  induction w as [|c w IH]; cbn; [reflexivity|].
  now rewrite Ascii.eqb_refl.
Qed.

Lemma run_lit_fail (w s : string) (cap : option string)
      (k : string -> option string -> option R) :
  Str.startsWith w s = false -> RegExp.run (RegExp.lit w) s cap k = None.
Proof.
  revert s; induction w as [|c w IH]; intros s H; [discriminate|].
  destruct s as [|d s]; [reflexivity|].
  cbn in *. destruct (Ascii.eqb d c) eqn:Hdc.
  - apply Ascii.eqb_eq in Hdc. subst d. rewrite Ascii.eqb_refl in H. now apply IH.
  - reflexivity.
Qed.

(** The greedy star takes all the leading white space when the rest of the
    pattern then succeeds. *)
Lemma star_space_all (ws rest : string) (k : string -> option R) (r : R) :
  allSpace ws = true ->
  dropSpaces rest = rest ->
  k rest = Some r ->
  RegExp.star RegExp.Space (ws ++ rest) k = Some r.
Proof.
  intros Hws Hrest Hk. induction ws as [|c ws IH].
  - cbn [append]. destruct rest as [|d rest]; [exact Hk|].
    cbn [RegExp.star RegExp.accepts]. cbn [dropSpaces] in Hrest.
    destruct (RegExp.isSpace d); [|exact Hk].
    exfalso. clear -Hrest.
    assert (Hlen : forall s, (String.length (dropSpaces s) <= String.length s)%nat).
    { induction s as [|x s IHs]; cbn; [lia|]. destruct (RegExp.isSpace x); cbn; lia. }
    specialize (Hlen rest). rewrite Hrest in Hlen. cbn in Hlen. lia.
  - cbn in Hws. apply andb_true_iff in Hws. destruct Hws as [Hc Hws].
    cbn [append RegExp.star RegExp.accepts]. rewrite Hc, (IH Hws). reflexivity.
Qed.

(** [\s*] followed by a word that starts with a character that is not white
    space: the word must follow the leading white space. *)
Lemma star_space_word (w s : string) (cap : option string)
      (k : string -> option string -> option R) :
  (forall c rest, RegExp.isSpace c = true -> Str.startsWith w (String c rest) = false) ->
  Str.startsWith w (dropSpaces s) = false ->
  RegExp.star RegExp.Space s (fun s' => RegExp.run (RegExp.lit w) s' cap k) = None.
Proof.
  intros Hw. induction s as [|c s IH]; intros Hdrop.
  - cbn [RegExp.star]. now apply run_lit_fail.
  - cbn [RegExp.star RegExp.accepts]. cbn [dropSpaces] in Hdrop.
    destruct (RegExp.isSpace c) eqn:Hc.
    + rewrite (IH Hdrop). apply run_lit_fail. now apply Hw.
    + now apply run_lit_fail.
Qed.

(** The lazy star stops at the first position where the rest of the
    pattern succeeds. *)
Lemma starLazy_any_first (a rest : string) (k : string -> option R) (r : R) :
  (forall b1 b2, a = b1 ++ b2 -> b2 <> EmptyString -> k (b2 ++ rest) = None) ->
  k rest = Some r ->
  RegExp.starLazy RegExp.AnyChar (a ++ rest) k = Some r.
Proof.
  intros Hnot Hk. induction a as [|c a IH].
  - cbn [append]. destruct rest; cbn [RegExp.starLazy]; now rewrite Hk.
  - cbn [append RegExp.starLazy RegExp.accepts].
    pose proof (Hnot EmptyString (String c a) eq_refl ltac:(discriminate)) as H0.
    cbn [append] in H0. rewrite H0.
    apply IH. intros b1 b2 -> Hb2. now apply (Hnot (String c b1) b2).
Qed.

End Matching.

Lemma dropSpaces_all (ws rest : string) :
  allSpace ws = true -> dropSpaces (ws ++ rest) = dropSpaces rest.
Proof.
  induction ws as [|c ws IH]; intros H; [reflexivity|].
  cbn in H. apply andb_true_iff in H. destruct H as [Hc Hws].
  cbn [append dropSpaces]. rewrite Hc. now apply IH.
Qed.

Lemma substring_app_prefix (a b : string) :
  substring 0 (String.length (a ++ b) - String.length b) (a ++ b) = a.
Proof.
  rewrite sapp_length. replace (String.length a + String.length b - String.length b)%nat
    with (String.length a) by lia.
  induction a as [|c a IH]; cbn.
  - destruct b; reflexivity.
  - now rewrite IH.
Qed.

Lemma includes_tail (w : string) (c : ascii) (s : string) :
  Str.includes w (String c s) = false ->
  Str.startsWith w (String c s) = false /\ Str.includes w s = false.
Proof.
  cbn [Str.includes]. destruct (Str.startsWith w (String c s)); [discriminate | auto].
Qed.

(** No closing fence can start inside an object that holds no triple
    backtick: after any non-empty tail of the object, white space dropped,
    the text does not start with the fence. *)
Lemma no_fence_inside (b rest : string) :
  Str.includes "```" (b ++ "}") = false ->
  Str.startsWith "```" (dropSpaces ((b ++ "}") ++ rest)) = false.
Proof.
  induction b as [|c b IH]; intros Hinc.
  - reflexivity.
  - cbn [append] in *. apply includes_tail in Hinc. destruct Hinc as [Hst Hinc].
    cbn [dropSpaces]. destruct (RegExp.isSpace c) eqn:Hc; [now apply IH|].
    destruct b as [|d [|e b]].
    + cbn [Str.startsWith append]. change (Ascii.eqb "`" "}") with false.
      cbn [andb]. now rewrite andb_false_r.
    + cbn [Str.startsWith append]. change (Ascii.eqb "`" "}") with false.
      cbn [andb]. now rewrite !andb_false_r.
    + etransitivity; [|exact Hst].
      apply (startsWith_app_enough "```" (String c (String d (String e b) ++ "}")) rest).
      cbn. lia.
Qed.

(** Where the pattern cannot match, the search moves on. *)
Lemma exec_no_fence (s : string) :
  Str.includes "```" s = false -> RegExp.exec codeBlockRegex s = None.
Proof.
  induction s as [|c s IH]; intros H.
  - reflexivity.
  - apply includes_tail in H. destruct H as [Hst Hinc].
    cbn [RegExp.exec]. unfold codeBlockRegex at 1. cbn [RegExp.run].
    rewrite run_lit_fail by exact Hst. now apply IH.
Qed.

Lemma exec_skip_prefix (pre s : string) :
  Str.includes "```" (pre ++ "``") = false ->
  RegExp.exec codeBlockRegex (pre ++ "```" ++ s) = RegExp.exec codeBlockRegex ("```" ++ s).
Proof.
  induction pre as [|c pre IH]; intros H; [reflexivity|].
  cbn [append] in H. apply includes_tail in H. destruct H as [Hst Hinc].
  change ((String c pre) ++ "```" ++ s) with (String c (pre ++ "```" ++ s)).
  cbn [RegExp.exec]. unfold codeBlockRegex at 1. cbn [RegExp.run].
  rewrite run_lit_fail; [now apply IH|].
  etransitivity; [|exact Hst].
  replace (String c (pre ++ "```" ++ s)) with ((String c pre ++ "``") ++ "`" ++ s)
    by (now rewrite sapp_assoc).
  apply startsWith_app_enough. cbn [append String.length].
  rewrite sapp_length. cbn. lia.
Qed.

Lemma exec_here (r : RegExp.re) (s : string) (cap : option string) :
  RegExp.run r s None (fun _ c => Some c) = Some cap -> RegExp.exec r s = Some cap.
Proof. intros H. destruct s; cbn [RegExp.exec]; now rewrite H. Qed.

Lemma includes_suffix (w b1 b2 : string) :
  Str.includes w (b1 ++ b2) = false -> Str.includes w b2 = false.
Proof.
  induction b1 as [|c b1 IH]; intros H; [exact H|].
  cbn [append] in H. apply includes_tail in H. now apply IH.
Qed.

Lemma suffix_keeps_last (x b1 b2 : string) (c : ascii) :
  x ++ String c EmptyString = b1 ++ b2 -> b2 <> EmptyString ->
  exists b, b2 = b ++ String c EmptyString.
Proof.
  revert b1; induction x as [|d x IH]; intros b1 H Hne.
  - destruct b1 as [|e b1]; cbn [append] in H.
    + exists EmptyString. now rewrite <- H.
    + injection H as _ H. destruct b1; [|discriminate].
      cbn in H. congruence.
  - destruct b1 as [|e b1]; cbn [append] in H.
    + exists (String d x). now rewrite <- H.
    + injection H as _ H. now apply (IH b1).
Qed.

Lemma space_is_not (c d : ascii) :
  RegExp.isSpace c = true -> RegExp.isSpace d = false -> Ascii.eqb d c = false.
Proof.
  intros Hc Hd. destruct (Ascii.eqb_spec d c) as [-> | _]; [congruence | reflexivity].
Qed.

(** At an opening fence, the pattern captures the object. *)
Lemma run_fence (tag ws1 body ws2 post : string) :
  tag = EmptyString \/ tag = "json" ->
  allSpace ws1 = true -> allSpace ws2 = true ->
  Str.includes "```" (objectText body) = false ->
  RegExp.run codeBlockRegex
    ("```" ++ tag ++ ws1 ++ objectText body ++ ws2 ++ "```" ++ post)
    None (fun _ cap => Some cap)
  = Some (Some (objectText body)).
Proof.
  intros Htag Hws1 Hws2 Hinc.
  set (J := objectText body) in *.
  set (R := ws2 ++ "```" ++ post).
  unfold codeBlockRegex. cbn [RegExp.run]. rewrite run_lit_app.
  set (K := fun s' : string =>
              RegExp.star RegExp.Space s'
                (fun s'0 =>
                   RegExp.starLazy RegExp.AnyChar s'0
                     (fun s'1 =>
                        RegExp.star RegExp.Space s'1
                          (fun s'2 =>
                             RegExp.run (RegExp.lit "```") s'2
                               (Some (substring 0 (String.length s'0 - String.length s'1) s'0))
                               (fun _ cap => Some cap))))).
  assert (HK : K (ws1 ++ J ++ R) = Some (Some J)).
  { unfold K. apply star_space_all; [exact Hws1 | reflexivity |].
    apply starLazy_any_first.
    - intros b1 b2 Hsplit Hne.
      apply star_space_word.
      + intros c rest Hc. cbn [Str.startsWith].
        rewrite (space_is_not c "`" Hc eq_refl). reflexivity.
      + unfold J, objectText in Hsplit.
        change ("{" ++ body ++ "}") with (("{" ++ body) ++ "}") in Hsplit.
        destruct (suffix_keeps_last _ _ _ _ Hsplit Hne) as [b ->].
        apply no_fence_inside.
        apply (includes_suffix _ b1). rewrite <- Hsplit. exact Hinc.
    - unfold R. rewrite (star_space_all ws2 ("```" ++ post) _ (Some J) Hws2 eq_refl).
      + reflexivity.
      + rewrite run_lit_app. f_equal. f_equal.
        apply (substring_app_prefix J (ws2 ++ "```" ++ post)). }
  destruct Htag as [-> | ->].
  - cbn [append]. rewrite run_lit_fail; [exact HK|].
    destruct ws1 as [|c ws1]; [reflexivity|].
    cbn in Hws1. apply andb_true_iff in Hws1. destruct Hws1 as [Hc _].
    cbn [append Str.startsWith]. now rewrite (space_is_not c "j" Hc eq_refl).
  - rewrite run_lit_app.
    change (match K (ws1 ++ J ++ R) with
            | Some r => Some r
            | None => K ("json" ++ ws1 ++ J ++ R)
            end = Some (Some J)).
    now rewrite HK.
Qed.

(** The text handed to [JSON.parse] for a fenced object whose opening fence
    is the first triple backtick of the response. *)
Lemma cleanText_fenced (pre tag ws1 body ws2 post : string) :
  tag = EmptyString \/ tag = "json" ->
  allSpace ws1 = true -> allSpace ws2 = true ->
  Str.includes "```" (pre ++ "``") = false ->
  Str.includes "```" (objectText body) = false ->
  cleanText (fenced pre tag ws1 body ws2 post) = Some (objectText body).
Proof.
  intros Htag Hws1 Hws2 Hpre Hinc. unfold cleanText, fenced.
  rewrite exec_skip_prefix by exact Hpre.
  now rewrite (exec_here _ _ _ (run_fence tag ws1 body ws2 post Htag Hws1 Hws2 Hinc)).
Qed.

(** C8, as amended.  For a response whose first triple backtick opens a
    fence (with or without the json tag) around an object text that holds
    no triple backtick itself, the parser's result is that of parsing the
    object text; for the same object text without a fence the parser
    parses the whole text: both results are the same. *)
Theorem fence_is_transparent (pre tag ws1 body ws2 post : string) :
  tag = EmptyString \/ tag = "json" ->
  allSpace ws1 = true -> allSpace ws2 = true ->
  ~ contains "```" (pre ++ "``") ->
  ~ contains "```" (objectText body) ->
  cleanAndParseJSON (fenced pre tag ws1 body ws2 post) = JSON.parse (objectText body)
  /\ cleanAndParseJSON (objectText body) = JSON.parse (objectText body)
  /\ cleanAndParseJSON (fenced pre tag ws1 body ws2 post)
     = cleanAndParseJSON (objectText body).
Proof.
  intros Htag Hws1 Hws2 Hpre Hinc.
  rewrite <- includes_spec in Hpre, Hinc.
  apply not_true_is_false in Hpre. apply not_true_is_false in Hinc.
  assert (H1 : cleanAndParseJSON (fenced pre tag ws1 body ws2 post)
               = JSON.parse (objectText body)).
  { unfold cleanAndParseJSON. now rewrite cleanText_fenced. }
  assert (H2 : cleanAndParseJSON (objectText body) = JSON.parse (objectText body)).
  { unfold cleanAndParseJSON, cleanText. now rewrite exec_no_fence. }
  split; [exact H1|]. split; [exact H2|]. now rewrite H1, H2.
Qed.

Lemma fence_is_transparent_witness :
  cleanAndParseJSON ("```json" ++ nl ++ sampleObject ++ nl ++ "```")
  = JSON.parse sampleObject
  /\ cleanAndParseJSON sampleObject = JSON.parse sampleObject
  /\ cleanAndParseJSON ("```json" ++ nl ++ sampleObject ++ nl ++ "```")
     = cleanAndParseJSON sampleObject.
Proof.
  apply (fence_is_transparent EmptyString "json" nl
           (quoted "transcript" ++ ":" ++ quoted "hi" ++ ","
              ++ quoted "summary" ++ ":" ++ quoted "s" ++ ","
              ++ quoted "sentiment" ++ ":" ++ quoted "Neutral" ++ ","
              ++ quoted "actionItems" ++ ":[],"
              ++ quoted "keyInsights" ++ ":[]")
           nl EmptyString).
  - right; reflexivity.
  - reflexivity.
  - reflexivity.
  - rewrite <- includes_spec. vm_compute. discriminate.
  - rewrite <- includes_spec. vm_compute. discriminate.
Defined.

(** C8 fails as stated.  The object with a member holding three backticks
    is valid JSON, but inside a json fence the pattern stops at those
    backticks and the parser throws; an object holding two triple backticks
    is not parsed whole even without a fence; and a response with a fenced
    note before the fenced object is parsed from the note. *)
Lemma fence_breaks_on_backticks :
  ((exists v, JSON.parse backtickObject = Some v)
   /\ cleanText ("```json" ++ nl ++ backtickObject ++ nl ++ "```")
      = Some ("{" ++ quoted "a" ++ ":" ++ dq)
   /\ cleanAndParseJSON ("```json" ++ nl ++ backtickObject ++ nl ++ "```") = None
   /\ cleanAndParseJSON ("```json" ++ nl ++ backtickObject ++ nl ++ "```")
      <> JSON.parse backtickObject)
  /\ ((exists v, JSON.parse (objectText (quoted "a" ++ ":" ++ quoted "``` x ```")) = Some v)
      /\ cleanAndParseJSON (objectText (quoted "a" ++ ":" ++ quoted "``` x ```")) = None)
  /\ ((exists v, JSON.parse sampleObject = Some v)
      /\ cleanText ("```" ++ nl ++ "note" ++ nl ++ "```" ++ nl
                      ++ "```json" ++ nl ++ sampleObject ++ nl ++ "```")
         = Some "note"
      /\ cleanAndParseJSON ("```" ++ nl ++ "note" ++ nl ++ "```" ++ nl
                              ++ "```json" ++ nl ++ sampleObject ++ nl ++ "```")
         = None).
Proof.
  split; [|split].
  - split; [eexists; vm_compute; reflexivity|].
    split; [vm_compute; reflexivity|].
    split; [vm_compute; reflexivity | vm_compute; discriminate].
  - split; [eexists; vm_compute; reflexivity | vm_compute; reflexivity].
  - split; [eexists; vm_compute; reflexivity|].
    split; vm_compute; reflexivity.
Qed.

(** * Further properties of the service *)

(** ** The shape of every run *)

Lemma In_retriesFrom (request : Request) (n : nat) :
  forall (attempt : Z) (ev : Event),
    In ev (retriesFrom request attempt n) ->
    ev = EvRequest request \/ exists ms, ev = EvWait ms.
Proof.
  induction n as [|n IH]; intros attempt ev Hin; [destruct Hin|].
  cbn [retriesFrom] in Hin. destruct Hin as [<- | [<- | Hin]].
  - now left.
  - right. now eexists.
  - now apply (IH (attempt + 1)).
Qed.

Lemma requestCount_retriesFrom (request : Request) (n : nat) (attempt : Z) :
  requestCount (retriesFrom request attempt n) = n.
Proof.
  revert attempt; induction n as [|n IH]; intros attempt; [reflexivity|].
  cbn [retriesFrom requestCount]. now rewrite IH.
Qed.

Lemma reads_retriesFrom (request : Request) (n : nat) (attempt : Z) :
  reads (retriesFrom request attempt n) = [].
Proof.
  revert attempt; induction n as [|n IH]; intros attempt; [reflexivity|].
  cbn [retriesFrom reads]. apply IH.
Qed.

Lemma conversions_retriesFrom (request : Request) (n : nat) (attempt : Z) :
  conversions (retriesFrom request attempt n) = [].
Proof.
  revert attempt; induction n as [|n IH]; intros attempt; [reflexivity|].
  cbn [retriesFrom conversions]. apply IH.
Qed.

(** From an attempt that is still allowed, the loop settles after some
    retried failures and one last request. *)
Lemma retryLoop_shape (P : Platform) (mimeType : string) (data : option string) :
  forall (fuel : nat) (attempt : Z) (w : World),
    0 <= attempt < maxRetries ->
    (Z.to_nat (maxRetries - attempt) < fuel)%nat ->
    exists (n : nat) (r : Result JSON.value),
      attempt + Z.of_nat n < maxRetries
      /\ retryLoop fuel P mimeType data attempt w
         = Some ({| requests := requests w + n + 1;
                    log := (log w ++ retriesFrom (mkRequest mimeType data) attempt n
                              ++ [EvRequest (mkRequest mimeType data)])%list |}, r).
Proof.
  induction fuel as [|fuel IH]; intros attempt w Hatt Hfuel; [lia|].
  rewrite retryLoop_step. cbn zeta. unfold maxRetries in *.
  replace (attempt <? 3) with true by (symmetry; apply Z.ltb_lt; lia).
  destruct (attemptOutcome _) as [v | error].
  { exists 0%nat, (Ok v). split; [lia|]. unfold afterRequest. cbn [retriesFrom app].
    do 3 f_equal. lia. }
  destruct (isRetryable error && (attempt <? 3 - 1)) eqn:Hretry.
  2: { exists 0%nat, (Throw (rethrown error)). split; [lia|].
       unfold afterRequest. cbn [retriesFrom app]. do 3 f_equal. lia. }
  apply andb_true_iff in Hretry. destruct Hretry as [_ Hlast]. apply Z.ltb_lt in Hlast.
  edestruct (IH (attempt + 1)) as (n & r & Hn & Hrun); [lia | lia |].
  rewrite Hrun. exists (S n), r. split; [lia|].
  cbn [requests log afterRequest retriesFrom]. f_equal. f_equal. f_equal; [lia|].
  rewrite <- !app_assoc. reflexivity.
Qed.

(** Everything before the loop settles, issues no request and no wait,
    converts at most once and reads at most one blob. *)
Lemma prepare_shape (P : Platform) (input : File) :
  exists (w1 : World) (r1 : Result (string * option string)) (blobs : list Blob),
    prepare P input initial = Some (w1, r1)
    /\ requests w1 = 0%nat
    /\ log w1 = ((if truthy (API_KEY P) && needsConversion input
                  then [EvConvert input] else []) ++ map EvRead blobs)%list
    /\ (List.length blobs <= 1)%nat
    /\ (blobs = [] -> exists e, r1 = Throw e).
Proof.
  unfold prepare, bind.
  destruct (truthy (API_KEY P)) eqn:Hkey; cbn [negb andb].
  2: { eexists _, _, []. split; [reflexivity|]. split; [reflexivity|].
       split; [reflexivity|]. split; [cbn; lia | now eexists]. }
  destruct (conversionStage_runs P input initial) as (rc & -> & _).
  cbn [log initial app requests].
  destruct rc as [[finalBlob finalMimeType] | e].
  2: { eexists _, _, []. rewrite app_nil_r. split; [reflexivity|].
       split; [reflexivity|]. split; [reflexivity|]. split; [cbn; lia | now eexists]. }
  match goal with
  | |- context [encodingStage _ _ _ ?w] =>
      destruct (encodingStage_runs P input finalBlob finalMimeType w) as (re & -> & Hre)
  end.
  cbn [log requests].
  destruct (size finalBlob >? sizeLimit).
  - eexists _, _, []. split; [reflexivity|]. split; [reflexivity|].
    split; [reflexivity|]. split; [cbn; lia|].
    intros _. rewrite (Hre eq_refl). now eexists.
  - eexists _, _, [finalBlob]. split; [reflexivity|]. split; [reflexivity|].
    split; [reflexivity|]. split; [cbn; lia | discriminate].
Qed.

Lemma waits_retriesFrom (request : Request) (n : nat) :
  (n <= 2)%nat -> waits (retriesFrom request 0 n) = firstn n [4000; 8000].
Proof.
  intros Hn. destruct n as [|[|[|n]]]; [reflexivity | reflexivity | reflexivity | lia].
Qed.

Lemma requestCount_reads (blobs : list Blob) : requestCount (map EvRead blobs) = 0%nat.
Proof. induction blobs as [|b blobs IH]; [reflexivity | exact IH]. Qed.

Lemma waits_reads (blobs : list Blob) : waits (map EvRead blobs) = [].
Proof. induction blobs as [|b blobs IH]; [reflexivity | exact IH]. Qed.

Lemma reads_reads (blobs : list Blob) : reads (map EvRead blobs) = blobs.
Proof. induction blobs as [|b blobs IH]; [reflexivity | cbn; now rewrite IH]. Qed.

Lemma conversions_reads (blobs : list Blob) : conversions (map EvRead blobs) = [].
Proof. induction blobs as [|b blobs IH]; [reflexivity | exact IH]. Qed.

(** A prefix that ends before an event of the first part of a log lies in
    that first part. *)
Lemma prefix_before (l1 l2 pre post : list Event) (ev : Event) :
  (l1 ++ l2 = pre ++ ev :: post)%list -> ~ In ev l2 ->
  exists rest, l1 = (pre ++ ev :: rest)%list.
Proof.
  intros Heq Hnot. apply app_eq_app in Heq. destruct Heq as [l [[H1 H2] | [H1 H2]]].
  - destruct l as [|x l].
    + cbn in H2. subst l2. exfalso. apply Hnot. now left.
    + injection H2 as <- _. now exists l.
  - exfalso. apply Hnot. rewrite H2. apply in_or_app. right. now left.
Qed.

(** X1.  Whatever the platform, the remote service and the file, a call
    settles after at most three requests, all of them identical; the waits
    are 4000 ms and then 8000 ms, one between two consecutive requests and
    none after the last; at most one conversion is started and at most one
    blob is read, before any request. *)
Theorem request_discipline (P : Platform) (input : File) :
  exists w r,
    analyzeAudio P input initial = Some (w, r)
    /\ (requestCount (log w) <= 3)%nat
    /\ waits (log w) = firstn (requestCount (log w) - 1) [4000; 8000]
    /\ (forall r1 r2, In (EvRequest r1) (log w) -> In (EvRequest r2) (log w) -> r1 = r2)
    /\ (forall pre ms, log w <> (pre ++ [EvWait ms])%list)
    /\ (List.length (conversions (log w)) <= 1)%nat
    /\ (List.length (reads (log w)) <= 1)%nat
    /\ (forall pre b post, log w = (pre ++ EvRead b :: post)%list ->
                           requestCount pre = 0%nat).
Proof.
  destruct (prepare_shape P input) as (w1 & r1 & blobs & Hprep & Hreq & Hlog & Hblobs & _).
  set (conv := if truthy (API_KEY P) && needsConversion input
               then [EvConvert input] else []) in *.
  assert (Hconv : requestCount conv = 0%nat /\ waits conv = [] /\ reads conv = []
                  /\ (List.length (conversions conv) <= 1)%nat
                  /\ forall q, ~ In (EvRequest q) conv).
  { unfold conv. destruct (truthy (API_KEY P) && needsConversion input); cbn.
    - split; [reflexivity|]. split; [reflexivity|]. split; [reflexivity|].
      split; [lia|]. intros q [Hq | []]. discriminate.
    - split; [reflexivity|]. split; [reflexivity|]. split; [reflexivity|].
      split; [lia|]. intros q []. }
  destruct Hconv as (Hc1 & Hc2 & Hc3 & Hc4 & Hc5).
  assert (Hpre : requestCount (log w1) = 0%nat /\ waits (log w1) = []
                 /\ reads (log w1) = blobs
                 /\ conversions (log w1) = conversions conv).
  { rewrite Hlog, requestCount_app, waits_app, reads_app, conversions_app.
    rewrite requestCount_reads, waits_reads, reads_reads, conversions_reads, Hc1, Hc2, Hc3.
    rewrite !app_nil_r. cbn. split; [reflexivity|]. split; [reflexivity|].
    split; reflexivity. }
  destruct Hpre as (Hp1 & Hp2 & Hp3 & Hp4).
  assert (Hnoreq : forall q, ~ In (EvRequest q) (log w1)).
  { intros q Hin. rewrite Hlog in Hin. apply in_app_or in Hin. destruct Hin as [Hin | Hin].
    - now apply (Hc5 q).
    - apply in_map_iff in Hin. destruct Hin as (b & Hb & _). discriminate. }
  unfold analyzeAudio, bind. rewrite Hprep.
  destruct r1 as [[mimeType data] | e].
  - destruct (retryLoop_shape P mimeType data (Z.to_nat maxRetries + 1) 0 w1)
      as (n & r & Hn & Hrun); [unfold maxRetries; lia | cbn; lia |].
    unfold maxRetries in Hn. cbn zeta. rewrite Hrun. eexists _, r. split; [reflexivity|].
    cbn [log].
    set (req := mkRequest mimeType data) in *.
    assert (Hcount : requestCount (log w1 ++ retriesFrom req 0 n ++ [EvRequest req])
                     = S n).
    { rewrite !requestCount_app, Hp1, requestCount_retriesFrom. cbn. lia. }
    rewrite Hcount. split; [lia|]. split.
    { rewrite !waits_app, Hp2, waits_retriesFrom by lia. cbn [waits app].
      rewrite app_nil_r. f_equal. lia. }
    split.
    { assert (Hone : forall q, In (EvRequest q)
                                  (log w1 ++ retriesFrom req 0 n ++ [EvRequest req]) ->
                               q = req).
      { intros q Hin. apply in_app_or in Hin. destruct Hin as [Hin | Hin].
        - now destruct (Hnoreq q).
        - apply in_app_or in Hin. destruct Hin as [Hin | [Hin | []]].
          + apply In_retriesFrom in Hin. destruct Hin as [Hin | [ms Hin]];
              [now injection Hin | discriminate].
          + now injection Hin. }
      intros r1 r2 H1 H2. now rewrite (Hone r1 H1), (Hone r2 H2). }
    split.
    { intros pre ms Heq. rewrite !app_assoc in Heq.
      apply app_inj_tail in Heq. destruct Heq as [_ Heq]. discriminate. }
    split; [rewrite !conversions_app, Hp4, conversions_retriesFrom; cbn;
            rewrite app_nil_r; exact Hc4|].
    split; [rewrite !reads_app, Hp3, reads_retriesFrom; cbn;
            rewrite app_nil_r; exact Hblobs|].
    intros pre b post Heq.
    destruct (prefix_before _ _ _ _ _ Heq) as [rest Hrest].
    + intros Hin. apply in_app_or in Hin. destruct Hin as [Hin | [Hin | []]].
      * apply In_retriesFrom in Hin. destruct Hin as [Hin | [ms Hin]]; discriminate.
      * discriminate.
    + rewrite Hrest, requestCount_app in Hp1. lia.
  - eexists _, _. split; [reflexivity|].
    rewrite Hp1, Hp2, Hp3, Hp4. split; [lia|]. split; [reflexivity|].
    split; [intros r1 r2 H1; now destruct (Hnoreq r1)|].
    split.
    { intros pre ms Heq.
      assert (Hin : In (EvWait ms) (log w1))
        by (rewrite Heq; apply in_or_app; right; now left).
      rewrite Hlog in Hin. apply in_app_or in Hin. destruct Hin as [Hin | Hin].
      - unfold conv in Hin.
        destruct (truthy (API_KEY P) && needsConversion input);
          [destruct Hin as [Hin | []]; discriminate | destruct Hin].
      - apply in_map_iff in Hin. destruct Hin as (b & Hb & _). discriminate. }
    split; [exact Hc4|]. split; [exact Hblobs|].
    intros pre b post Heq. rewrite Heq, requestCount_app in Hp1. lia.
Qed.

(** ** The attempt that ends the call *)

(** After [n] retried failures, an attempt whose outcome is not retried
    ends the call. *)
Lemma analyzeAudio_settles (P : Platform) (input : File) (w1 : World)
      (mimeType : string) (data : option string) (errors : list JsError) :
  prepare P input initial = Some (w1, Ok (mimeType, data)) ->
  Z.of_nat (List.length errors) < maxRetries ->
  (forall j e, nth_error errors j = Some e ->
               generateContent P j (mkRequest mimeType data) = Throw e
               /\ isRetryable e = true) ->
  (forall e, attemptOutcome (generateContent P (List.length errors) (mkRequest mimeType data))
             = Throw e ->
             isRetryable e = false) ->
  analyzeAudio P input initial
  = Some ({| requests := S (List.length errors);
             log := (log w1 ++ retriesFrom (mkRequest mimeType data) 0 (List.length errors)
                       ++ [EvRequest (mkRequest mimeType data)])%list |},
          match attemptOutcome (generateContent P (List.length errors)
                                  (mkRequest mimeType data)) with
          | Ok v => Ok v
          | Throw e => Throw (rethrown e)
          end).
Proof.
  intros Hprep Hlen Hfail Hlast.
  destruct (analyzeAudio_requesting _ _ _ _ _ Hprep) as (Hreq & _ & _ & ->).
  unfold maxRetries in *.
  replace (Z.to_nat 3 + 1)%nat
    with (List.length errors + S (3 - List.length errors))%nat by lia.
  rewrite retryLoop_retries; [| lia | unfold maxRetries; lia |].
  2: { intros j e Hj. rewrite Hreq. now apply Hfail. }
  rewrite retryLoop_step. cbn zeta. unfold maxRetries.
  replace (0 + Z.of_nat (List.length errors) <? 3) with true
    by (symmetry; apply Z.ltb_lt; lia).
  cbn [afterRetries requests]. rewrite Hreq, Nat.add_0_l.
  destruct (attemptOutcome _) as [v | e] eqn:Hout.
  - unfold afterRequest, afterRetries. cbn [requests log].
    now rewrite Hreq, <- !app_assoc.
  - rewrite (Hlast e eq_refl). cbn [andb].
    unfold afterRequest, afterRetries. cbn [requests log].
    now rewrite Hreq, <- !app_assoc.
Qed.

(** X2.  When the first request that is not a retried failure succeeds with
    non-empty text that parses, the call returns the parsed value; the log
    then ends with that request, after one request and one wait for each
    earlier failure.  With no failure at all this is a single request and
    no wait. *)
Theorem success_ends_the_call (P : Platform) (input : File) (w1 : World)
        (mimeType : string) (data : option string) (errors : list JsError)
        (t : string) (v : JSON.value) :
  prepare P input initial = Some (w1, Ok (mimeType, data)) ->
  Z.of_nat (List.length errors) < maxRetries ->
  (forall j e, nth_error errors j = Some e ->
               generateContent P j (mkRequest mimeType data) = Throw e
               /\ isRetryable e = true) ->
  generateContent P (List.length errors) (mkRequest mimeType data)
  = Ok (mkResponse (Some t)) ->
  t <> EmptyString ->
  cleanAndParseJSON t = Some v ->
  exists w',
    analyzeAudio P input initial = Some (w', Ok v)
    /\ log w' = (log w1 ++ retriesFrom (mkRequest mimeType data) 0 (List.length errors)
                   ++ [EvRequest (mkRequest mimeType data)])%list.
Proof.
  intros Hprep Hlen Hfail Hresp Ht Hv.
  assert (Hout : attemptOutcome (generateContent P (List.length errors)
                                   (mkRequest mimeType data)) = Ok v).
  { rewrite Hresp. unfold attemptOutcome. cbn [text truthy].
    destruct (String.eqb_spec t EmptyString) as [-> | _]; [contradiction|].
    cbn [negb]. now rewrite Hv. }
  rewrite (analyzeAudio_settles _ _ _ _ _ errors Hprep Hlen Hfail).
  - rewrite Hout. eexists. split; reflexivity.
  - intros e He. rewrite Hout in He. discriminate.
Qed.

Lemma success_ends_the_call_witness :
  exists w',
    analyzeAudio (scripted [Ok (mkResponse (Some "[1, 2]"))]) mp3File initial
    = Some (w', Ok (JSON.JArray [JSON.JNumber "1"; JSON.JNumber "2"]))
    /\ log w' = ([EvRead (blob mp3File)] ++ retriesFrom (mkRequest "audio/mpeg" (Some "AAAA")) 0 0
                   ++ [EvRequest (mkRequest "audio/mpeg" (Some "AAAA"))])%list.
Proof.
  apply (success_ends_the_call
           (scripted [Ok (mkResponse (Some "[1, 2]"))])
           mp3File {| requests := 0; log := [EvRead (blob mp3File)] |}
           "audio/mpeg" (Some "AAAA") [] "[1, 2]").
  - vm_compute; reflexivity.
  - vm_compute; reflexivity.
  - intros [|j] e Hj; discriminate.
  - reflexivity.
  - discriminate.
  - vm_compute; reflexivity.
Defined.

(** X3.  When the first request that is not a retried failure succeeds with
    non-empty text that does not parse (with or without a fence), the call
    fails with "Failed to parse AI response." on that attempt: the parse
    failure is not retried and the syntax error itself is not shown. *)
Theorem parse_failure_is_terminal (P : Platform) (input : File) (w1 : World)
        (mimeType : string) (data : option string) (errors : list JsError)
        (t : string) :
  prepare P input initial = Some (w1, Ok (mimeType, data)) ->
  Z.of_nat (List.length errors) < maxRetries ->
  (forall j e, nth_error errors j = Some e ->
               generateContent P j (mkRequest mimeType data) = Throw e
               /\ isRetryable e = true) ->
  generateContent P (List.length errors) (mkRequest mimeType data)
  = Ok (mkResponse (Some t)) ->
  t <> EmptyString ->
  cleanAndParseJSON t = None ->
  exists w',
    analyzeAudio P input initial = Some (w', Throw (Error "Failed to parse AI response."))
    /\ log w' = (log w1 ++ retriesFrom (mkRequest mimeType data) 0 (List.length errors)
                   ++ [EvRequest (mkRequest mimeType data)])%list.
Proof.
  intros Hprep Hlen Hfail Hresp Ht Hv.
  assert (Hout : attemptOutcome (generateContent P (List.length errors)
                                   (mkRequest mimeType data)) = Throw ParseError).
  { rewrite Hresp. unfold attemptOutcome. cbn [text truthy].
    destruct (String.eqb_spec t EmptyString) as [-> | _]; [contradiction|].
    cbn [negb]. now rewrite Hv. }
  rewrite (analyzeAudio_settles _ _ _ _ _ errors Hprep Hlen Hfail).
  - rewrite Hout. eexists. split; reflexivity.
  - intros e He. rewrite Hout in He. injection He as <-. reflexivity.
Qed.

Lemma parse_failure_is_terminal_witness :
  exists w',
    analyzeAudio (scripted [Throw serviceUnavailable;
                            Ok (mkResponse (Some "Sorry, I cannot help."))])
      mp3File initial
    = Some (w', Throw (Error "Failed to parse AI response."))
    /\ log w' = ([EvRead (blob mp3File)]
                   ++ retriesFrom (mkRequest "audio/mpeg" (Some "AAAA")) 0 1
                   ++ [EvRequest (mkRequest "audio/mpeg" (Some "AAAA"))])%list.
Proof.
  apply (parse_failure_is_terminal
           (scripted [Throw serviceUnavailable;
                      Ok (mkResponse (Some "Sorry, I cannot help."))])
           mp3File {| requests := 0; log := [EvRead (blob mp3File)] |}
           "audio/mpeg" (Some "AAAA") [serviceUnavailable] "Sorry, I cannot help.").
  - vm_compute; reflexivity.
  - vm_compute; reflexivity.
  - intros [|[|j]] e Hj; cbn in Hj; try discriminate.
    injection Hj as <-. split; reflexivity.
  - reflexivity.
  - discriminate.
  - vm_compute; reflexivity.
Defined.

(** X4.  A failure that the catch clause does not classify as retryable
    (no 500 or 503 in its message or status) ends the call on that attempt,
    also after retried failures: the error is thrown again as it is, or
    replaced by the invalid-request error when its message contains 400. *)
Theorem other_failure_is_terminal (P : Platform) (input : File) (w1 : World)
        (mimeType : string) (data : option string) (errors : list JsError)
        (e : JsError) :
  prepare P input initial = Some (w1, Ok (mimeType, data)) ->
  Z.of_nat (List.length errors) < maxRetries ->
  (forall j e', nth_error errors j = Some e' ->
                generateContent P j (mkRequest mimeType data) = Throw e'
                /\ isRetryable e' = true) ->
  generateContent P (List.length errors) (mkRequest mimeType data) = Throw e ->
  isRetryable e = false ->
  exists w',
    analyzeAudio P input initial
    = Some (w', Throw (if messageIncludes "400" e
                       then Error "Invalid request. The file format might not be supported."
                       else e))
    /\ log w' = (log w1 ++ retriesFrom (mkRequest mimeType data) 0 (List.length errors)
                   ++ [EvRequest (mkRequest mimeType data)])%list.
Proof.
  intros Hprep Hlen Hfail Hresp He.
  rewrite (analyzeAudio_settles _ _ _ _ _ errors Hprep Hlen Hfail).
  - rewrite Hresp. cbn [attemptOutcome]. eexists. split; reflexivity.
  - intros e' He'. rewrite Hresp in He'. cbn [attemptOutcome] in He'.
    injection He' as <-. exact He.
Qed.

Lemma other_failure_is_terminal_witness :
  exists w',
    analyzeAudio (scripted [Throw (mkJsError (Some "got status: 400 Bad Request") (Some 400))])
      mp3File initial
    = Some (w', Throw (Error "Invalid request. The file format might not be supported."))
    /\ log w' = ([EvRead (blob mp3File)]
                   ++ retriesFrom (mkRequest "audio/mpeg" (Some "AAAA")) 0 0
                   ++ [EvRequest (mkRequest "audio/mpeg" (Some "AAAA"))])%list.
Proof.
  apply (other_failure_is_terminal
           (scripted [Throw (mkJsError (Some "got status: 400 Bad Request") (Some 400))])
           mp3File {| requests := 0; log := [EvRead (blob mp3File)] |}
           "audio/mpeg" (Some "AAAA") []
           (mkJsError (Some "got status: 400 Bad Request") (Some 400))).
  - vm_compute; reflexivity.
  - vm_compute; reflexivity.
  - intros [|j] e Hj; discriminate.
  - reflexivity.
  - reflexivity.
Defined.

(** ** Before the first request *)

(** X5.  Without an API key (absent or empty) the call fails at once with
    the configuration error: nothing is converted, read or requested. *)
Theorem missing_key_stops_everything (P : Platform) (input : File) :
  API_KEY P = None \/ API_KEY P = Some EmptyString ->
  analyzeAudio P input initial
  = Some (initial,
          Throw (Error "API Key is missing. Please check your environment configuration.")).
Proof.
  intros Hkey. unfold analyzeAudio, prepare, bind.
  now destruct Hkey as [-> | ->].
Qed.

Lemma missing_key_stops_everything_witness :
  analyzeAudio noKey m4aFile initial
  = Some (initial,
          Throw (Error "API Key is missing. Please check your environment configuration.")).
Proof.
  apply (missing_key_stops_everything noKey m4aFile). left. reflexivity.
Defined.

(** X6.  When the input needs conversion and decoding or rendering fails,
    whatever the error, the call fails with the one conversion message; the
    original error is dropped, and nothing is read or requested. *)
Theorem conversion_failure_is_wrapped (P : Platform) (input : File) (e : JsError) :
  truthy (API_KEY P) = true ->
  needsConversion input = true ->
  decodeAudioData P input = Throw e
  \/ (exists audioBuffer, decodeAudioData P input = Ok audioBuffer
                          /\ startRendering P audioBuffer 1 16000 = Throw e) ->
  analyzeAudio P input initial
  = Some ({| requests := 0; log := [EvConvert input] |},
          Throw (Error "Failed to convert audio file. The file might be corrupted or incompatible.")).
Proof.
  intros Hkey Hneeds Hfail.
  unfold analyzeAudio, prepare, bind, conversionStage.
  rewrite Hkey, Hneeds. cbn [negb].
  unfold tryCatch, bind, emit, convertMp4ToWav, bind, await. cbn [requests log initial app].
  destruct Hfail as [-> | (ab & -> & ->)]; reflexivity.
Qed.

Lemma conversion_failure_is_wrapped_witness :
  analyzeAudio brokenDecoder m4aFile initial
  = Some ({| requests := 0; log := [EvConvert m4aFile] |},
          Throw (Error "Failed to convert audio file. The file might be corrupted or incompatible.")).
Proof.
  apply (conversion_failure_is_wrapped brokenDecoder m4aFile
           (Error "Unable to decode audio data")).
  - reflexivity.
  - reflexivity.
  - left. reflexivity.
Defined.

(** The conversion stage when decoding and rendering succeed. *)
Lemma conversionStage_converts (P : Platform) (input : File)
      (audioBuffer resampled : AudioBuffer) :
  needsConversion input = true ->
  decodeAudioData P input = Ok audioBuffer ->
  startRendering P audioBuffer 1 16000 = Ok resampled ->
  exists bytes,
    audioBufferToWav resampled = Some bytes
    /\ Z.of_nat (List.length bytes) = 44 + dataLengthOf resampled
    /\ conversionStage P input initial
       = Some ({| requests := 0; log := [EvConvert input] |},
               Ok (wavBlob bytes, "audio/wav")).
Proof.
  intros Hneeds Hdec Hren.
  destruct (audioBufferToWav_ok resampled) as (bytes & Hwav & Hlen & _).
  exists bytes. split; [exact Hwav|]. split; [exact Hlen|].
  unfold conversionStage. rewrite Hneeds.
  unfold tryCatch, bind, emit, convertMp4ToWav, bind, await, orThrow, ret.
  cbn [requests log initial app]. now rewrite Hdec, Hren, Hwav.
Qed.

(** X7.  When the input is converted, it is the WAV encoding of the
    resampled clip that is measured, read and sent: a clip whose 44 header
    bytes and 2 bytes per sample exceed 10 MiB fails with the size error
    (whatever the size of the input file); otherwise that WAV blob is the
    one blob read, and every request carries the type audio/wav. *)
Theorem converted_clip_is_sent (P : Platform) (input : File)
        (audioBuffer resampled : AudioBuffer) :
  truthy (API_KEY P) = true ->
  needsConversion input = true ->
  decodeAudioData P input = Ok audioBuffer ->
  startRendering P audioBuffer 1 16000 = Ok resampled ->
  exists bytes w r,
    audioBufferToWav resampled = Some bytes
    /\ analyzeAudio P input initial = Some (w, r)
    /\ if 44 + Z.of_nat (frames resampled) * Z.of_nat (numberOfChannels resampled) * 2
            >? 10 * 1024 * 1024
       then r = Throw (SizeLimitError
                         (44 + Z.of_nat (frames resampled)
                               * Z.of_nat (numberOfChannels resampled) * 2))
            /\ log w = [EvConvert input]
       else reads (log w) = [wavBlob bytes]
            /\ forall q, In (EvRequest q) (log w) -> req_mimeType q = "audio/wav".
Proof.
  intros Hkey Hneeds Hdec Hren.
  destruct (conversionStage_converts P input _ _ Hneeds Hdec Hren)
    as (bytes & Hwav & Hlen & Hconv).
  exists bytes. unfold analyzeAudio, prepare, bind. rewrite Hkey. cbn [negb].
  rewrite Hconv. unfold encodingStage. cbn [size wavBlob].
  fold (dataLengthOf resampled). rewrite Hlen.
  change (10 * 1024 * 1024) with sizeLimit.
  destruct (44 + dataLengthOf resampled >? sizeLimit).
  - eexists _, _. split; [exact Hwav|]. split; [reflexivity|]. split; reflexivity.
  - unfold fileToGenerativePart, bind, emit, await, ret. cbn [requests log app].
    destruct (readAsDataURL P _) as [url | e].
    + rewrite String.eqb_refl.
      match goal with
      | |- context [retryLoop ?f _ ?m ?d _ ?w] =>
          destruct (retryLoop_shape P m d f 0 w) as (n & r & _ & Hrun);
            [unfold maxRetries; lia | cbn; lia |]
      end.
      rewrite Hrun. eexists _, _. split; [exact Hwav|]. split; [reflexivity|].
      cbn [log]. split.
      * change [EvConvert input; EvRead (wavBlob bytes)]
          with ([EvConvert input] ++ [EvRead (wavBlob bytes)])%list.
        rewrite !reads_app, reads_retriesFrom. reflexivity.
      * intros q Hin. destruct Hin as [Hin | [Hin | Hin]]; try discriminate.
        cbn [app] in Hin.
        apply in_app_or in Hin. destruct Hin as [Hin | [Hin | []]].
        -- apply In_retriesFrom in Hin. destruct Hin as [Hin | [ms Hin]];
             [injection Hin as Hq; now rewrite Hq | discriminate].
        -- injection Hin as Hq. now rewrite <- Hq.
    + eexists _, _. split; [exact Hwav|]. split; [reflexivity|].
      cbn [log]. split; [reflexivity|].
      intros q [Hin | [Hin | []]]; discriminate.
Qed.

Lemma converted_clip_is_sent_witness :
  exists bytes w r,
    audioBufferToWav (mkAudioBuffer 16000 0 [[]]) = Some bytes
    /\ analyzeAudio (scripted []) m4aFile initial = Some (w, r)
    /\ reads (log w) = [wavBlob bytes]
    /\ forall q, In (EvRequest q) (log w) -> req_mimeType q = "audio/wav".
Proof.
  apply (converted_clip_is_sent (scripted []) m4aFile
           (mkAudioBuffer 44100 0 [[]; []]) (mkAudioBuffer 16000 0 [[]])).
  - reflexivity.
  - reflexivity.
  - reflexivity.
  - reflexivity.
Defined.

(** X8.  When the blob passes the size check and the reader fails, the
    call fails with the reader's error as it is, after that one read and
    before any request. *)
Theorem read_failure_is_fatal (P : Platform) (input : File) (w1 : World)
        (finalBlob : Blob) (finalMimeType : string) (e : JsError) :
  truthy (API_KEY P) = true ->
  conversionStage P input initial = Some (w1, Ok (finalBlob, finalMimeType)) ->
  size finalBlob <= 10 * 1024 * 1024 ->
  readAsDataURL P finalBlob = Throw e ->
  analyzeAudio P input initial
  = Some ({| requests := requests w1; log := (log w1 ++ [EvRead finalBlob])%list |},
          Throw e).
Proof.
  intros Hkey Hconv Hsize Hread.
  unfold analyzeAudio, prepare, bind. rewrite Hkey. cbn [negb]. rewrite Hconv.
  unfold encodingStage, sizeLimit.
  replace (size finalBlob >? 10 * 1024 * 1024) with false
    by (symmetry; rewrite Z.gtb_ltb; apply Z.ltb_ge; exact Hsize).
  unfold fileToGenerativePart, bind, emit, await. now rewrite Hread.
Qed.

Lemma read_failure_is_fatal_witness :
  analyzeAudio brokenReader mp3File initial
  = Some ({| requests := 0; log := ([] ++ [EvRead (blob mp3File)])%list |},
          Throw (mkJsError None None)).
Proof.
  apply (read_failure_is_fatal brokenReader mp3File initial (blob mp3File) "audio/mpeg").
  - reflexivity.
  - reflexivity.
  - vm_compute; discriminate.
  - reflexivity.
Defined.

(** ** The payload and its MIME type *)

Lemma contains_tail (sub : string) (c : ascii) (s : string) :
  contains sub s -> contains sub (String c s).
Proof. intros (a & b & ->). now exists (String c a), b. Qed.

Lemma split_whole (sep : ascii) (s : string) :
  ~ contains (String sep EmptyString) s -> Str.split sep s = [s].
Proof.
  induction s as [|c s IH]; intros Hno; [reflexivity|].
  cbn [Str.split]. destruct (Ascii.eqb_spec c sep) as [-> | Hne].
  - exfalso. apply Hno. now exists EmptyString, s.
  - rewrite IH; [reflexivity|]. intros Hc. apply Hno. now apply contains_tail.
Qed.

Lemma split_first (sep : ascii) (h rest : string) :
  ~ contains (String sep EmptyString) h ->
  Str.split sep (h ++ String sep rest) = h :: Str.split sep rest.
Proof.
  induction h as [|c h IH]; intros Hno.
  - cbn [append Str.split]. now rewrite Ascii.eqb_refl.
  - cbn [append Str.split]. destruct (Ascii.eqb_spec c sep) as [-> | Hne].
    + exfalso. apply Hno. now exists EmptyString, h.
    + rewrite IH; [reflexivity|]. intros Hc. apply Hno. now apply contains_tail.
Qed.

Lemma split_last (sep : ascii) (stem ext : string) :
  ~ contains (String sep EmptyString) ext ->
  exists f front, Str.split sep (stem ++ String sep ext) = (f :: front ++ [ext])%list.
Proof.
  intros Hno. induction stem as [|c stem IH].
  - exists EmptyString, []. cbn [append Str.split]. rewrite Ascii.eqb_refl.
    now rewrite split_whole.
  - destruct IH as (f & front & IH). cbn [append Str.split]. rewrite IH.
    destruct (Ascii.eqb c sep).
    + now exists EmptyString, (f :: front).
    + now exists (String c f), front.
Qed.

(** X9.  The payload of a request is what follows the comma of the data
    URL the reader produced: for a URL made of a header without comma, a
    comma and a payload without comma, that payload, after one read. *)
Theorem payload_of_data_url (P : Platform) (file : Blob) (w : World)
        (header payload : string) :
  readAsDataURL P file = Ok (header ++ "," ++ payload) ->
  ~ contains "," header ->
  ~ contains "," payload ->
  fileToGenerativePart P file w
  = Some ({| requests := requests w; log := (log w ++ [EvRead file])%list |},
          Ok (Some payload)).
Proof.
  intros Hread Hh Hp.
  unfold fileToGenerativePart, bind, emit, await, ret. rewrite Hread.
  change (header ++ "," ++ payload) with (header ++ String "," payload).
  rewrite split_first by exact Hh. rewrite split_whole by exact Hp. reflexivity.
Qed.

Lemma payload_of_data_url_witness :
  fileToGenerativePart (scripted []) (blob mp3File) initial
  = Some ({| requests := 0; log := ([] ++ [EvRead (blob mp3File)])%list |},
          Ok (Some "AAAA")).
Proof.
  apply (payload_of_data_url (scripted []) (blob mp3File) initial
           "data:audio/mpeg;base64" "AAAA").
  - reflexivity.
  - rewrite <- includes_spec. vm_compute. discriminate.
  - rewrite <- includes_spec. vm_compute. discriminate.
Defined.

(** X10.  For a blob whose declared type is not audio/wav, the resolved
    type follows the last dot-separated segment of the name, whatever its
    case and whatever the declared type: mp3, wav and m4a give the types of
    the table; any other segment gives the declared type, or audio/mp3
    when there is none.  A name without a dot is its own last segment: the
    file named mp3 is resolved through the table like the file clip.mp3,
    and only a name whose last segment is not in the table falls back to
    the declared type. *)
Theorem mime_type_follows_extension (file : Blob) (stem ext name : string) :
  type file <> "audio/wav" ->
  ~ contains "." ext ->
  name = ext \/ name = stem ++ "." ++ ext ->
  getMimeType file name
  = match lookupExtension (Str.toLowerCase ext) extensionTable with
    | Some m => m
    | None => if String.eqb (type file) EmptyString then "audio/mp3" else type file
    end.
Proof.
  intros Htype Hext Hname. unfold getMimeType.
  destruct (String.eqb_spec (type file) "audio/wav") as [Heq | _]; [contradiction|].
  assert (Hpop : name <> EmptyString -> Str.pop (Str.split "." name) = Some ext).
  { intros _. destruct Hname as [-> | ->].
    - now rewrite split_whole.
    - change (stem ++ "." ++ ext) with (stem ++ String "." ext).
      destruct (split_last "." stem ext Hext) as (f & front & ->).
      unfold Str.pop. change (f :: front ++ [ext])%list with ((f :: front) ++ [ext])%list.
      now rewrite rev_app_distr. }
  destruct (String.eqb_spec name EmptyString) as [Hempty | Hne].
  - destruct Hname as [<- | Hname].
    + subst name. reflexivity.
    + subst name. destruct stem; discriminate.
  - rewrite (Hpop Hne). unfold extensionTable. cbn [lookupExtension].
    destruct (String.eqb (Str.toLowerCase ext) "mp3"); [reflexivity|].
    destruct (String.eqb (Str.toLowerCase ext) "wav"); [reflexivity|].
    destruct (String.eqb (Str.toLowerCase ext) "m4a"); reflexivity.
Qed.

Lemma mime_type_follows_extension_witness :
  getMimeType (mkBlob 1000 "video/quicktime" (UserFile 4)) "clip.v2.MP3" = "audio/mpeg"
  /\ getMimeType (mkBlob 1000 "audio/ogg" (UserFile 4)) "mp3" = "audio/mpeg".
Proof.
  split.
  - apply (mime_type_follows_extension
             (mkBlob 1000 "video/quicktime" (UserFile 4)) "clip.v2" "MP3" "clip.v2.MP3").
    + discriminate.
    + rewrite <- includes_spec. vm_compute. discriminate.
    + right. reflexivity.
  - apply (mime_type_follows_extension
             (mkBlob 1000 "audio/ogg" (UserFile 4)) EmptyString "mp3" "mp3").
    + discriminate.
    + rewrite <- includes_spec. vm_compute. discriminate.
    + left. reflexivity.
Defined.

Lemma getMimeType_nonempty (file : Blob) (name : string) :
  getMimeType file name <> EmptyString.
Proof.
  unfold getMimeType.
  destruct (String.eqb (type file) "audio/wav"); [discriminate|].
  assert (Hfb : (if String.eqb (type file) EmptyString then "audio/mp3" else type file)
                <> EmptyString).
  { destruct (String.eqb_spec (type file) EmptyString); [discriminate | assumption]. }
  destruct (String.eqb name EmptyString); [exact Hfb|].
  destruct (Str.pop _); [|exact Hfb].
  destruct (String.eqb _ "mp3"); [discriminate|].
  destruct (String.eqb _ "wav"); [discriminate|].
  destruct (String.eqb _ "m4a"); [discriminate | exact Hfb].
Qed.

(** X11.  Whatever the platform and the file, no request carries an empty
    MIME type: a blob without declared type and without known extension is
    sent as audio/mp3. *)
Theorem request_type_is_never_empty (P : Platform) (input : File) :
  exists w r,
    analyzeAudio P input initial = Some (w, r)
    /\ forall q, In (EvRequest q) (log w) -> req_mimeType q <> EmptyString.
Proof.
  destruct (prepare_shape P input) as (w1 & r1 & blobs & Hprep & Hreq & Hlog & _).
  assert (Hnoreq : forall q, ~ In (EvRequest q) (log w1)).
  { intros q Hin. rewrite Hlog in Hin. apply in_app_or in Hin. destruct Hin as [Hin | Hin].
    - destruct (truthy (API_KEY P) && needsConversion input);
        [destruct Hin as [Hin | []]; discriminate | destruct Hin].
    - apply in_map_iff in Hin. destruct Hin as (b & Hb & _). discriminate. }
  assert (Hmime : forall m d, r1 = Ok (m, d) -> m <> EmptyString).
  { intros m d ->. revert Hprep. unfold prepare, bind.
    destruct (negb (truthy (API_KEY P))); [discriminate|].
    destruct (conversionStage P input initial) as [[wc [[fb mt] | e]] |]; try discriminate.
    unfold encodingStage. destruct (size fb >? sizeLimit); [discriminate|].
    unfold fileToGenerativePart, bind, emit, await, ret.
    destruct (readAsDataURL P fb); [|discriminate].
    intros [= _ <- _].
    destruct (String.eqb mt "audio/wav"); [discriminate | apply getMimeType_nonempty]. }
  unfold analyzeAudio, bind. rewrite Hprep.
  destruct r1 as [[mimeType data] | e].
  - destruct (retryLoop_shape P mimeType data (Z.to_nat maxRetries + 1) 0 w1)
      as (n & r & _ & Hrun); [unfold maxRetries; lia | cbn; lia |].
    cbn zeta. rewrite Hrun. eexists _, r. split; [reflexivity|].
    cbn [log]. intros q Hin.
    assert (Hq : q = mkRequest mimeType data).
    { apply in_app_or in Hin. destruct Hin as [Hin | Hin]; [now destruct (Hnoreq q)|].
      apply in_app_or in Hin. destruct Hin as [Hin | [Hin | []]].
      - apply In_retriesFrom in Hin. destruct Hin as [Hin | [ms Hin]];
          [now injection Hin | discriminate].
      - now injection Hin. }
    rewrite Hq. cbn [req_mimeType]. now apply (Hmime mimeType data).
  - eexists _, _. split; [reflexivity|]. intros q Hin. now destruct (Hnoreq q).
Qed.

(** * The uploader *)

(** ** Which files are let through *)

Lemma isValidType_spec (f : File) :
  Uploader.isValidType f = true <->
  (exists rest, type (blob f) = "audio/" ++ rest)
  \/ (exists rest, type (blob f) = "video/mp4" ++ rest)
  \/ endsInOneOf mp4Endings (name f)
  \/ endsInOneOf m4aEndings (name f).
Proof.
  unfold Uploader.isValidType. rewrite !orb_true_iff, !startsWith_spec.
  rewrite (endsWith_lower ".mp4" mp4Endings) by apply lower_mp4.
  rewrite (endsWith_lower ".m4a" m4aEndings) by apply lower_m4a.
  tauto.
Qed.

Lemma validateAndSetFile_accepts (f : File) (st : Uploader.State) :
  acceptable f ->
  Uploader.validateAndSetFile f st
  = {| Uploader.isDragging := Uploader.isDragging st;
       Uploader.file := Some f;
       Uploader.isProcessing := Uploader.isProcessing st;
       Uploader.error := None |}.
Proof.
  intros [Hsize Htype]. unfold Uploader.validateAndSetFile.
  replace (size (blob f) >? 100 * 1024 * 1024) with false
    by (symmetry; rewrite Z.gtb_ltb; apply Z.ltb_ge; exact Hsize).
  apply isValidType_spec in Htype. now rewrite Htype.
Qed.

Lemma validateAndSetFile_selection (g : File) (st : Uploader.State) (f : File) :
  Uploader.file (Uploader.validateAndSetFile g st) = Some f ->
  (f = g /\ acceptable g) \/ Uploader.file st = Some f.
Proof.
  unfold Uploader.validateAndSetFile.
  destruct (size (blob g) >? 100 * 1024 * 1024) eqn:Hsize; [discriminate|].
  destruct (Uploader.isValidType g) eqn:Htype; cbn [Uploader.file]; [|now right].
  intros [= <-]. left. split; [reflexivity|]. split.
  - rewrite Z.gtb_ltb in Hsize. now apply Z.ltb_ge in Hsize.
  - now apply isValidType_spec.
Qed.

Lemma handleProcess_keeps_selection (P : Platform) (now : nat -> Z)
      (st st' : Uploader.State) (out : option Types.CallRecord) (events : list Event) :
  Uploader.handleProcess P now st = Some (st', out, events) ->
  Uploader.file st' = Uploader.file st.
Proof.
  unfold Uploader.handleProcess. destruct (Uploader.file st) as [f|] eqn:Hfile.
  - destruct (analyzeAudio P f initial) as [[w [v | e]]|]; [| |discriminate];
      intros [= <- _ _]; reflexivity.
  - now intros [= <- _ _].
Qed.

(** The selection of a mounted uploader, by induction on how its state
    was reached. *)
Lemma reachable_selection (st : Uploader.State) (f : File) :
  Uploader.Reachable st ->
  Uploader.file st = Some f ->
  acceptable f.
Proof.
  intros Hreach. revert f.
  induction Hreach as [| st g _ IH | st P now st' out events _ IH Hrun]; intros f.
  - discriminate.
  - destruct g as [| | files | files]; cbn [Uploader.handle].
    + apply IH.
    + apply IH.
    + unfold Uploader.handleDrop. destruct files as [|g files].
      * apply IH.
      * intros Hf. apply validateAndSetFile_selection in Hf.
        destruct Hf as [[-> Hg] | Hf]; [exact Hg | now apply IH].
    + unfold Uploader.handleFileChange. destruct files as [|g files].
      * apply IH.
      * intros Hf. apply validateAndSetFile_selection in Hf.
        destruct Hf as [[-> Hg] | Hf]; [exact Hg | now apply IH].
  - rewrite (handleProcess_keeps_selection _ _ _ _ _ _ Hrun). apply IH.
Qed.

(** X12.  Whatever the user drops or chooses, and however often the
    analysis is started, the file the uploader holds is one it is meant to
    let through: at most 100 MiB, with a declared type that starts with
    audio/ or video/mp4 or a name that ends in .mp4 or .m4a in any letter
    case.  Every such file that the service does not convert has a declared
    type that starts with audio/: the files let through for their name or
    for a video/mp4 type are all converted. *)
Theorem selection_is_acceptable (st : Uploader.State) (f : File) :
  Uploader.Reachable st ->
  Uploader.file st = Some f ->
  acceptable f
  /\ (needsConversion f = false -> exists rest, type (blob f) = "audio/" ++ rest).
Proof.
  intros Hreach Hfile.
  pose proof (reachable_selection st f Hreach Hfile) as Hok.
  split; [exact Hok|]. intros Hconv.
  destruct Hok as [_ [Haudio | [[rest Hvideo] | Hname]]]; [exact Haudio | |].
  - exfalso.
    assert (Hyes : needsConversion f = true).
    { apply needsConversion_spec. left. rewrite Hvideo.
      exists "video/", rest. reflexivity. }
    congruence.
  - exfalso.
    assert (Hyes : needsConversion f = true).
    { apply needsConversion_spec. right. exact Hname. }
    congruence.
Qed.

Lemma selection_is_acceptable_witness :
  acceptable mp3File
  /\ (needsConversion mp3File = false ->
      exists rest, type (blob mp3File) = "audio/" ++ rest).
Proof.
  apply (selection_is_acceptable
           (Uploader.handle (Uploader.Drop [mp3File]) Uploader.initialState) mp3File).
  - apply Uploader.reach_gesture. apply Uploader.reach_initial.
  - reflexivity.
Defined.

(** X13.  A file that is refused leaves an earlier selection in one of two
    states.  Refused for its size, it clears the selection, and starting
    the analysis then does nothing.  Refused for its type, it leaves the
    earlier file selected under the error message, and starting the
    analysis runs on that earlier file exactly as if the refused one had
    never been offered. *)
Theorem refused_file_and_the_selection (P : Platform) (now : nat -> Z)
        (st : Uploader.State) (f g : File) :
  Uploader.file st = Some f ->
  ~ acceptable g ->
  let st' := Uploader.validateAndSetFile g st in
  (size (blob g) > 100 * 1024 * 1024 ->
   Uploader.file st' = None
   /\ Uploader.error st'
      = Some "File is too large. Please upload a file smaller than 100MB."
   /\ Uploader.handleProcess P now st' = Some (st', None, []))
  /\ (size (blob g) <= 100 * 1024 * 1024 ->
      Uploader.file st' = Some f
      /\ Uploader.error st'
         = Some "Please upload a valid audio file (MP3, WAV, M4A, MP4)."
      /\ Uploader.handleProcess P now st' = Uploader.handleProcess P now st).
Proof.
  intros Hfile Hbad st'. subst st'. unfold Uploader.validateAndSetFile. split.
  - intros Hsize.
    replace (size (blob g) >? 100 * 1024 * 1024) with true
      by (symmetry; rewrite Z.gtb_ltb; apply Z.ltb_lt; lia).
    repeat split.
  - intros Hsize.
    replace (size (blob g) >? 100 * 1024 * 1024) with false
      by (symmetry; rewrite Z.gtb_ltb; apply Z.ltb_ge; exact Hsize).
    destruct (Uploader.isValidType g) eqn:Htype.
    { exfalso. apply Hbad. split; [exact Hsize | now apply isValidType_spec]. }
    cbn [Uploader.file Uploader.error]. split; [exact Hfile|]. split; [reflexivity|].
    unfold Uploader.handleProcess. cbn [Uploader.file Uploader.isDragging].
    rewrite Hfile. reflexivity.
Qed.

Lemma refused_file_and_the_selection_witness :
  Uploader.file (Uploader.validateAndSetFile textFile (holding mp3File)) = Some mp3File
  /\ Uploader.handleProcess (scripted []) clock
       (Uploader.validateAndSetFile textFile (holding mp3File))
     = Uploader.handleProcess (scripted []) clock (holding mp3File).
Proof.
  assert (Hbad : ~ acceptable textFile).
  { intros [_ Htype]. apply isValidType_spec in Htype. discriminate Htype. }
  destruct (refused_file_and_the_selection (scripted []) clock (holding mp3File)
              mp3File textFile eq_refl Hbad) as [_ Hkept].
  destruct Hkept as (Hfile & _ & Hrun).
  - vm_compute. discriminate.
  - split; [exact Hfile | exact Hrun].
Defined.

(** ** Starting the analysis *)

Lemma errorMessage_nonempty (err : JsError) : Uploader.errorMessage err <> EmptyString.
Proof.
  unfold Uploader.errorMessage. destruct (message err) as [m|]; [|discriminate].
  destruct (String.eqb m EmptyString) eqn:Hm; [discriminate|].
  destruct (Str.includes "API Key" m); [discriminate|].
  destruct (Str.includes "File size" m).
  - intros ->. discriminate Hm.
  - destruct (Str.includes "500" m || Str.includes "Internal" m); discriminate.
Qed.

(** X14.  Starting the analysis always settles.  With no file selected
    nothing happens at all.  Otherwise a record is handed over exactly when
    the service call returns a value: it is completed, carries that value,
    the name of the selected file and the two clock readings, and the
    uploader keeps showing the spinner; when the service call fails, no
    record is handed over, the spinner is cleared and a message that is
    never empty is shown.  The selection survives in every case. *)
Theorem process_outcome (P : Platform) (now : nat -> Z) (st : Uploader.State) :
  exists st' out events,
    Uploader.handleProcess P now st = Some (st', out, events)
    /\ Uploader.file st' = Uploader.file st
    /\ match Uploader.file st with
       | None => st' = st /\ out = None /\ events = []
       | Some f =>
           exists w r,
             analyzeAudio P f initial = Some (w, r) /\ events = log w
             /\ match r with
                | Ok v =>
                    out = Some {| Types.id := numberToString (now 0%nat);
                                  Types.fileName := name f;
                                  Types.timestamp := now 1%nat;
                                  Types.duration := None;
                                  Types.status := Types.completed;
                                  Types.analysis := Some v;
                                  Types.error := None |}
                    /\ Uploader.isProcessing st' = true
                    /\ Uploader.error st' = None
                | Throw e =>
                    out = None
                    /\ Uploader.isProcessing st' = false
                    /\ exists shown, Uploader.error st' = Some shown
                                     /\ shown <> EmptyString
                end
       end.
Proof.
  unfold Uploader.handleProcess. destruct (Uploader.file st) as [f|] eqn:Hfile.
  - destruct (analyzeAudio_terminates P f initial) as (w & r & Hrun). rewrite Hrun.
    destruct r as [v | e].
    + eexists _, _, _. split; [reflexivity|]. split; [reflexivity|].
      exists w, (Ok v). repeat split.
    + eexists _, _, _. split; [reflexivity|]. split; [reflexivity|].
      exists w, (Throw e). split; [reflexivity|]. split; [reflexivity|].
      split; [reflexivity|]. split; [reflexivity|].
      eexists. split; [reflexivity | apply errorMessage_nonempty].
  - exists st, None, []. split; [reflexivity|]. split; [exact Hfile|]. repeat split.
Qed.

(** X15.  Without an API key, starting the analysis of any selected file
    touches nothing outside, hands over no record, and shows that the key
    is missing or invalid. *)
Theorem missing_key_is_reported (P : Platform) (now : nat -> Z)
        (st : Uploader.State) (f : File) :
  Uploader.file st = Some f ->
  API_KEY P = None \/ API_KEY P = Some EmptyString ->
  Uploader.handleProcess P now st
  = Some ({| Uploader.isDragging := Uploader.isDragging st;
             Uploader.file := Some f;
             Uploader.isProcessing := false;
             Uploader.error := Some "API Key is missing or invalid." |},
          None, []).
Proof.
  intros Hfile Hkey. unfold Uploader.handleProcess. rewrite Hfile.
  assert (Hrun : analyzeAudio P f initial
                 = Some (initial,
                         Throw (Error "API Key is missing. Please check your environment configuration."))).
  { unfold analyzeAudio, prepare, bind. destruct Hkey as [-> | ->]; reflexivity. }
  rewrite Hrun. reflexivity.
Qed.

Lemma missing_key_is_reported_witness :
  Uploader.handleProcess noKey clock (holding mp3File)
  = Some ({| Uploader.isDragging := false;
             Uploader.file := Some mp3File;
             Uploader.isProcessing := false;
             Uploader.error := Some "API Key is missing or invalid." |},
          None, []).
Proof.
  apply (missing_key_is_reported noKey clock (holding mp3File) mp3File).
  - reflexivity.
  - vm_compute. auto.
Defined.

(** ** The message for a refused size *)

Lemma chars_app (a b : string) :
  list_ascii_of_string (a ++ b)
  = (list_ascii_of_string a ++ list_ascii_of_string b)%list.
Proof. induction a as [|c a IH]; cbn; [reflexivity | now rewrite IH]. Qed.

Lemma includes_first (c : ascii) (sub s : string) :
  Str.includes (String c sub) s = true -> In c (list_ascii_of_string s).
Proof.
  intros H. apply includes_spec in H. destruct H as (a & b & ->).
  rewrite chars_app. apply in_or_app. right. now left.
Qed.

Lemma chars_of_uint (d : Decimal.uint) (c : ascii) :
  In c (list_ascii_of_string (NilEmpty.string_of_uint d)) ->
  (48 <= nat_of_ascii c <= 57)%nat.
Proof.
  induction d as [| d IH | d IH | d IH | d IH | d IH | d IH | d IH | d IH | d IH | d IH];
    cbn [NilEmpty.string_of_uint list_ascii_of_string In];
    try (intros [<- | H]; [cbn; lia | now apply IH]).
  intros [].
Qed.

Lemma chars_of_Z (z : Z) (c : ascii) :
  In c (list_ascii_of_string (Str.of_Z z)) -> (48 <= nat_of_ascii c <= 57)%nat.
Proof.
  unfold Str.of_Z, NilZero.string_of_uint.
  destruct (N.to_uint (Z.to_N z)) eqn:Hd; try (rewrite <- Hd; apply chars_of_uint).
  cbn. intros [<- | []]. cbn; lia.
Qed.

Lemma chars_of_sizeLimitMessage (sz : Z) (c : ascii) :
  In c (list_ascii_of_string (sizeLimitMessage sz)) ->
  (48 <= nat_of_ascii c <= 57)%nat
  \/ In c (list_ascii_of_string
             "Processed file size (.MB) exceeds the 10MB limit. Please upload a shorter recording.").
Proof.
  unfold sizeLimitMessage, Str.toFixed1_MiB. cbn zeta.
  rewrite !chars_app. intros H.
  repeat (apply in_app_or in H; destruct H as [H | H]).
  - right. cbn in H |- *. tauto.
  - left. now apply chars_of_Z in H.
  - right. cbn in H |- *. tauto.
  - left. now apply chars_of_Z in H.
  - right. cbn in H |- *. tauto.
Qed.

Lemma sizeLimitMessage_lacks (c : ascii) (sub : string) (sz : Z) :
  (nat_of_ascii c <? 48)%nat || (57 <? nat_of_ascii c)%nat = true ->
  existsb (Ascii.eqb c)
    (list_ascii_of_string
       "Processed file size (.MB) exceeds the 10MB limit. Please upload a shorter recording.")
  = false ->
  Str.includes (String c sub) (sizeLimitMessage sz) = false.
Proof.
  intros Hdigit Hfixed.
  destruct (Str.includes (String c sub) (sizeLimitMessage sz)) eqn:Hin; [|reflexivity].
  apply includes_first, chars_of_sizeLimitMessage in Hin. destruct Hin as [Hd | Hf].
  - apply orb_true_iff in Hdigit. destruct Hdigit as [H | H];
      [apply Nat.ltb_lt in H | apply Nat.ltb_lt in H]; lia.
  - assert (Hex : existsb (Ascii.eqb c)
                    (list_ascii_of_string
                       "Processed file size (.MB) exceeds the 10MB limit. Please upload a shorter recording.")
                  = true).
    { apply existsb_exists. exists c. split; [exact Hf | apply Ascii.eqb_refl]. }
    congruence.
Qed.

Lemma sizes_up_to_100_MiB : shownAsGeneralFailure 100 901 = true.
Proof. vm_compute. reflexivity. Qed.

Lemma errorMessage_of_size (sz : Z) :
  let shown := Uploader.errorMessage (SizeLimitError sz) in
  shown <> sizeLimitMessage sz
  /\ (shown = "Analysis failed. Please try again."
      \/ shown = "Server error. Please try a shorter audio clip.")
  /\ (10 * 1024 * 1024 < sz <= 100 * 1024 * 1024 ->
      shown = "Analysis failed. Please try again.").
Proof.
  cbn zeta. split; [|split].
  - unfold Uploader.errorMessage, SizeLimitError, Error. cbn [message].
    replace (String.eqb (sizeLimitMessage sz) EmptyString) with false by reflexivity.
    rewrite (sizeLimitMessage_lacks "A" "PI Key" sz) by reflexivity.
    rewrite (sizeLimitMessage_lacks "F" "ile size" sz) by reflexivity.
    destruct (_ || _); discriminate.
  - unfold Uploader.errorMessage, SizeLimitError, Error. cbn [message].
    replace (String.eqb (sizeLimitMessage sz) EmptyString) with false by reflexivity.
    rewrite (sizeLimitMessage_lacks "A" "PI Key" sz) by reflexivity.
    rewrite (sizeLimitMessage_lacks "F" "ile size" sz) by reflexivity.
    destruct (_ || _); [now right | now left].
  - intros Hsz.
    pose proof sizes_up_to_100_MiB as Hall. unfold shownAsGeneralFailure in Hall.
    rewrite forallb_forall in Hall.
    set (n := (20 * sz + 2 ^ 20) / 2 ^ 21).
    assert (Hn : 100 <= n <= 1000).
    { subst n. split.
      - apply Z.div_le_lower_bound; lia.
      - apply Z.lt_succ_r. apply Z.div_lt_upper_bound; lia. }
    specialize (Hall (Z.to_nat n)). rewrite Z2Nat.id in Hall by lia.
    apply String.eqb_eq. apply Hall. apply in_seq. lia.
Qed.

(** X16.  The size message of the service is never what the uploader
    shows.  When the blob that would be sent is over 10 MiB, the call
    fails with the message that names the size, and the uploader, which
    looks for the words File size with a capital F in a message that spells
    them file size, shows the general failure message or the server-error
    message instead; for every blob of up to 100 MiB, so for every file the
    uploader lets through and sends unconverted, it shows the general
    failure message. *)
Theorem size_message_is_never_shown (P : Platform) (now : nat -> Z)
        (st : Uploader.State) (f : File) (w1 : World)
        (finalBlob : Blob) (finalMimeType : string) :
  Uploader.file st = Some f ->
  truthy (API_KEY P) = true ->
  conversionStage P f initial = Some (w1, Ok (finalBlob, finalMimeType)) ->
  size finalBlob > 10 * 1024 * 1024 ->
  exists shown,
    analyzeAudio P f initial
    = Some (w1, Throw (Error (sizeLimitMessage (size finalBlob))))
    /\ Uploader.handleProcess P now st
       = Some ({| Uploader.isDragging := Uploader.isDragging st;
                  Uploader.file := Some f;
                  Uploader.isProcessing := false;
                  Uploader.error := Some shown |},
               None, log w1)
    /\ shown <> sizeLimitMessage (size finalBlob)
    /\ (shown = "Analysis failed. Please try again."
        \/ shown = "Server error. Please try a shorter audio clip.")
    /\ (size finalBlob <= 100 * 1024 * 1024 ->
        shown = "Analysis failed. Please try again.").
Proof.
  intros Hfile Hkey Hconv Hsize.
  assert (Hrun : analyzeAudio P f initial
                 = Some (w1, Throw (SizeLimitError (size finalBlob)))).
  { unfold analyzeAudio, prepare, bind. rewrite Hkey. cbn [negb]. rewrite Hconv.
    destruct (encodingStage_runs P f finalBlob finalMimeType w1) as (re & -> & Hre).
    assert (Hgt : (size finalBlob >? sizeLimit) = true).
    { rewrite Z.gtb_ltb. apply Z.ltb_lt. unfold sizeLimit. lia. }
    rewrite (Hre Hgt), Hgt, app_nil_r. destruct w1; reflexivity. }
  destruct (errorMessage_of_size (size finalBlob)) as (Hne & Hcases & Hsmall).
  exists (Uploader.errorMessage (SizeLimitError (size finalBlob))).
  split; [exact Hrun|]. split; [|split; [exact Hne | split; [exact Hcases|]]].
  - unfold Uploader.handleProcess. rewrite Hfile, Hrun. reflexivity.
  - intros Hle. apply Hsmall. lia.
Qed.

Lemma size_message_is_never_shown_witness :
  exists shown,
    analyzeAudio (scripted []) bigWavFile initial
    = Some (initial, Throw (Error (sizeLimitMessage 10485761)))
    /\ Uploader.handleProcess (scripted []) clock (holding bigWavFile)
       = Some ({| Uploader.isDragging := false;
                  Uploader.file := Some bigWavFile;
                  Uploader.isProcessing := false;
                  Uploader.error := Some shown |},
               None, [])
    /\ shown <> sizeLimitMessage 10485761
    /\ (shown = "Analysis failed. Please try again."
        \/ shown = "Server error. Please try a shorter audio clip.")
    /\ (10485761 <= 100 * 1024 * 1024 ->
        shown = "Analysis failed. Please try again.").
Proof.
  apply (size_message_is_never_shown (scripted []) clock (holding bigWavFile) bigWavFile
           initial (blob bigWavFile) "audio/wav").
  - reflexivity.
  - reflexivity.
  - reflexivity.
  - vm_compute. reflexivity.
Defined.

(** ** The message for a failing server *)

(** After [n] retried failures, the attempt that is the third, or whose
    failure is not retried, ends the call. *)
Lemma analyzeAudio_ends (P : Platform) (input : File) (w1 : World)
      (mimeType : string) (data : option string) (errors : list JsError) (e : JsError) :
  prepare P input initial = Some (w1, Ok (mimeType, data)) ->
  Z.of_nat (List.length errors) < maxRetries ->
  (forall j e', nth_error errors j = Some e' ->
                generateContent P j (mkRequest mimeType data) = Throw e'
                /\ isRetryable e' = true) ->
  generateContent P (List.length errors) (mkRequest mimeType data) = Throw e ->
  isRetryable e = false \/ List.length errors = 2%nat ->
  analyzeAudio P input initial
  = Some ({| requests := S (List.length errors);
             log := (log w1 ++ retriesFrom (mkRequest mimeType data) 0 (List.length errors)
                       ++ [EvRequest (mkRequest mimeType data)])%list |},
          Throw (rethrown e)).
Proof.
  intros Hprep Hlen Hfail Hresp Hlast.
  destruct (analyzeAudio_requesting _ _ _ _ _ Hprep) as (Hreq & _ & _ & ->).
  unfold maxRetries in *.
  replace (Z.to_nat 3 + 1)%nat
    with (List.length errors + S (3 - List.length errors))%nat by lia.
  rewrite retryLoop_retries; [| lia | unfold maxRetries; lia |].
  2: { intros j e' Hj. rewrite Hreq. now apply Hfail. }
  rewrite retryLoop_step. cbn zeta. unfold maxRetries.
  replace (0 + Z.of_nat (List.length errors) <? 3) with true
    by (symmetry; apply Z.ltb_lt; lia).
  cbn [afterRetries requests]. rewrite Hreq, Nat.add_0_l, Hresp. cbn [attemptOutcome].
  replace (isRetryable e && (0 + Z.of_nat (List.length errors) <? 3 - 1)) with false.
  - unfold afterRequest, afterRetries. cbn [requests log].
    now rewrite Hreq, <- !app_assoc.
  - symmetry. destruct Hlast as [-> | ->]; [reflexivity|].
    apply andb_false_iff. right. reflexivity.
Qed.

(** X17.  When the attempt that ends the call fails with a message that
    holds 500 or Internal (and none of 400, API Key, File size), whether it
    is the third attempt or an earlier one whose failure is not retried,
    the uploader hands over no record and shows the server-error message,
    after one request for that attempt and one request and one wait for
    each failure before it. *)
Theorem server_failure_is_named (P : Platform) (now : nat -> Z) (st : Uploader.State)
        (input : File) (w1 : World) (mimeType : string) (data : option string)
        (errors : list JsError) (e : JsError) (m : string) :
  Uploader.file st = Some input ->
  prepare P input initial = Some (w1, Ok (mimeType, data)) ->
  Z.of_nat (List.length errors) < maxRetries ->
  (forall j e', nth_error errors j = Some e' ->
                generateContent P j (mkRequest mimeType data) = Throw e'
                /\ isRetryable e' = true) ->
  generateContent P (List.length errors) (mkRequest mimeType data) = Throw e ->
  isRetryable e = false \/ List.length errors = 2%nat ->
  message e = Some m ->
  contains "500" m \/ contains "Internal" m ->
  ~ contains "400" m -> ~ contains "API Key" m -> ~ contains "File size" m ->
  Uploader.handleProcess P now st
  = Some ({| Uploader.isDragging := Uploader.isDragging st;
             Uploader.file := Some input;
             Uploader.isProcessing := false;
             Uploader.error := Some "Server error. Please try a shorter audio clip." |},
          None,
          (log w1 ++ retriesFrom (mkRequest mimeType data) 0 (List.length errors)
             ++ [EvRequest (mkRequest mimeType data)])%list).
Proof.
  intros Hfile Hprep Hlen Hfail Hresp Hlast Hm Hserver H400 Hkey Hsize.
  unfold Uploader.handleProcess. rewrite Hfile.
  rewrite (analyzeAudio_ends _ _ _ _ _ errors e Hprep Hlen Hfail Hresp Hlast).
  assert (Hre : rethrown e = e).
  { unfold rethrown, messageIncludes. rewrite Hm.
    destruct (Str.includes "400" m) eqn:Hin; [|reflexivity].
    apply includes_spec in Hin. contradiction. }
  rewrite Hre. cbn [log]. do 3 f_equal.
  unfold Uploader.errorMessage. rewrite Hm.
  assert (H1 : String.eqb m EmptyString = false).
  { destruct m; [|reflexivity].
    destruct Hserver as [(a & b & H) | (a & b & H)]; destruct a; discriminate H. }
  assert (H2 : Str.includes "API Key" m = false).
  { destruct (Str.includes "API Key" m) eqn:Hin; [|reflexivity].
    apply includes_spec in Hin. contradiction. }
  assert (H3 : Str.includes "File size" m = false).
  { destruct (Str.includes "File size" m) eqn:Hin; [|reflexivity].
    apply includes_spec in Hin. contradiction. }
  assert (H4 : Str.includes "500" m || Str.includes "Internal" m = true).
  { apply orb_true_iff. rewrite !includes_spec. exact Hserver. }
  now rewrite H1, H2, H3, H4.
Qed.

Lemma server_failure_is_named_witness :
  Uploader.handleProcess
    (scripted [Throw internalError; Throw internalError; Throw internalError])
    clock (holding mp3File)
  = Some ({| Uploader.isDragging := false;
             Uploader.file := Some mp3File;
             Uploader.isProcessing := false;
             Uploader.error := Some "Server error. Please try a shorter audio clip." |},
          None,
          ([EvRead (blob mp3File)]
             ++ retriesFrom (mkRequest "audio/mpeg" (Some "AAAA")) 0 2
             ++ [EvRequest (mkRequest "audio/mpeg" (Some "AAAA"))])%list).
Proof.
  apply (server_failure_is_named
           (scripted [Throw internalError; Throw internalError; Throw internalError])
           clock (holding mp3File) mp3File
           {| requests := 0; log := [EvRead (blob mp3File)] |}
           "audio/mpeg" (Some "AAAA") [internalError; internalError] internalError
           "500 Internal Server Error").
  - reflexivity.
  - vm_compute; reflexivity.
  - vm_compute; reflexivity.
  - intros [|[|[|j]]] e Hj; try discriminate; injection Hj as <-; split; reflexivity.
  - reflexivity.
  - right; reflexivity.
  - reflexivity.
  - left. exists EmptyString, " Internal Server Error". reflexivity.
  - intros H. apply includes_spec in H. discriminate H.
  - intros H. apply includes_spec in H. discriminate H.
  - intros H. apply includes_spec in H. discriminate H.
Defined.

(** * The application shell *)

Lemma handleProcess_record (P : Platform) (now : nat -> Z) (ust ust' : Uploader.State)
      (record : Types.CallRecord) (events : list Event) :
  Uploader.handleProcess P now ust = Some (ust', Some record, events) ->
  exists f v,
    Uploader.file ust = Some f
    /\ record = {| Types.id := numberToString (now 0%nat);
                   Types.fileName := name f;
                   Types.timestamp := now 1%nat;
                   Types.duration := None;
                   Types.status := Types.completed;
                   Types.analysis := Some v;
                   Types.error := None |}.
Proof.
  unfold Uploader.handleProcess. destruct (Uploader.file ust) as [f|]; [|discriminate].
  destruct (analyzeAudio P f initial) as [[w [v | e]]|]; try discriminate.
  intros [= _ <- _]. now exists f, v.
Qed.

Lemma Step_calls (st st' : App.State) (a : App.Action) :
  App.Step st a st' ->
  App.calls st' = (App.delivered [a] ++ App.calls st)%list.
Proof. intros Hstep. destruct Hstep; reflexivity. Qed.

Ltac run_sampleSession :=
  eapply App.run_cons; [apply App.step_new|];
  eapply App.run_cons;
    [eapply (App.step_done _ (scripted [Ok (mkResponse (Some sampleObject))]) clock
               (holding mp3File));
       [apply Uploader.reach_gesture, Uploader.reach_initial | vm_compute; reflexivity]|];
  eapply App.run_cons; [eapply App.step_back; reflexivity|];
  apply App.run_nil.

(** X18.  The list of calls only grows, at its head: after any sequence of
    actions it is the records of the completed analyses, the newest first,
    in front of the list the sequence started from.  No click removes,
    reorders or changes a record. *)
Theorem calls_are_kept_newest_first (st st' : App.State) (actions : list App.Action) :
  App.Run st actions st' ->
  App.calls st' = (rev (App.delivered actions) ++ App.calls st)%list.
Proof.
  intros Hrun. induction Hrun as [st | st a st' actions st'' Hstep _ IH]; [reflexivity|].
  rewrite IH, (Step_calls _ _ _ Hstep).
  destruct a; cbn [App.delivered rev app]; try reflexivity.
  now rewrite <- app_assoc.
Qed.

Lemma calls_are_kept_newest_first_witness :
  App.calls afterSampleSession
  = (rev (App.delivered sampleSession) ++ App.calls App.initialState)%list.
Proof.
  apply (calls_are_kept_newest_first App.initialState afterSampleSession sampleSession).
  unfold sampleSession, afterSampleSession. run_sampleSession.
Defined.

Lemma Step_invariant (st st' : App.State) (a : App.Action) :
  App.Step st a st' ->
  (forall c, In c (App.calls st) -> completedRecord c)
  /\ (forall c, App.selectedCall st = Some c -> In c (App.calls st))
  /\ (App.view st = Types.details -> App.selectedCall st <> None) ->
  (forall c, In c (App.calls st') -> completedRecord c)
  /\ (forall c, App.selectedCall st' = Some c -> In c (App.calls st'))
  /\ (App.view st' = Types.details -> App.selectedCall st' <> None).
Proof.
  intros Hstep (Hcalls & Hsel & Hview).
  destruct Hstep as [st | st | st cs call Hscreen Hin Hstatus | st call Hscreen
                     | st Hscreen | st P now ust ust' record events Hreach Hrun];
    cbn [App.setView App.onViewDetails App.onBack App.handleAnalysisComplete
         App.calls App.selectedCall App.view].
  - split; [exact Hcalls|]. split; [exact Hsel | discriminate].
  - split; [exact Hcalls|]. split; [exact Hsel | discriminate].
  - split; [exact Hcalls|]. split; [|discriminate].
    intros c [= <-].
    assert (Hcs : cs = App.calls st).
    { revert Hscreen. unfold App.renderContent.
      destruct (App.view st); [now intros [= <-] | discriminate |].
      destruct (App.selectedCall st); [discriminate | now intros [= <-]]. }
    now rewrite <- Hcs.
  - split; [exact Hcalls|]. split; [discriminate | discriminate].
  - split; [exact Hcalls|]. split; [exact Hsel | discriminate].
  - split; [|split; [|discriminate]].
    + intros c [<- | Hin]; [|now apply Hcalls].
      destruct (handleProcess_record _ _ _ _ _ _ Hrun) as (f & v & Hfile & ->).
      unfold completedRecord. cbn.
      split; [reflexivity|]. split; [now exists v|]. split; [reflexivity|].
      split; [reflexivity|]. exists f. split; [|reflexivity].
      now apply (reachable_selection ust).
    + intros c [= <-]. now left.
Qed.

Lemma Run_invariant (st st' : App.State) (actions : list App.Action) :
  App.Run st actions st' ->
  (forall c, In c (App.calls st) -> completedRecord c)
  /\ (forall c, App.selectedCall st = Some c -> In c (App.calls st))
  /\ (App.view st = Types.details -> App.selectedCall st <> None) ->
  (forall c, In c (App.calls st') -> completedRecord c)
  /\ (forall c, App.selectedCall st' = Some c -> In c (App.calls st'))
  /\ (App.view st' = Types.details -> App.selectedCall st' <> None).
Proof.
  intros Hrun. induction Hrun as [st | st a st' actions st'' Hstep _ IH]; [tauto|].
  intros Hinv. apply IH. exact (Step_invariant _ _ _ Hstep Hinv).
Qed.

(** X19.  In every state the shell reaches from its initial state: each
    record of the list is completed, carries the value of its analysis and
    no error, and is named after a file the uploader lets through; the
    selected call, if any, is one of the list; in the details view a call
    is always selected, so [renderContent] returns the detail component for
    that call; and it returns the dashboard component in the dashboard view
    only, with the whole list: the fallback of its details branch is never
    taken.  The statement is about the state and about the component
    [renderContent] picks, not about what that component draws for a
    record whose analysis lacks the fields it reads. *)
Theorem shell_invariant (actions : list App.Action) (st : App.State) :
  App.Run App.initialState actions st ->
  (forall c, In c (App.calls st) -> completedRecord c)
  /\ (forall c, App.selectedCall st = Some c -> In c (App.calls st))
  /\ (App.view st = Types.details ->
      exists c, App.selectedCall st = Some c
                /\ App.renderContent st = App.CallDetailElement c)
  /\ (forall cs, App.renderContent st = App.DashboardElement cs ->
                 App.view st = Types.dashboard /\ cs = App.calls st).
Proof.
  intros Hrun.
  destruct (Run_invariant _ _ _ Hrun) as (Hcalls & Hsel & Hview).
  { split; [intros c [] | split; [discriminate | discriminate]]. }
  split; [exact Hcalls|]. split; [exact Hsel|]. split.
  - intros Hdetails. unfold App.renderContent. rewrite Hdetails.
    destruct (App.selectedCall st) as [c|] eqn:Hc.
    + now exists c.
    + now destruct (Hview Hdetails).
  - intros cs. unfold App.renderContent.
    destruct (App.view st) eqn:Hv; [now intros [= <-] | discriminate |].
    destruct (App.selectedCall st) eqn:Hc; [discriminate|].
    now destruct (Hview eq_refl).
Qed.

Lemma shell_invariant_witness :
  (forall c, In c (App.calls afterSampleSession) -> completedRecord c)
  /\ (forall c, App.selectedCall afterSampleSession = Some c ->
                In c (App.calls afterSampleSession))
  /\ (App.view afterSampleSession = Types.details ->
      exists c, App.selectedCall afterSampleSession = Some c
                /\ App.renderContent afterSampleSession = App.CallDetailElement c)
  /\ (forall cs, App.renderContent afterSampleSession = App.DashboardElement cs ->
                 App.view afterSampleSession = Types.dashboard
                 /\ cs = App.calls afterSampleSession).
Proof.
  apply (shell_invariant sampleSession afterSampleSession).
  unfold sampleSession, afterSampleSession. run_sampleSession.
Defined.

(** * More on the fence pattern and on the WAV header *)

(** ** A text without a pair of fences *)

Section Failing.

Context {R : Type}.

Lemma star_fails (k : RegExp.cls) (s : string) (cont : string -> option R) :
  (forall a s', s = a ++ s' -> cont s' = None) ->
  RegExp.star k s cont = None.
Proof.
  induction s as [|c s IH]; intros H; cbn [RegExp.star].
  - now apply (H EmptyString).
  - assert (Hhere : cont (String c s) = None) by now apply (H EmptyString).
    destruct (RegExp.accepts k c); [|exact Hhere].
    rewrite IH; [exact Hhere|]. intros a s' ->. now apply (H (String c a)).
Qed.

Lemma starLazy_fails (k : RegExp.cls) (s : string) (cont : string -> option R) :
  (forall a s', s = a ++ s' -> cont s' = None) ->
  RegExp.starLazy k s cont = None.
Proof.
  induction s as [|c s IH]; intros H; cbn [RegExp.starLazy].
  - now rewrite (H EmptyString EmptyString eq_refl).
  - rewrite (H EmptyString (String c s) eq_refl).
    destruct (RegExp.accepts k c); [|reflexivity].
    apply IH. intros a s' ->. now apply (H (String c a)).
Qed.

(** A pattern only hands suffixes of its input to what follows it. *)
Lemma run_fails (r : RegExp.re) :
  forall (s : string) (cap : option string) (cont : string -> option string -> option R),
    (forall a s' cap', s = a ++ s' -> cont s' cap' = None) ->
    RegExp.run r s cap cont = None.
Proof.
  induction r as [| k | r1 IH1 r2 IH2 | r IH | k | k | r IH]; intros s cap cont H;
    cbn [RegExp.run].
  - now apply (H EmptyString).
  - destruct s as [|c s]; [reflexivity|].
    destruct (RegExp.accepts k c); [|reflexivity].
    now apply (H (String c EmptyString)).
  - apply IH1. intros a s' cap' ->. apply IH2. intros b s'' cap'' ->.
    apply (H (a ++ b)). now rewrite sapp_assoc.
  - rewrite IH by exact H. now apply (H EmptyString).
  - apply star_fails. intros a s' ->. now apply (H a).
  - apply starLazy_fails. intros a s' ->. now apply (H a).
  - apply IH. intros a s' cap' ->. now apply (H a).
Qed.

Lemma run_before_lit_fails (r : RegExp.re) (w s : string) (cap : option string)
      (cont : string -> option string -> option R) :
  Str.includes w s = false ->
  RegExp.run (RegExp.Seq r (RegExp.lit w)) s cap cont = None.
Proof.
  intros Hw. cbn [RegExp.run]. apply run_fails. intros a s' cap' ->.
  apply run_lit_fail. apply includes_suffix in Hw.
  destruct s' as [|c s'].
  - cbn [Str.includes] in Hw. now destruct (Str.startsWith w EmptyString).
  - now apply includes_tail in Hw.
Qed.

End Failing.

Lemma exec_single_fence (text : string) :
  (forall a b, text = a ++ "```" ++ b -> Str.includes "```" b = false) ->
  RegExp.exec codeBlockRegex text = None.
Proof.
  induction text as [|c text IH]; intros H; [reflexivity|].
  cbn [RegExp.exec].
  assert (Hhere : RegExp.run codeBlockRegex (String c text) None (fun _ cap => Some cap)
                  = None).
  { destruct (Str.startsWith "```" (String c text)) eqn:Hst.
    - apply startsWith_spec in Hst. destruct Hst as [rest Hrest]. rewrite Hrest.
      unfold codeBlockRegex. cbn [RegExp.run]. rewrite run_lit_app.
      change (RegExp.run
                (RegExp.Seq
                   (RegExp.Seq (RegExp.Opt (RegExp.lit "json"))
                      (RegExp.Seq (RegExp.Star RegExp.Space)
                         (RegExp.Seq (RegExp.Group (RegExp.StarLazy RegExp.AnyChar))
                            (RegExp.Star RegExp.Space))))
                   (RegExp.lit "```"))
                rest None (fun _ cap => Some cap) = None).
      apply run_before_lit_fails. now apply (H EmptyString).
    - unfold codeBlockRegex. cbn [RegExp.run]. now apply run_lit_fail. }
  rewrite Hhere. apply IH. intros a b ->. now apply (H (String c a) b).
Qed.

(** X20.  A text that does not hold two triple backticks one after the
    other has no fence to strip: whatever it is, an object, an array, a
    bare number, a text with one stray fence or no JSON at all, it goes to
    the JSON parser whole, and the result is the parser's. *)
Theorem text_without_fence_pair_is_parsed_whole (text : string) :
  ~ (exists a b c, text = a ++ "```" ++ b ++ "```" ++ c) ->
  cleanText text = Some text
  /\ cleanAndParseJSON text = JSON.parse text.
Proof.
  intros Hpair.
  assert (Hexec : RegExp.exec codeBlockRegex text = None).
  { apply exec_single_fence. intros a b ->.
    destruct (Str.includes "```" b) eqn:Hin; [|reflexivity].
    apply includes_spec in Hin. destruct Hin as (b1 & b2 & ->).
    exfalso. apply Hpair. now exists a, b1, b2. }
  unfold cleanAndParseJSON, cleanText. rewrite Hexec. split; reflexivity.
Qed.

Lemma text_without_fence_pair_is_parsed_whole_witness :
  cleanText "```1" = Some "```1"
  /\ cleanAndParseJSON "```1" = JSON.parse "```1".
Proof.
  apply (text_without_fence_pair_is_parsed_whole "```1").
  intros (a & b & c & H). apply (f_equal String.length) in H.
  rewrite !sapp_length in H. simpl in H. lia.
Defined.

(** ** The format fields of the header *)

(** X21.  The header of every encoded clip, with no condition on the clip,
    is that of a 16-bit PCM file: the tags RIFF, WAVE, fmt and data (as
    ASCII codes) at offsets 0, 8, 12 and 36, a format chunk of 16 bytes,
    format code 1 and 16 bits per sample.  The block align is two bytes
    per channel when that fits 16 bits, and the byte rate is the sample
    rate times the block align when that fits 32 bits. *)
Theorem wav_format_fields (b : AudioBuffer) :
  exists bytes,
    audioBufferToWav b = Some bytes
    /\ DataView.load 0 4 bytes = Some [82; 73; 70; 70]
    /\ DataView.load 8 4 bytes = Some [87; 65; 86; 69]
    /\ DataView.load 12 4 bytes = Some [102; 109; 116; 32]
    /\ DataView.load 36 4 bytes = Some [100; 97; 116; 97]
    /\ DataView.getUint32 16 true bytes = Some 16
    /\ DataView.getUint16 20 true bytes = Some 1
    /\ DataView.getUint16 34 true bytes = Some 16
    /\ (2 * Z.of_nat (numberOfChannels b) < 2 ^ 16 ->
        DataView.getUint16 32 true bytes = Some (2 * Z.of_nat (numberOfChannels b)))
    /\ (0 <= sampleRate b ->
        sampleRate b * (2 * Z.of_nat (numberOfChannels b)) < 2 ^ 32 ->
        DataView.getUint32 28 true bytes
        = Some (sampleRate b * (2 * Z.of_nat (numberOfChannels b)))).
Proof.
  destruct (audioBufferToWav_ok b) as (bytes & Hrun & _ & Hfields & _).
  destruct Hfields as (Hriff & _ & Hwave & Hfmt & H16 & H1 & _ & _ & Hbr & Hba & Hbits
                       & Hdata & _).
  exists bytes.
  repeat (split; [assumption|]). split.
  - intros Hblock. rewrite Z.mod_small in Hba by lia. rewrite Hba. f_equal. lia.
  - intros Hrate Hbyte. rewrite Z.mod_small in Hbr by nia. rewrite Hbr. f_equal. lia.
Qed.

Lemma wav_format_fields_witness :
  exists bytes,
    audioBufferToWav stereoClip = Some bytes
    /\ DataView.load 0 4 bytes = Some [82; 73; 70; 70]
    /\ DataView.load 8 4 bytes = Some [87; 65; 86; 69]
    /\ DataView.load 12 4 bytes = Some [102; 109; 116; 32]
    /\ DataView.load 36 4 bytes = Some [100; 97; 116; 97]
    /\ DataView.getUint32 16 true bytes = Some 16
    /\ DataView.getUint16 20 true bytes = Some 1
    /\ DataView.getUint16 34 true bytes = Some 16
    /\ DataView.getUint16 32 true bytes = Some 4
    /\ DataView.getUint32 28 true bytes = Some 64000.
Proof.
  destruct (wav_format_fields stereoClip)
    as (bytes & Hrun & Hriff & Hwave & Hfmt & Hdata & H16 & H1 & Hbits & Hba & Hbr).
  exists bytes. repeat (split; [assumption|]). split.
  - apply Hba. vm_compute; reflexivity.
  - apply Hbr; vm_compute; [discriminate | reflexivity].
Defined.

(** ** The room the header needs *)

Lemma store_fits (off : Z) (bs : list Z) (v v' : DataView.t) :
  DataView.store off bs v = Some v' ->
  0 <= off
  /\ off + Z.of_nat (List.length bs) <= Z.of_nat (List.length v)
  /\ List.length v' = List.length v.
Proof.
  intros Hst.
  assert (Hfit : (0 <=? off)
                 && (off + Z.of_nat (List.length bs) <=? Z.of_nat (List.length v)) = true).
  { unfold DataView.store, DataView.byteLength in Hst.
    destruct ((0 <=? off) && (off + Z.of_nat (List.length bs) <=? Z.of_nat (List.length v)));
      [reflexivity | discriminate]. }
  apply andb_true_iff in Hfit. destruct Hfit as [H0 H1].
  apply Z.leb_le in H0. apply Z.leb_le in H1.
  destruct (store_ok off bs v H0 H1) as (v'' & Hst' & Hlen & _).
  rewrite Hst' in Hst. injection Hst as <-.
  split; [exact H0|]. split; [exact H1 | exact Hlen].
Qed.

Lemma setUint32_fits (off value : Z) (le : bool) (v v' : DataView.t) :
  DataView.setUint32 off value le v = Some v' ->
  off + 4 <= Z.of_nat (List.length v) /\ List.length v' = List.length v.
Proof.
  unfold DataView.setUint32. intros H. apply store_fits in H.
  rewrite order_length, le_bytes_length in H. destruct H as (_ & H1 & H2).
  split; [exact H1 | exact H2].
Qed.

(** X22.  [writeWavHeader] needs a view of 44 bytes, no more and no less:
    on a shorter view one of its writes is out of range and the call
    throws; on any view of at least 44 bytes it succeeds, keeps the length
    of the view and leaves every byte from offset 44 on as it was. *)
Theorem header_needs_44_bytes (view : DataView.t) (rate channels dataLength : Z) :
  (writeWavHeader view rate channels dataLength = None
   <-> Z.of_nat (List.length view) < 44)
  /\ forall v',
       writeWavHeader view rate channels dataLength = Some v' ->
       List.length v' = List.length view
       /\ forall off k, 44 <= off -> DataView.load off k v' = DataView.load off k view.
Proof.
  assert (Hok : 44 <= Z.of_nat (List.length view) ->
                exists v',
                  writeWavHeader view rate channels dataLength = Some v'
                  /\ List.length v' = List.length view
                  /\ forall off k, 44 <= off ->
                                   DataView.load off k v' = DataView.load off k view).
  { intros Hlen. destruct (writeWavHeader_ok view rate channels dataLength Hlen)
      as (v' & Hrun & Hl & _ & Hframe).
    now exists v'. }
  assert (Hfail : Z.of_nat (List.length view) < 44 ->
                  writeWavHeader view rate channels dataLength = None).
  { intros Hshort.
    destruct (writeWavHeader view rate channels dataLength) as [v'|] eqn:Hrun;
      [|reflexivity].
    exfalso. revert Hrun. unfold writeWavHeader, obind. cbn zeta.
    repeat match goal with
           | |- match ?x with Some _ => _ | None => _ end = Some _ -> False =>
               let H := fresh "Hw" in
               destruct x eqn:H; [|discriminate]
           end.
    intros Hlast. apply setUint32_fits in Hlast. destruct Hlast as [Hroom _].
    repeat match goal with
           | H : DataView.setUint32 _ _ _ _ = Some _ |- _ =>
               apply setUint32_fits in H; destruct H as [_ H]
           | H : DataView.setUint16 _ _ _ _ = Some _ |- _ =>
               unfold DataView.setUint16 in H; apply store_fits in H;
               destruct H as (_ & _ & H)
           end.
    lia. }
  split; [split|].
  - intros Hnone. destruct (Z_lt_ge_dec (Z.of_nat (List.length view)) 44) as [H | H];
      [exact H|].
    destruct Hok as (v' & Hrun & _); [lia|]. congruence.
  - exact Hfail.
  - intros v' Hrun.
    destruct (Z_lt_ge_dec (Z.of_nat (List.length view)) 44) as [H | H].
    + rewrite (Hfail H) in Hrun. discriminate.
    + destruct Hok as (v'' & Hrun' & Hl & Hframe); [lia|].
      assert (v'' = v') by congruence. subst v''. split; assumption.
Qed.
